(** * acu-master: the mesh text parser and the orbit camera controller

    A shallow embedding of [OBJLoader.parse] (the Wavefront-style mesh
    text parser) and of the [OrbitControls] class (the pointer driven
    orbit / dolly / pan camera controller), with the properties of the
    specification proved or refuted on the embedding, and of the
    arithmetic of the two viewer applications built on them.

    Numbers.  A JavaScript number is an IEEE-754 double.  The parser part
    works with exact decimal values ([Q]) next to [NaN] and the two
    infinities, so that it evaluates; the controller part works with real
    numbers ([R]), the four limit fields whose default is an infinity
    ranging over the reals extended with that infinity.  Rounding, signed
    zeros and NaN arithmetic of the controller are outside the model. *)

From Stdlib Require Import Reals Lra Lia ZArith QArith String Ascii List Bool.
From stdpp Require Import gmap.
Import ListNotations.

(* ------------------------------------------------------------------ *)
(** * Part I.  The mesh text parser (OBJLoader)                        *)
(* ------------------------------------------------------------------ *)

Module OBJLoader.

Local Open Scope string_scope.

(** ** JavaScript values used by the parser *)

(** A JavaScript number as the parser sees it: the exact value of a
    decimal literal, an infinity, or NaN. *)
Inductive number : Type :=
| NaN
| PosInfinity
| NegInfinity
| Num (q : Q).

(** An array slot read back from a [number[]]: [None] is [undefined]. *)
Definition jsval : Type := option number.

(** [a[k]] for an array [a] and a number [k] ([None] is NaN): the element
    when [k] is an integer within range, [undefined] otherwise (a negative,
    too large or NaN key names no array element). *)
Definition array_get {A : Type} (a : list A) (k : option Z) : option A :=
  match k with
  | Some z => if (0 <=? z)%Z then nth_error a (Z.to_nat z) else None
  | None => None
  end.

(** ** Characters and the string built-ins *)

Definition isDigit (c : ascii) : bool :=
  let n := nat_of_ascii c in ((48 <=? n) && (n <=? 57))%nat.

(** White space and line terminators within Latin-1 (TAB, LF, VT, FF, CR,
    SP, NBSP): the class [\s] of a regular expression and the characters
    removed by [String.prototype.trim]. *)
Definition isWhiteSpace (c : ascii) : bool :=
  let n := nat_of_ascii c in
  (((9 <=? n) && (n <=? 13)) || (n =? 32) || (n =? 160))%nat.

(** The class [[\d|\.|\+|\-|e|E]] of the three numeric patterns; within a
    class the bar is an ordinary character. *)
Definition isNumberChar (c : ascii) : bool :=
  isDigit c || (c =? "|")%char || (c =? ".")%char || (c =? "+")%char
  || (c =? "-")%char || (c =? "e")%char || (c =? "E")%char.

(** Longest prefix of characters satisfying [p], and the remainder. *)
Fixpoint span (p : ascii -> bool) (s : string) : string * string :=
  match s with
  | String c r =>
      if p c then let (a, b) := span p r in (String c a, b)
      else (EmptyString, s)
  | EmptyString => (EmptyString, EmptyString)
  end.

Definition trimStart (s : string) : string := snd (span isWhiteSpace s).

Fixpoint string_rev_onto (s acc : string) : string :=
  match s with
  | EmptyString => acc
  | String c r => string_rev_onto r (String c acc)
  end.

Definition string_rev (s : string) : string := string_rev_onto s EmptyString.

Definition trimEnd (s : string) : string :=
  string_rev (trimStart (string_rev s)).

(** [String.prototype.trim]. *)
Definition trim (s : string) : string := trimEnd (trimStart s).

(** [text.split('\n')]: the pieces between line feeds; an empty text gives
    one empty piece. *)
Fixpoint split_lines (text : string) : list string :=
  match text with
  | EmptyString => [EmptyString]
  | String c r =>
      if (c =? "010")%char then EmptyString :: split_lines r
      else match split_lines r with
           | l :: ls => String c l :: ls
           | [] => [String c EmptyString]
           end
  end.

(** [s.startsWith(p)]. *)
Definition startsWith (p s : string) : bool := String.prefix p s.

(** [s.substring(n)] for [n] within the string. *)
Fixpoint substring_from (n : nat) (s : string) : string :=
  match n, s with
  | O, _ => s
  | S n', String _ r => substring_from n' r
  | S _, EmptyString => EmptyString
  end.

(** ** parseInt and parseFloat *)

Definition digit_value (c : ascii) : Z := Z.of_nat (nat_of_ascii c - 48).

(** Value of a string of decimal digits read left to right. *)
Fixpoint digits_value (acc : Z) (s : string) : Z :=
  match s with
  | EmptyString => acc
  | String c r => digits_value (10 * acc + digit_value c)%Z r
  end.

Definition isHexDigit (c : ascii) : bool :=
  let n := nat_of_ascii c in
  (isDigit c || ((65 <=? n) && (n <=? 70)) || ((97 <=? n) && (n <=? 102)))%nat.

Definition hex_digit_value (c : ascii) : Z :=
  let n := nat_of_ascii c in
  if isDigit c then Z.of_nat (n - 48)
  else if (n <=? 70)%nat then Z.of_nat (n - 55)
  else Z.of_nat (n - 87).

Fixpoint hex_digits_value (acc : Z) (s : string) : Z :=
  match s with
  | EmptyString => acc
  | String c r => hex_digits_value (16 * acc + hex_digit_value c)%Z r
  end.

(** An optional sign: [true] for a minus. *)
Definition read_sign (s : string) : bool * string :=
  match s with
  | String "-" r => (true, r)
  | String "+" r => (false, r)
  | _ => (false, s)
  end.

(** [parseInt(s)] without a radix: leading white space is skipped, then a
    sign, then (after [0x] or [0X]) hexadecimal digits, or else decimal
    digits; what follows is ignored.  [None] is NaN. *)
Definition parseInt (s : string) : option Z :=
  let (neg, body) := read_sign (trimStart s) in
  let signed (z : Z) := if neg then (- z)%Z else z in
  let decimal :=
    match span isDigit body with
    | (EmptyString, _) => None
    | (ds, _) => Some (signed (digits_value 0 ds))
    end in
  match body with
  | String "0" (String x r) =>
      if ((x =? "x") || (x =? "X"))%char then
        match span isHexDigit r with
        | (EmptyString, _) => None
        | (hs, _) => Some (signed (hex_digits_value 0 hs))
        end
      else decimal
  | _ => decimal
  end.

(** The exponent part of a decimal literal, read only when complete
    ([e] or [E], an optional sign, at least one digit). *)
Definition read_exponent (s : string) : Z :=
  match s with
  | String c r =>
      if ((c =? "e") || (c =? "E"))%char then
        let (neg, r1) := read_sign r in
        match span isDigit r1 with
        | (EmptyString, _) => 0%Z
        | (ds, _) => if neg then (- digits_value 0 ds)%Z else digits_value 0 ds
        end
      else 0%Z
  | EmptyString => 0%Z
  end.

(** [parseFloat(s)]: the longest prefix of the trimmed string that is a
    decimal literal (sign, [Infinity] or digits with an optional fraction
    and exponent); NaN when there is none.  The value is exact. *)
Definition parseFloat (s : string) : number :=
  let (neg, body) := read_sign (trimStart s) in
  if String.prefix "Infinity" body then
    (if neg then NegInfinity else PosInfinity)
  else
    let (ip, r1) := span isDigit body in
    let (fp, r2) :=
      match r1 with
      | String "." r => span isDigit r
      | _ => (EmptyString, r1)
      end in
    match ip, fp with
    | EmptyString, EmptyString => NaN
    | _, _ =>
        let m := digits_value 0 (ip ++ fp) in
        let e := (read_exponent r2 - Z.of_nat (String.length fp))%Z in
        let v := (inject_Z m * Qpower (10 # 1) e)%Q in
        Num (Qred (if neg then Qopp v else v))
    end.

(** ** The four regular expressions

    Each pattern is anchored at the start of the line and is a sequence of
    runs over character classes; every run is followed by a character
    outside its class (or by the end of the pattern), so the greedy match
    read off below is the match the backtracking engine returns.  A
    [RegExpExecArray] lists the matched text and then the capture groups,
    [None] for a group that did not take part. *)

Definition RegExpExecArray : Type := list (option string).

(** One or more characters of a class: the run and the remainder. *)
Definition plus (p : ascii -> bool) (s : string) : option (string * string) :=
  match span p s with
  | (EmptyString, _) => None
  | (m, r) => Some (m, r)
  end.

(** A literal character. *)
Definition lit (c : ascii) (s : string) : option string :=
  match s with
  | String d r => if (c =? d)%char then Some r else None
  | EmptyString => None
  end.

(** The text consumed between a string and one of its suffixes. *)
Definition consumed (s rest : string) : string :=
  String.substring 0 (String.length s - String.length rest) s.

(** [/^v\s+([\d|\.|\+|\-|e|E]+)\s+([\d|\.|\+|\-|e|E]+)\s+([\d|\.|\+|\-|e|E]+)/] *)
Definition vertexPattern (line : string) : option RegExpExecArray :=
  r0 ← lit "v" line;
  '(_, r1) ← plus isWhiteSpace r0;
  '(g1, r2) ← plus isNumberChar r1;
  '(_, r3) ← plus isWhiteSpace r2;
  '(g2, r4) ← plus isNumberChar r3;
  '(_, r5) ← plus isWhiteSpace r4;
  '(g3, r6) ← plus isNumberChar r5;
  Some [Some (consumed line r6); Some g1; Some g2; Some g3].

(** [/^vn\s+([\d|\.|\+|\-|e|E]+)\s+([\d|\.|\+|\-|e|E]+)\s+([\d|\.|\+|\-|e|E]+)/] *)
Definition normalPattern (line : string) : option RegExpExecArray :=
  r ← lit "v" line;
  r0 ← lit "n" r;
  '(_, r1) ← plus isWhiteSpace r0;
  '(g1, r2) ← plus isNumberChar r1;
  '(_, r3) ← plus isWhiteSpace r2;
  '(g2, r4) ← plus isNumberChar r3;
  '(_, r5) ← plus isWhiteSpace r4;
  '(g3, r6) ← plus isNumberChar r5;
  Some [Some (consumed line r6); Some g1; Some g2; Some g3].

(** [/^vt\s+([\d|\.|\+|\-|e|E]+)\s+([\d|\.|\+|\-|e|E]+)/] *)
Definition uvPattern (line : string) : option RegExpExecArray :=
  r ← lit "v" line;
  r0 ← lit "t" r;
  '(_, r1) ← plus isWhiteSpace r0;
  '(g1, r2) ← plus isNumberChar r1;
  '(_, r3) ← plus isWhiteSpace r2;
  '(g2, r4) ← plus isNumberChar r3;
  Some [Some (consumed line r4); Some g1; Some g2].

(** [(-?\d+)]: an optional minus and one or more digits. *)
Definition faceIndex (s : string) : option (string * string) :=
  match s with
  | String "-" r => '(ds, r') ← plus isDigit r; Some (String "-" ds, r')
  | _ => plus isDigit s
  end.

(** [(-?\d+)\/(-?\d+)\/(-?\d+)]: the three captures and the remainder. *)
Definition faceTriplet (s : string)
  : option (string * string * string * string) :=
  '(a, r1) ← faceIndex s;
  r2 ← lit "/" r1;
  '(b, r3) ← faceIndex r2;
  r4 ← lit "/" r3;
  '(c, r5) ← faceIndex r4;
  Some (a, b, c, r5).

(** [/^f\s+(-?\d+)\/(-?\d+)\/(-?\d+)\s+(-?\d+)\/(-?\d+)\/(-?\d+)\s+(-?\d+)\/(-?\d+)\/(-?\d+)(?:\s+(-?\d+)\/(-?\d+)\/(-?\d+))?/]:
    three corners and an optional fourth, whose groups are [undefined]
    when it is absent. *)
Definition facePattern (line : string) : option RegExpExecArray :=
  r0 ← lit "f" line;
  '(_, r1) ← plus isWhiteSpace r0;
  '(a1, b1, c1, r2) ← faceTriplet r1;
  '(_, r3) ← plus isWhiteSpace r2;
  '(a2, b2, c2, r4) ← faceTriplet r3;
  '(_, r5) ← plus isWhiteSpace r4;
  '(a3, b3, c3, r6) ← faceTriplet r5;
  let fourth := '(_, r7) ← plus isWhiteSpace r6; faceTriplet r7 in
  match fourth with
  | Some (a4, b4, c4, r8) =>
      Some [Some (consumed line r8);
            Some a1; Some b1; Some c1; Some a2; Some b2; Some c2;
            Some a3; Some b3; Some c3; Some a4; Some b4; Some c4]
  | None =>
      Some [Some (consumed line r6);
            Some a1; Some b1; Some c1; Some a2; Some b2; Some c2;
            Some a3; Some b3; Some c3; None; None; None]
  end.

(** ** Parsed objects *)

Module ParsedObject.
Record t : Type := mk {
  vertices : list jsval;
  normals : list jsval;
  uvs : list jsval;
  name : string;
  material : string
}.
End ParsedObject.

Definition createNewObject : ParsedObject.t :=
  ParsedObject.mk [] [] [] "" "".

(** [parseInt(g)] for a capture group; [parseInt(undefined)] is NaN. *)
Definition parseIntGroup (g : option string) : option Z :=
  match g with
  | Some s => parseInt s
  | None => None
  end.

(** [n - 1] and [n * k] on a number that may be NaN. *)
Definition minus_one (n : option Z) : option Z := (fun z => z - 1)%Z <$> n.
Definition times (k : Z) (n : option Z) : option Z := (fun z => z * k)%Z <$> n.
Definition plus_const (k : Z) (n : option Z) : option Z := (fun z => z + k)%Z <$> n.

(** The first loop of [addFaceVertices]: it runs over the capture groups
    (the array without its entry 0) three at a time and stops at the first
    corner whose leading group is falsy ([undefined] or the empty string). *)
Fixpoint faceIndices (groups : list (option string)) : list (option Z) :=
  match groups with
  | [] => []
  | None :: _ => []
  | Some EmptyString :: _ => []
  | g1 :: g2 :: g3 :: rest =>
      minus_one (parseIntGroup g1) :: minus_one (parseIntGroup g2)
        :: minus_one (parseIntGroup g3) :: faceIndices rest
  | [g1; g2] =>
      [minus_one (parseIntGroup g1); minus_one (parseIntGroup g2);
       minus_one (parseIntGroup None)]
  | [g1] =>
      [minus_one (parseIntGroup g1); minus_one (parseIntGroup None);
       minus_one (parseIntGroup None)]
  end.

(** The second loop of [addFaceVertices]: every corner appends three
    position entries, and two texture and three normal entries when the
    respective pool is not empty.  Nothing checks the indices: a lookup
    outside a pool appends [undefined]. *)
Fixpoint addCorners (object : ParsedObject.t) (indices : list (option Z))
    (vertices normals uvs : list number) : ParsedObject.t :=
  match indices with
  | i0 :: i1 :: i2 :: rest =>
      let vertexIndex := times 3 i0 in
      let uvIndex := times 2 i1 in
      let normalIndex := times 3 i2 in
      let object1 :=
        ParsedObject.mk
          (ParsedObject.vertices object
             ++ [array_get vertices vertexIndex;
                 array_get vertices (plus_const 1 vertexIndex);
                 array_get vertices (plus_const 2 vertexIndex)])
          (if (0 <? length normals)%nat then
             ParsedObject.normals object
               ++ [array_get normals normalIndex;
                   array_get normals (plus_const 1 normalIndex);
                   array_get normals (plus_const 2 normalIndex)]
           else ParsedObject.normals object)
          (if (0 <? length uvs)%nat then
             ParsedObject.uvs object
               ++ [array_get uvs uvIndex;
                   array_get uvs (plus_const 1 uvIndex)]
           else ParsedObject.uvs object)
          (ParsedObject.name object)
          (ParsedObject.material object) in
      addCorners object1 rest vertices normals uvs
  | _ => object
  end.

Definition addFaceVertices (object : ParsedObject.t) (match_ : RegExpExecArray)
    (vertices normals uvs : list number) : ParsedObject.t :=
  let indices := faceIndices (tl match_) in
  addCorners object indices vertices normals uvs.

(** ** The parse loop *)

(** What the loop of [parse] carries from line to line: the finished
    objects, the object being filled, and the three global pools. *)
Record ParseState : Type := mkParseState {
  objects : list ParsedObject.t;
  currentObject : ParsedObject.t;
  pool_vertices : list number;
  pool_normals : list number;
  pool_uvs : list number
}.

Definition initialState : ParseState :=
  mkParseState [] createNewObject [] [] [].

(** [parseFloat(match[i])]. *)
Definition parseFloatGroup (m : RegExpExecArray) (i : nat) : number :=
  match nth i m None with
  | Some s => parseFloat s
  | None => NaN
  end.

Definition setName (o : ParsedObject.t) (n : string) : ParsedObject.t :=
  ParsedObject.mk (ParsedObject.vertices o) (ParsedObject.normals o)
    (ParsedObject.uvs o) n (ParsedObject.material o).

Definition setMaterial (o : ParsedObject.t) (m : string) : ParsedObject.t :=
  ParsedObject.mk (ParsedObject.vertices o) (ParsedObject.normals o)
    (ParsedObject.uvs o) (ParsedObject.name o) m.

(** [objects.push(currentObject)] guarded by
    [currentObject.vertices.length > 0]. *)
Definition flush (st : ParseState) : list ParsedObject.t :=
  if (0 <? length (ParsedObject.vertices (currentObject st)))%nat
  then objects st ++ [currentObject st]
  else objects st.

(** The body of the [for (let line of lines)] loop. *)
Definition parseLine (st : ParseState) (line0 : string) : ParseState :=
  let line := trim line0 in
  if (String.length line =? 0)%nat then st
  else if match line with String "#" _ => true | _ => false end then st
  else
    match vertexPattern line, normalPattern line, uvPattern line,
          facePattern line with
    | Some vertexMatch, _, _, _ =>
        mkParseState (objects st) (currentObject st)
          (pool_vertices st
             ++ [parseFloatGroup vertexMatch 1; parseFloatGroup vertexMatch 2;
                 parseFloatGroup vertexMatch 3])
          (pool_normals st) (pool_uvs st)
    | None, Some normalMatch, _, _ =>
        mkParseState (objects st) (currentObject st) (pool_vertices st)
          (pool_normals st
             ++ [parseFloatGroup normalMatch 1; parseFloatGroup normalMatch 2;
                 parseFloatGroup normalMatch 3])
          (pool_uvs st)
    | None, None, Some uvMatch, _ =>
        mkParseState (objects st) (currentObject st) (pool_vertices st)
          (pool_normals st)
          (pool_uvs st ++ [parseFloatGroup uvMatch 1; parseFloatGroup uvMatch 2])
    | None, None, None, Some faceMatch =>
        mkParseState (objects st)
          (addFaceVertices (currentObject st) faceMatch
             (pool_vertices st) (pool_normals st) (pool_uvs st))
          (pool_vertices st) (pool_normals st) (pool_uvs st)
    | None, None, None, None =>
        if startsWith "o " line then
          mkParseState (flush st)
            (setName createNewObject (trim (substring_from 2 line)))
            (pool_vertices st) (pool_normals st) (pool_uvs st)
        else if startsWith "usemtl " line then
          mkParseState (objects st)
            (setMaterial (currentObject st) (trim (substring_from 7 line)))
            (pool_vertices st) (pool_normals st) (pool_uvs st)
        else st
    end.

(** The loop over the lines, from a given state. *)
Definition parseLines (st : ParseState) (lines : list string) : ParseState :=
  fold_left parseLine lines st.

(** The list [objects] that [parse] hands to [createGroupFromObjects]:
    the loop over all lines, then the final guarded push. *)
Definition parseObjects (text : string) : list ParsedObject.t :=
  flush (parseLines initialState (split_lines text)).

(** ** Meshes *)

(** [new Float32Array(a)]: [undefined] becomes NaN; the rounding of the
    other values to single precision is not modelled. *)
Definition Float32Array (a : list jsval) : list number :=
  map (fun v => match v with Some n => n | None => NaN end) a.

Record BufferAttribute : Type := mkBufferAttribute {
  array : list number;
  itemSize : nat
}.

(** The attributes a geometry may carry, each set only when its source
    array is not empty. *)
Record BufferGeometry : Type := mkBufferGeometry {
  position : option BufferAttribute;
  normal : option BufferAttribute;
  uv : option BufferAttribute
}.

Record Mesh : Type := mkMesh {
  geometry : BufferGeometry;
  material_name : string;
  mesh_name : string
}.

Definition attributeOf (a : list jsval) (size : nat) : option BufferAttribute :=
  if (0 <? length a)%nat then Some (mkBufferAttribute (Float32Array a) size)
  else None.

Definition meshOfObject (object : ParsedObject.t) : Mesh :=
  mkMesh
    (mkBufferGeometry
       (attributeOf (ParsedObject.vertices object) 3)
       (attributeOf (ParsedObject.normals object) 3)
       (attributeOf (ParsedObject.uvs object) 2))
    (ParsedObject.material object)
    (ParsedObject.name object).

(** A [Group] is the list of its children in the order they were added. *)
Definition createGroupFromObjects (objects : list ParsedObject.t) : list Mesh :=
  map meshOfObject objects.

Definition parse (text : string) : list Mesh :=
  createGroupFromObjects (parseObjects text).

(** ** Notions used to state the properties of the parser *)

(** ** The loop, line by line *)

(** What the loop does with a line, read off [parseLine]: the line is
    skipped, feeds a pool, adds a face to the current object, opens a new
    object, or names a material. *)
Inductive LineKind : Type :=
| Skipped
| PoolLine
| FaceLine (faceMatch : RegExpExecArray)
| ObjectLine (name : string)
| MaterialLine (material : string).

Definition lineKind (line0 : string) : LineKind :=
  let line := trim line0 in
  if (String.length line =? 0)%nat then Skipped
  else if match line with String "#" _ => true | _ => false end then Skipped
  else
    match vertexPattern line, normalPattern line, uvPattern line,
          facePattern line with
    | Some _, _, _, _ => PoolLine
    | None, Some _, _, _ => PoolLine
    | None, None, Some _, _ => PoolLine
    | None, None, None, Some faceMatch => FaceLine faceMatch
    | None, None, None, None =>
        if startsWith "o " line then ObjectLine (trim (substring_from 2 line))
        else if startsWith "usemtl " line
        then MaterialLine (trim (substring_from 7 line))
        else Skipped
    end.


(** The entries one face adds to the three arrays of an object. *)
Fixpoint cornerVertices (indices : list (option Z)) (vertices : list number)
  : list jsval :=
  match indices with
  | i0 :: _ :: _ :: rest =>
      [array_get vertices (times 3 i0);
       array_get vertices (plus_const 1 (times 3 i0));
       array_get vertices (plus_const 2 (times 3 i0))]
        ++ cornerVertices rest vertices
  | _ => []
  end.

Fixpoint cornerNormals (indices : list (option Z)) (normals : list number)
  : list jsval :=
  match indices with
  | _ :: _ :: i2 :: rest =>
      (if (0 <? length normals)%nat then
         [array_get normals (times 3 i2);
          array_get normals (plus_const 1 (times 3 i2));
          array_get normals (plus_const 2 (times 3 i2))]
       else [])
        ++ cornerNormals rest normals
  | _ => []
  end.

Fixpoint cornerUvs (indices : list (option Z)) (uvs : list number)
  : list jsval :=
  match indices with
  | _ :: i1 :: _ :: rest =>
      (if (0 <? length uvs)%nat then
         [array_get uvs (times 2 i1);
          array_get uvs (plus_const 1 (times 2 i1))]
       else [])
        ++ cornerUvs rest uvs
  | _ => []
  end.


(** Every finished object has at least one position entry. *)
Definition allPopulated (os : list ParsedObject.t) : Prop :=
  Forall (fun o => ParsedObject.vertices o <> []) os.


(** The number of corners in a list of face indices. *)
Fixpoint cornerCount (indices : list (option Z)) : nat :=
  match indices with
  | _ :: _ :: _ :: rest => S (cornerCount rest)
  | _ => O
  end.

(** An object whose arrays hold whole corners: three position entries
    per corner, and no more normal or texture corners than positions. *)
Definition wholeCorners (o : ParsedObject.t) : Prop :=
  exists k kn ku : nat,
    length (ParsedObject.vertices o) = (3 * k)%nat
    /\ length (ParsedObject.normals o) = (3 * kn)%nat
    /\ length (ParsedObject.uvs o) = (2 * ku)%nat
    /\ (kn <= k)%nat /\ (ku <= k)%nat.

(** The number of entries of an attribute, 0 when it is not set. *)
Definition attributeLength (a : option BufferAttribute) : nat :=
  match a with
  | Some x => length (array x)
  | None => O
  end.

(** A line feed, and a carriage return. *)
Definition LF : string := String "010" EmptyString.
Definition CR : string := String "013" EmptyString.

(** What every state of the loop satisfies. *)
Definition wellFormed (st : ParseState) : Prop :=
  wholeCorners (currentObject st)
  /\ Forall wholeCorners (objects st)
  /\ (exists n, length (pool_vertices st) = (3 * n)%nat)
  /\ (exists n, length (pool_normals st) = (3 * n)%nat)
  /\ (exists n, length (pool_uvs st) = (2 * n)%nat).

(** A piece of text without a line feed. *)
Fixpoint singleLine (s : string) : bool :=
  match s with
  | EmptyString => true
  | String c r => negb (c =? "010")%char && singleLine r
  end.

(** A string of one or more decimal digits. *)
Fixpoint allDigits (s : string) : bool :=
  match s with
  | EmptyString => true
  | String c r => isDigit c && allDigits r
  end.

Definition digits (s : string) : bool :=
  match s with
  | EmptyString => false
  | String _ _ => allDigits s
  end.

(** The same text with the line ends of Windows: a carriage return before
    every line feed. *)
Fixpoint withCarriageReturns (text : string) : string :=
  match text with
  | EmptyString => EmptyString
  | String c r =>
      if (c =? "010")%char
      then String "013" (String "010" (withCarriageReturns r))
      else String c (withCarriageReturns r)
  end.


End OBJLoader.

(* ------------------------------------------------------------------ *)
(** * Part II.  The geometric primitives the controller consumes       *)
(* ------------------------------------------------------------------ *)

(** The vector, quaternion and spherical-coordinate operations of the
    rendering library that [OrbitControls] calls, over the reals. *)

Module Three.

Local Open Scope R_scope.

(** [Number.EPSILON], two to the power -52. *)
Definition Number_EPSILON : R := / 2 ^ 52.

(** [a === b], [a > b] and [a < b] on numbers, as booleans. *)
Definition Reqb (a b : R) : bool := if Req_dec_T a b then true else false.
Definition Rgtb (a b : R) : bool := if Rgt_dec a b then true else false.
Definition Rltb (a b : R) : bool := if Rlt_dec a b then true else false.

(** [Math.atan2(y, x)], the angle of the point [(x, y)], in [(-PI, PI]];
    zero at the origin. *)
Definition Math_atan2 (y x : R) : R :=
  if Rlt_dec 0 x then atan (y / x)
  else if Rlt_dec x 0 then
    (if Rle_dec 0 y then atan (y / x) + PI else atan (y / x) - PI)
  else if Rlt_dec 0 y then PI / 2
  else if Rlt_dec y 0 then - (PI / 2)
  else 0.

(** [Math.pow(x, y)] for a base [x > 0], and for [x = 0] with [y >= 0]; the
    other cases (infinite or NaN in JavaScript) are outside the model. *)
Definition Math_pow (x y : R) : R :=
  if Rlt_dec 0 x then Rpower x y
  else if Req_dec_T y 0 then 1
  else 0.

(** [MathUtils.clamp(value, min, max)]. *)
Definition clamp (value min max : R) : R := Rmax min (Rmin max value).

Module Vector2.
Record t : Type := mk { x : R; y : R }.
Definition new : t := mk 0 0.
Definition subVectors (a b : t) : t := mk (x a - x b) (y a - y b).
Definition multiplyScalar (v : t) (s : R) : t := mk (x v * s) (y v * s).
End Vector2.

Module Quaternion.
Record t : Type := mk { x : R; y : R; z : R; w : R }.
(** [new Quaternion()] is the identity rotation. *)
Definition new : t := mk 0 0 0 1.
Definition length (q : t) : R :=
  sqrt (x q * x q + y q * y q + z q * z q + w q * w q).
Definition normalize (q : t) : t :=
  let l := length q in
  if Req_dec_T l 0 then mk 0 0 0 1
  else let l := 1 / l in mk (x q * l) (y q * l) (z q * l) (w q * l).
(** [invert] is the conjugate: the quaternion is taken to be of unit
    length. *)
Definition invert (q : t) : t := mk (x q * -1) (y q * -1) (z q * -1) (w q).
Definition dot (a b : t) : R :=
  x a * x b + y a * y b + z a * z b + w a * w b.
End Quaternion.

Module Spherical.
Record t : Type := mk { radius : R; phi : R; theta : R }.
(** [new Spherical()] has radius 1 and both angles 0. *)
Definition new : t := mk 1 0 0.
(** [makeSafe]: [phi] is kept [EPS = 0.000001] away from both poles. *)
Definition makeSafe (s : t) : t :=
  let EPS := 0.000001 in
  mk (radius s) (Rmax EPS (Rmin (PI - EPS) (phi s))) (theta s).
(** [setFromCartesianCoords(x, y, z)]. *)
Definition setFromCartesianCoords (x y z : R) : t :=
  let radius := sqrt (x * x + y * y + z * z) in
  if Req_dec_T radius 0 then mk radius 0 0
  else mk radius (acos (clamp (y / radius) (-1) 1)) (Math_atan2 x z).
End Spherical.

Module Vector3.
Record t : Type := mk { x : R; y : R; z : R }.
Definition new : t := mk 0 0 0.
Definition add (a b : t) : t := mk (x a + x b) (y a + y b) (z a + z b).
Definition sub (a b : t) : t := mk (x a - x b) (y a - y b) (z a - z b).
Definition multiplyScalar (v : t) (s : R) : t :=
  mk (x v * s) (y v * s) (z v * s).
Definition addScaledVector (a v : t) (s : R) : t :=
  mk (x a + x v * s) (y a + y v * s) (z a + z v * s).
Definition dot (a b : t) : R := x a * x b + y a * y b + z a * z b.
Definition length (v : t) : R := sqrt (x v * x v + y v * y v + z v * z v).
Definition distanceToSquared (a v : t) : R :=
  let dx := x a - x v in
  let dy := y a - y v in
  let dz := z a - z v in
  dx * dx + dy * dy + dz * dz.
Definition crossVectors (a b : t) : t :=
  mk (y a * z b - z a * y b) (z a * x b - x a * z b) (x a * y b - y a * x b).
(** [applyQuaternion(q)], for [q] of unit length. *)
Definition applyQuaternion (v : t) (q : Quaternion.t) : t :=
  let vx := x v in let vy := y v in let vz := z v in
  let qx := Quaternion.x q in let qy := Quaternion.y q in
  let qz := Quaternion.z q in let qw := Quaternion.w q in
  let tx := 2 * (qy * vz - qz * vy) in
  let ty := 2 * (qz * vx - qx * vz) in
  let tz := 2 * (qx * vy - qy * vx) in
  mk (vx + qw * tx + qy * tz - qz * ty)
     (vy + qw * ty + qz * tx - qx * tz)
     (vz + qw * tz + qx * ty - qy * tx).
(** [setFromSpherical(s)]. *)
Definition setFromSpherical (s : Spherical.t) : t :=
  let sinPhiRadius := sin (Spherical.phi s) * Spherical.radius s in
  mk (sinPhiRadius * sin (Spherical.theta s))
     (cos (Spherical.phi s) * Spherical.radius s)
     (sinPhiRadius * cos (Spherical.theta s)).
End Vector3.

(** [spherical.setFromVector3(v)]. *)
Definition Spherical_setFromVector3 (v : Vector3.t) : Spherical.t :=
  Spherical.setFromCartesianCoords (Vector3.x v) (Vector3.y v) (Vector3.z v).

(** [quaternion.setFromUnitVectors(vFrom, vTo)]: the rotation taking the
    unit vector [vFrom] to the unit vector [vTo]. *)
Definition Quaternion_setFromUnitVectors (vFrom vTo : Vector3.t)
  : Quaternion.t :=
  let r := Vector3.dot vFrom vTo + 1 in
  Quaternion.normalize
    (if Rlt_dec r Number_EPSILON then
       if Rgt_dec (Rabs (Vector3.x vFrom)) (Rabs (Vector3.z vFrom)) then
         Quaternion.mk (- Vector3.y vFrom) (Vector3.x vFrom) 0 0
       else
         Quaternion.mk 0 (- Vector3.z vFrom) (Vector3.y vFrom) 0
     else
       Quaternion.mk
         (Vector3.y vFrom * Vector3.z vTo - Vector3.z vFrom * Vector3.y vTo)
         (Vector3.z vFrom * Vector3.x vTo - Vector3.x vFrom * Vector3.z vTo)
         (Vector3.x vFrom * Vector3.y vTo - Vector3.y vFrom * Vector3.x vTo)
         r).

(** The upper three rows of a 4x4 matrix, by columns; the controller only
    reads columns 0 and 1 of the camera's local matrix. *)
Module Matrix4.
Record t : Type := mk {
  column0 : Vector3.t; column1 : Vector3.t;
  column2 : Vector3.t; column3 : Vector3.t
}.
End Matrix4.

(** [v.setFromMatrixColumn(m, index)]. *)
Definition Vector3_setFromMatrixColumn (m : Matrix4.t) (index : nat)
  : Vector3.t :=
  match index with
  | 0%nat => Matrix4.column0 m
  | 1%nat => Matrix4.column1 m
  | 2%nat => Matrix4.column2 m
  | _ => Matrix4.column3 m
  end.

(** The two kinds of camera the controller knows, and any other object. *)
Inductive CameraKind : Type :=
| PerspectiveCamera (fov : R)
| OrthographicCamera (left right top bottom : R)
| OtherCamera.

Module Camera.
Record t : Type := mk {
  kind : CameraKind;
  position : Vector3.t;
  up : Vector3.t;
  zoom : R;
  quaternion : Quaternion.t;
  matrix : Matrix4.t
}.
Definition set_position (p : Vector3.t) (c : t) : t :=
  mk (kind c) p (up c) (zoom c) (quaternion c) (matrix c).
Definition set_zoom (z : R) (c : t) : t :=
  mk (kind c) (position c) (up c) z (quaternion c) (matrix c).
End Camera.

End Three.

(* ------------------------------------------------------------------ *)
(** * Part III.  The viewer applications (AcupunctureApp)              *)
(* ------------------------------------------------------------------ *)

(** The arithmetic of the two application classes that use the
    controller and the parser: where the marker of a highlighted point is
    put, how the target of the controller is moved to it, and where a
    loaded model is placed.  The scene, the renderer and the page around
    them are not part of the model. *)

Module App.

Import Three.
Local Open Scope R_scope.

(** ** The highlight of a point *)

(** [pointId.charCodeAt(index)] for an id of Latin-1 characters; [None]
    is the NaN an index past the end gives. *)
Definition charCodeAt (pointId : string) (index : nat) : option Z :=
  (fun c => Z.of_nat (nat_of_ascii c)) <$> String.get index pointId.

(** [(code % 10) * 0.2 - 1]; NaN stays NaN. *)
Definition coordinate (code : option Z) : option R :=
  (fun k => IZR (Z.rem k 10) * 0.2 - 1) <$> code.

(** The position [highlightPoint] computes for the marker; [None] when
    one of its coordinates is NaN. *)
Definition highlightPosition (pointId : string) : option Vector3.t :=
  match coordinate (charCodeAt pointId 0), coordinate (charCodeAt pointId 1),
        coordinate (charCodeAt pointId 2) with
  | Some x, Some y, Some z => Some (Vector3.mk x y z)
  | _, _, _ => None
  end.

(** ** The animation of the target *)

(** [new Vector3().lerpVectors(v1, v2, alpha)]. *)
Definition Vector3_lerpVectors (v1 v2 : Vector3.t) (alpha : R) : Vector3.t :=
  Vector3.mk
    (Vector3.x v1 + (Vector3.x v2 - Vector3.x v1) * alpha)
    (Vector3.y v1 + (Vector3.y v2 - Vector3.y v1) * alpha)
    (Vector3.z v1 + (Vector3.z v2 - Vector3.z v1) * alpha).

Definition duration : R := 1000.

(** One run of the closure [animate] of [animateCameraToPosition],
    [elapsed] milliseconds after the start: the position copied into
    [controls.target], and whether another frame is requested. *)
Definition animate (startPosition endPosition : Vector3.t) (elapsed : R)
  : Vector3.t * bool :=
  let progress := Rmin (elapsed / duration) 1 in
  let easeProgress := 1 - Math_pow (1 - progress) 3 in
  let currentPosition :=
    Vector3_lerpVectors startPosition endPosition easeProgress in
  (currentPosition, Rltb progress 1).

(** [animateCameraToPosition(position)] on a controller whose target is
    [target], through the frames the browser grants: [frames] are the
    elapsed times of the successive runs of [animate], the first being
    the call the method makes itself.  The result is the target
    afterwards and whether a frame is still requested. *)
Fixpoint runFrames (startPosition endPosition : Vector3.t) (frames : list R)
    (target : Vector3.t) : Vector3.t * bool :=
  match frames with
  | [] => (target, true)
  | elapsed :: rest =>
      let (currentPosition, again) :=
        animate startPosition endPosition elapsed in
      if again then runFrames startPosition endPosition rest currentPosition
      else (currentPosition, false)
  end.

Definition animateCameraToPosition (target position : Vector3.t)
    (frames : list R) : Vector3.t * bool :=
  let startPosition := target in
  let endPosition := position in
  runFrames startPosition endPosition frames target.

(** ** Centring a loaded model *)

(** A coordinate as JavaScript has it: a real number, an infinity, or
    NaN. *)
Inductive number : Type :=
| Num (r : R)
| PosInfinity
| NegInfinity
| NaN.

(** [Math.min(a, b)] and [Math.max(a, b)]. *)
Definition Math_min (a b : number) : number :=
  match a, b with
  | NaN, _ | _, NaN => NaN
  | NegInfinity, _ | _, NegInfinity => NegInfinity
  | PosInfinity, n | n, PosInfinity => n
  | Num p, Num q => Num (Rmin p q)
  end.

Definition Math_max (a b : number) : number :=
  match a, b with
  | NaN, _ | _, NaN => NaN
  | PosInfinity, _ | _, PosInfinity => PosInfinity
  | NegInfinity, n | n, NegInfinity => n
  | Num p, Num q => Num (Rmax p q)
  end.

(** [(a + b) / 2]. *)
Definition midpoint (a b : number) : number :=
  match a, b with
  | NaN, _ | _, NaN => NaN
  | PosInfinity, NegInfinity | NegInfinity, PosInfinity => NaN
  | PosInfinity, _ | _, PosInfinity => PosInfinity
  | NegInfinity, _ | _, NegInfinity => NegInfinity
  | Num p, Num q => Num ((p + q) / 2)
  end.

(** [-a]. *)
Definition negate (a : number) : number :=
  match a with
  | Num p => Num (- p)
  | PosInfinity => NegInfinity
  | NegInfinity => PosInfinity
  | NaN => NaN
  end.

(** An object with the fields [x], [y] and [z]. *)
Record Point : Type := mkPoint { px : number; py : number; pz : number }.

(** A box with the fields [min] and [max]. *)
Record Box : Type := mkBox { box_min : Point; box_max : Point }.

(** A child of the model: a mesh, with the bounding box that
    [computeBoundingBox] gives its geometry, or an object of another
    kind. *)
Inductive Child : Type :=
| MeshChild (boundingBox : Box)
| OtherChild.

Record Group : Type := mkGroup { position : Point; children : list Child }.

(** [children.filter(child => child instanceof Mesh)], by their boxes. *)
Definition meshes (children : list Child) : list Box :=
  flat_map (fun child =>
              match child with
              | MeshChild box => [box]
              | OtherChild => []
              end) children.

(** The body of the [forEach] of [centerModel]. *)
Definition expand (bounds box : Box) : Box :=
  mkBox
    (mkPoint (Math_min (px (box_min bounds)) (px (box_min box)))
             (Math_min (py (box_min bounds)) (py (box_min box)))
             (Math_min (pz (box_min bounds)) (pz (box_min box))))
    (mkPoint (Math_max (px (box_max bounds)) (px (box_max box)))
             (Math_max (py (box_max bounds)) (py (box_max box)))
             (Math_max (pz (box_max bounds)) (pz (box_max box)))).

(** [centerModel()] as a function of [this.model]; [None] is [null]. *)
Definition centerModel (model : option Group) : option Group :=
  match model with
  | None => None
  | Some model =>
      let model := mkGroup (mkPoint (Num 0) (Num 0) (Num 0)) (children model) in
      let meshes := meshes (children model) in
      if (length meshes =? 0)%nat then Some model
      else
        let bounds :=
          fold_left expand meshes
            (mkBox (mkPoint PosInfinity PosInfinity PosInfinity)
                   (mkPoint NegInfinity NegInfinity NegInfinity)) in
        let center :=
          mkPoint (midpoint (px (box_min bounds)) (px (box_max bounds)))
                  (midpoint (py (box_min bounds)) (py (box_max bounds)))
                  (midpoint (pz (box_min bounds)) (pz (box_max bounds))) in
        Some (mkGroup
                (mkPoint (negate (px center)) (negate (py center))
                         (negate (pz center)))
                (children model))
  end.

(** *** Notions used to state the properties *)

(** A point and a box whose coordinates are real numbers. *)
Definition realPoint (v : Vector3.t) : Point :=
  mkPoint (Num (Vector3.x v)) (Num (Vector3.y v)) (Num (Vector3.z v)).

Definition realBox (b : Vector3.t * Vector3.t) : Box :=
  mkBox (realPoint (fst b)) (realPoint (snd b)).

(** The three axes. *)
Definition axes : list (Vector3.t -> R) := [Vector3.x; Vector3.y; Vector3.z].

(** A coordinate between two others, in either order. *)
Definition between (a b x : R) : Prop := Rmin a b <= x <= Rmax a b.

(** The smallest box around a box and a list of boxes. *)
Definition hull (b : Vector3.t * Vector3.t) (bs : list (Vector3.t * Vector3.t))
  : Vector3.t * Vector3.t :=
  fold_left
    (fun acc b =>
       (Vector3.mk (Rmin (Vector3.x (fst acc)) (Vector3.x (fst b)))
                   (Rmin (Vector3.y (fst acc)) (Vector3.y (fst b)))
                   (Rmin (Vector3.z (fst acc)) (Vector3.z (fst b))),
        Vector3.mk (Rmax (Vector3.x (snd acc)) (Vector3.x (snd b)))
                   (Rmax (Vector3.y (snd acc)) (Vector3.y (snd b)))
                   (Rmax (Vector3.z (snd acc)) (Vector3.z (snd b)))))
    bs b.

(** A model to evaluate on: two meshes and a child of another kind. *)
Definition sampleBoxes : list (Vector3.t * Vector3.t) :=
  [(Vector3.mk 0 0 0, Vector3.mk 2 4 6);
   (Vector3.mk (-2) 1 1, Vector3.mk 1 2 3)].

Definition sampleModel : Group :=
  mkGroup (mkPoint (Num 7) (Num 7) (Num 7))
    [MeshChild (realBox (Vector3.mk 0 0 0, Vector3.mk 2 4 6)); OtherChild;
     MeshChild (realBox (Vector3.mk (-2) 1 1, Vector3.mk 1 2 3))].

End App.

(* ------------------------------------------------------------------ *)
(** * Part IV.  The orbit camera controller (OrbitControls)            *)
(* ------------------------------------------------------------------ *)

Module Controls.

Import Three.
Local Open Scope R_scope.

(** ** Data *)

(** A limit whose default is [Infinity] (no upper bound), and one whose
    default is [-Infinity] (no lower bound). *)
Inductive UpperLimit : Type := Upper (r : R) | Infinity.
Inductive LowerLimit : Type := Lower (r : R) | NegInfinity.

(** [Math.min(max, x)] for an upper limit. *)
Definition min_upper (max : UpperLimit) (x : R) : R :=
  match max with
  | Upper m => Rmin m x
  | Infinity => x
  end.

(** [min <= max] between a number and an upper limit. *)
Definition le_upper (min : R) (max : UpperLimit) : Prop :=
  match max with
  | Upper m => min <= m
  | Infinity => True
  end.

(** The constants [MOUSE.ROTATE], [MOUSE.DOLLY] and [MOUSE.PAN]. *)
Definition MOUSE_ROTATE : Z := 0.
Definition MOUSE_DOLLY : Z := 1.
Definition MOUSE_PAN : Z := 2.

Record MouseButtons : Type := mkMouseButtons {
  LEFT : Z; MIDDLE : Z; RIGHT : Z
}.

(** The private table [STATE]. *)
Inductive STATE : Type :=
| NONE | ROTATE | DOLLY | PAN
| TOUCH_ROTATE | TOUCH_PAN | TOUCH_DOLLY_PAN | TOUCH_DOLLY_ROTATE.

Definition STATE_eqb (a b : STATE) : bool :=
  match a, b with
  | NONE, NONE | ROTATE, ROTATE | DOLLY, DOLLY | PAN, PAN
  | TOUCH_ROTATE, TOUCH_ROTATE | TOUCH_PAN, TOUCH_PAN
  | TOUCH_DOLLY_PAN, TOUCH_DOLLY_PAN
  | TOUCH_DOLLY_ROTATE, TOUCH_DOLLY_ROTATE => true
  | _, _ => false
  end.

(** The three notifications the controller dispatches. *)
Inductive EventType : Type := start | change | end_.

Module PointerEvent.
Record t : Type := mk {
  pointerId : Z;
  pointerType : string;
  button : Z;
  ctrlKey : bool; metaKey : bool; shiftKey : bool;
  clientX : R; clientY : R;
  pageX : R; pageY : R
}.
End PointerEvent.

Record WheelEvent : Type := mkWheelEvent { deltaY : R }.

(** The element the controller listens on: its size, the pointers it
    captures, and the event types the controller has a listener for. *)
Module Element.
Record t : Type := mk {
  clientWidth : R;
  clientHeight : R;
  captured : gset Z;
  listeners : gset string
}.
Definition setPointerCapture (id : Z) (e : t) : t :=
  mk (clientWidth e) (clientHeight e) ({[ id ]} ∪ captured e) (listeners e).
Definition releasePointerCapture (id : Z) (e : t) : t :=
  mk (clientWidth e) (clientHeight e) (captured e ∖ {[ id ]}) (listeners e).
Definition addEventListener (type : string) (e : t) : t :=
  mk (clientWidth e) (clientHeight e) (captured e) ({[ type ]} ∪ listeners e).
Definition removeEventListener (type : string) (e : t) : t :=
  mk (clientWidth e) (clientHeight e) (captured e) (listeners e ∖ {[ type ]}).
End Element.

(** The controller.  The scratch vectors [rotateEnd], [rotateDelta],
    [panEnd], [panDelta], [dollyEnd] and [dollyDelta] are written before
    they are read in every handler and appear below as local values; the
    tables [keys] and [touches] and [keyPanSpeed] are never read.
    [dispatched] records the notifications sent, oldest first. *)
Record OrbitControls : Type := mkOrbitControls {
  object : Camera.t;
  domElement : Element.t;
  enabled : bool;
  target : Vector3.t;
  minDistance : R;
  maxDistance : UpperLimit;
  minZoom : R;
  maxZoom : UpperLimit;
  minPolarAngle : R;
  maxPolarAngle : R;
  minAzimuthAngle : LowerLimit;
  maxAzimuthAngle : UpperLimit;
  enableDamping : bool;
  dampingFactor : R;
  enableZoom : bool;
  zoomSpeed : R;
  enableRotate : bool;
  rotateSpeed : R;
  enablePan : bool;
  panSpeed : R;
  screenSpacePanning : bool;
  autoRotate : bool;
  autoRotateSpeed : R;
  mouseButtons : MouseButtons;
  spherical : Spherical.t;
  sphericalDelta : Spherical.t;
  scale : R;
  panOffset : Vector3.t;
  zoomChanged : bool;
  rotateStart : Vector2.t;
  panStart : Vector2.t;
  dollyStart : Vector2.t;
  pointers : list PointerEvent.t;
  pointerPositions : gmap Z Vector2.t;
  state : STATE;
  lastPosition : Vector3.t;
  lastQuaternion : Quaternion.t;
  target0 : Vector3.t;
  position0 : Vector3.t;
  zoom0 : R;
  dispatched : list EventType
}.

(** Field assignments: [set_f v c] is [c] after [this.f = v]. *)

Definition set_object (v : Camera.t) (c : OrbitControls) : OrbitControls :=
  mkOrbitControls v (domElement c) (enabled c) (target c) (minDistance c)
  (maxDistance c) (minZoom c) (maxZoom c) (minPolarAngle c) (maxPolarAngle c)
  (minAzimuthAngle c) (maxAzimuthAngle c) (enableDamping c) (dampingFactor c)
  (enableZoom c) (zoomSpeed c) (enableRotate c) (rotateSpeed c) (enablePan c)
  (panSpeed c) (screenSpacePanning c) (autoRotate c) (autoRotateSpeed c)
  (mouseButtons c) (spherical c) (sphericalDelta c) (scale c) (panOffset c)
  (zoomChanged c) (rotateStart c) (panStart c) (dollyStart c) (pointers c)
  (pointerPositions c) (state c) (lastPosition c) (lastQuaternion c)
  (target0 c) (position0 c) (zoom0 c) (dispatched c).

Definition set_domElement (v : Element.t) (c : OrbitControls) : OrbitControls :=
  mkOrbitControls (object c) v (enabled c) (target c) (minDistance c)
  (maxDistance c) (minZoom c) (maxZoom c) (minPolarAngle c) (maxPolarAngle c)
  (minAzimuthAngle c) (maxAzimuthAngle c) (enableDamping c) (dampingFactor c)
  (enableZoom c) (zoomSpeed c) (enableRotate c) (rotateSpeed c) (enablePan c)
  (panSpeed c) (screenSpacePanning c) (autoRotate c) (autoRotateSpeed c)
  (mouseButtons c) (spherical c) (sphericalDelta c) (scale c) (panOffset c)
  (zoomChanged c) (rotateStart c) (panStart c) (dollyStart c) (pointers c)
  (pointerPositions c) (state c) (lastPosition c) (lastQuaternion c)
  (target0 c) (position0 c) (zoom0 c) (dispatched c).

Definition set_target (v : Vector3.t) (c : OrbitControls) : OrbitControls :=
  mkOrbitControls (object c) (domElement c) (enabled c) v (minDistance c)
  (maxDistance c) (minZoom c) (maxZoom c) (minPolarAngle c) (maxPolarAngle c)
  (minAzimuthAngle c) (maxAzimuthAngle c) (enableDamping c) (dampingFactor c)
  (enableZoom c) (zoomSpeed c) (enableRotate c) (rotateSpeed c) (enablePan c)
  (panSpeed c) (screenSpacePanning c) (autoRotate c) (autoRotateSpeed c)
  (mouseButtons c) (spherical c) (sphericalDelta c) (scale c) (panOffset c)
  (zoomChanged c) (rotateStart c) (panStart c) (dollyStart c) (pointers c)
  (pointerPositions c) (state c) (lastPosition c) (lastQuaternion c)
  (target0 c) (position0 c) (zoom0 c) (dispatched c).

Definition set_enableZoom (v : bool) (c : OrbitControls) : OrbitControls :=
  mkOrbitControls (object c) (domElement c) (enabled c) (target c)
  (minDistance c) (maxDistance c) (minZoom c) (maxZoom c) (minPolarAngle c)
  (maxPolarAngle c) (minAzimuthAngle c) (maxAzimuthAngle c) (enableDamping c)
  (dampingFactor c) v (zoomSpeed c) (enableRotate c) (rotateSpeed c)
  (enablePan c) (panSpeed c) (screenSpacePanning c) (autoRotate c)
  (autoRotateSpeed c) (mouseButtons c) (spherical c) (sphericalDelta c)
  (scale c) (panOffset c) (zoomChanged c) (rotateStart c) (panStart c)
  (dollyStart c) (pointers c) (pointerPositions c) (state c) (lastPosition c)
  (lastQuaternion c) (target0 c) (position0 c) (zoom0 c) (dispatched c).

Definition set_enablePan (v : bool) (c : OrbitControls) : OrbitControls :=
  mkOrbitControls (object c) (domElement c) (enabled c) (target c)
  (minDistance c) (maxDistance c) (minZoom c) (maxZoom c) (minPolarAngle c)
  (maxPolarAngle c) (minAzimuthAngle c) (maxAzimuthAngle c) (enableDamping c)
  (dampingFactor c) (enableZoom c) (zoomSpeed c) (enableRotate c)
  (rotateSpeed c) v (panSpeed c) (screenSpacePanning c) (autoRotate c)
  (autoRotateSpeed c) (mouseButtons c) (spherical c) (sphericalDelta c)
  (scale c) (panOffset c) (zoomChanged c) (rotateStart c) (panStart c)
  (dollyStart c) (pointers c) (pointerPositions c) (state c) (lastPosition c)
  (lastQuaternion c) (target0 c) (position0 c) (zoom0 c) (dispatched c).

Definition set_spherical (v : Spherical.t) (c : OrbitControls) : OrbitControls :=
  mkOrbitControls (object c) (domElement c) (enabled c) (target c)
  (minDistance c) (maxDistance c) (minZoom c) (maxZoom c) (minPolarAngle c)
  (maxPolarAngle c) (minAzimuthAngle c) (maxAzimuthAngle c) (enableDamping c)
  (dampingFactor c) (enableZoom c) (zoomSpeed c) (enableRotate c)
  (rotateSpeed c) (enablePan c) (panSpeed c) (screenSpacePanning c)
  (autoRotate c) (autoRotateSpeed c) (mouseButtons c) v (sphericalDelta c)
  (scale c) (panOffset c) (zoomChanged c) (rotateStart c) (panStart c)
  (dollyStart c) (pointers c) (pointerPositions c) (state c) (lastPosition c)
  (lastQuaternion c) (target0 c) (position0 c) (zoom0 c) (dispatched c).

Definition set_sphericalDelta (v : Spherical.t) (c : OrbitControls) : OrbitControls :=
  mkOrbitControls (object c) (domElement c) (enabled c) (target c)
  (minDistance c) (maxDistance c) (minZoom c) (maxZoom c) (minPolarAngle c)
  (maxPolarAngle c) (minAzimuthAngle c) (maxAzimuthAngle c) (enableDamping c)
  (dampingFactor c) (enableZoom c) (zoomSpeed c) (enableRotate c)
  (rotateSpeed c) (enablePan c) (panSpeed c) (screenSpacePanning c)
  (autoRotate c) (autoRotateSpeed c) (mouseButtons c) (spherical c) v
  (scale c) (panOffset c) (zoomChanged c) (rotateStart c) (panStart c)
  (dollyStart c) (pointers c) (pointerPositions c) (state c) (lastPosition c)
  (lastQuaternion c) (target0 c) (position0 c) (zoom0 c) (dispatched c).

Definition set_scale (v : R) (c : OrbitControls) : OrbitControls :=
  mkOrbitControls (object c) (domElement c) (enabled c) (target c)
  (minDistance c) (maxDistance c) (minZoom c) (maxZoom c) (minPolarAngle c)
  (maxPolarAngle c) (minAzimuthAngle c) (maxAzimuthAngle c) (enableDamping c)
  (dampingFactor c) (enableZoom c) (zoomSpeed c) (enableRotate c)
  (rotateSpeed c) (enablePan c) (panSpeed c) (screenSpacePanning c)
  (autoRotate c) (autoRotateSpeed c) (mouseButtons c) (spherical c)
  (sphericalDelta c) v (panOffset c) (zoomChanged c) (rotateStart c)
  (panStart c) (dollyStart c) (pointers c) (pointerPositions c) (state c)
  (lastPosition c) (lastQuaternion c) (target0 c) (position0 c) (zoom0 c)
  (dispatched c).

Definition set_panOffset (v : Vector3.t) (c : OrbitControls) : OrbitControls :=
  mkOrbitControls (object c) (domElement c) (enabled c) (target c)
  (minDistance c) (maxDistance c) (minZoom c) (maxZoom c) (minPolarAngle c)
  (maxPolarAngle c) (minAzimuthAngle c) (maxAzimuthAngle c) (enableDamping c)
  (dampingFactor c) (enableZoom c) (zoomSpeed c) (enableRotate c)
  (rotateSpeed c) (enablePan c) (panSpeed c) (screenSpacePanning c)
  (autoRotate c) (autoRotateSpeed c) (mouseButtons c) (spherical c)
  (sphericalDelta c) (scale c) v (zoomChanged c) (rotateStart c) (panStart c)
  (dollyStart c) (pointers c) (pointerPositions c) (state c) (lastPosition c)
  (lastQuaternion c) (target0 c) (position0 c) (zoom0 c) (dispatched c).

Definition set_zoomChanged (v : bool) (c : OrbitControls) : OrbitControls :=
  mkOrbitControls (object c) (domElement c) (enabled c) (target c)
  (minDistance c) (maxDistance c) (minZoom c) (maxZoom c) (minPolarAngle c)
  (maxPolarAngle c) (minAzimuthAngle c) (maxAzimuthAngle c) (enableDamping c)
  (dampingFactor c) (enableZoom c) (zoomSpeed c) (enableRotate c)
  (rotateSpeed c) (enablePan c) (panSpeed c) (screenSpacePanning c)
  (autoRotate c) (autoRotateSpeed c) (mouseButtons c) (spherical c)
  (sphericalDelta c) (scale c) (panOffset c) v (rotateStart c) (panStart c)
  (dollyStart c) (pointers c) (pointerPositions c) (state c) (lastPosition c)
  (lastQuaternion c) (target0 c) (position0 c) (zoom0 c) (dispatched c).

Definition set_rotateStart (v : Vector2.t) (c : OrbitControls) : OrbitControls :=
  mkOrbitControls (object c) (domElement c) (enabled c) (target c)
  (minDistance c) (maxDistance c) (minZoom c) (maxZoom c) (minPolarAngle c)
  (maxPolarAngle c) (minAzimuthAngle c) (maxAzimuthAngle c) (enableDamping c)
  (dampingFactor c) (enableZoom c) (zoomSpeed c) (enableRotate c)
  (rotateSpeed c) (enablePan c) (panSpeed c) (screenSpacePanning c)
  (autoRotate c) (autoRotateSpeed c) (mouseButtons c) (spherical c)
  (sphericalDelta c) (scale c) (panOffset c) (zoomChanged c) v (panStart c)
  (dollyStart c) (pointers c) (pointerPositions c) (state c) (lastPosition c)
  (lastQuaternion c) (target0 c) (position0 c) (zoom0 c) (dispatched c).

Definition set_panStart (v : Vector2.t) (c : OrbitControls) : OrbitControls :=
  mkOrbitControls (object c) (domElement c) (enabled c) (target c)
  (minDistance c) (maxDistance c) (minZoom c) (maxZoom c) (minPolarAngle c)
  (maxPolarAngle c) (minAzimuthAngle c) (maxAzimuthAngle c) (enableDamping c)
  (dampingFactor c) (enableZoom c) (zoomSpeed c) (enableRotate c)
  (rotateSpeed c) (enablePan c) (panSpeed c) (screenSpacePanning c)
  (autoRotate c) (autoRotateSpeed c) (mouseButtons c) (spherical c)
  (sphericalDelta c) (scale c) (panOffset c) (zoomChanged c) (rotateStart c)
  v (dollyStart c) (pointers c) (pointerPositions c) (state c)
  (lastPosition c) (lastQuaternion c) (target0 c) (position0 c) (zoom0 c)
  (dispatched c).

Definition set_dollyStart (v : Vector2.t) (c : OrbitControls) : OrbitControls :=
  mkOrbitControls (object c) (domElement c) (enabled c) (target c)
  (minDistance c) (maxDistance c) (minZoom c) (maxZoom c) (minPolarAngle c)
  (maxPolarAngle c) (minAzimuthAngle c) (maxAzimuthAngle c) (enableDamping c)
  (dampingFactor c) (enableZoom c) (zoomSpeed c) (enableRotate c)
  (rotateSpeed c) (enablePan c) (panSpeed c) (screenSpacePanning c)
  (autoRotate c) (autoRotateSpeed c) (mouseButtons c) (spherical c)
  (sphericalDelta c) (scale c) (panOffset c) (zoomChanged c) (rotateStart c)
  (panStart c) v (pointers c) (pointerPositions c) (state c) (lastPosition c)
  (lastQuaternion c) (target0 c) (position0 c) (zoom0 c) (dispatched c).

Definition set_pointers (v : list PointerEvent.t) (c : OrbitControls) : OrbitControls :=
  mkOrbitControls (object c) (domElement c) (enabled c) (target c)
  (minDistance c) (maxDistance c) (minZoom c) (maxZoom c) (minPolarAngle c)
  (maxPolarAngle c) (minAzimuthAngle c) (maxAzimuthAngle c) (enableDamping c)
  (dampingFactor c) (enableZoom c) (zoomSpeed c) (enableRotate c)
  (rotateSpeed c) (enablePan c) (panSpeed c) (screenSpacePanning c)
  (autoRotate c) (autoRotateSpeed c) (mouseButtons c) (spherical c)
  (sphericalDelta c) (scale c) (panOffset c) (zoomChanged c) (rotateStart c)
  (panStart c) (dollyStart c) v (pointerPositions c) (state c)
  (lastPosition c) (lastQuaternion c) (target0 c) (position0 c) (zoom0 c)
  (dispatched c).

Definition set_pointerPositions (v : gmap Z Vector2.t) (c : OrbitControls) : OrbitControls :=
  mkOrbitControls (object c) (domElement c) (enabled c) (target c)
  (minDistance c) (maxDistance c) (minZoom c) (maxZoom c) (minPolarAngle c)
  (maxPolarAngle c) (minAzimuthAngle c) (maxAzimuthAngle c) (enableDamping c)
  (dampingFactor c) (enableZoom c) (zoomSpeed c) (enableRotate c)
  (rotateSpeed c) (enablePan c) (panSpeed c) (screenSpacePanning c)
  (autoRotate c) (autoRotateSpeed c) (mouseButtons c) (spherical c)
  (sphericalDelta c) (scale c) (panOffset c) (zoomChanged c) (rotateStart c)
  (panStart c) (dollyStart c) (pointers c) v (state c) (lastPosition c)
  (lastQuaternion c) (target0 c) (position0 c) (zoom0 c) (dispatched c).

Definition set_state (v : STATE) (c : OrbitControls) : OrbitControls :=
  mkOrbitControls (object c) (domElement c) (enabled c) (target c)
  (minDistance c) (maxDistance c) (minZoom c) (maxZoom c) (minPolarAngle c)
  (maxPolarAngle c) (minAzimuthAngle c) (maxAzimuthAngle c) (enableDamping c)
  (dampingFactor c) (enableZoom c) (zoomSpeed c) (enableRotate c)
  (rotateSpeed c) (enablePan c) (panSpeed c) (screenSpacePanning c)
  (autoRotate c) (autoRotateSpeed c) (mouseButtons c) (spherical c)
  (sphericalDelta c) (scale c) (panOffset c) (zoomChanged c) (rotateStart c)
  (panStart c) (dollyStart c) (pointers c) (pointerPositions c) v
  (lastPosition c) (lastQuaternion c) (target0 c) (position0 c) (zoom0 c)
  (dispatched c).

Definition set_target0 (v : Vector3.t) (c : OrbitControls) : OrbitControls :=
  mkOrbitControls (object c) (domElement c) (enabled c) (target c)
  (minDistance c) (maxDistance c) (minZoom c) (maxZoom c) (minPolarAngle c)
  (maxPolarAngle c) (minAzimuthAngle c) (maxAzimuthAngle c) (enableDamping c)
  (dampingFactor c) (enableZoom c) (zoomSpeed c) (enableRotate c)
  (rotateSpeed c) (enablePan c) (panSpeed c) (screenSpacePanning c)
  (autoRotate c) (autoRotateSpeed c) (mouseButtons c) (spherical c)
  (sphericalDelta c) (scale c) (panOffset c) (zoomChanged c) (rotateStart c)
  (panStart c) (dollyStart c) (pointers c) (pointerPositions c) (state c)
  (lastPosition c) (lastQuaternion c) v (position0 c) (zoom0 c)
  (dispatched c).

Definition set_position0 (v : Vector3.t) (c : OrbitControls) : OrbitControls :=
  mkOrbitControls (object c) (domElement c) (enabled c) (target c)
  (minDistance c) (maxDistance c) (minZoom c) (maxZoom c) (minPolarAngle c)
  (maxPolarAngle c) (minAzimuthAngle c) (maxAzimuthAngle c) (enableDamping c)
  (dampingFactor c) (enableZoom c) (zoomSpeed c) (enableRotate c)
  (rotateSpeed c) (enablePan c) (panSpeed c) (screenSpacePanning c)
  (autoRotate c) (autoRotateSpeed c) (mouseButtons c) (spherical c)
  (sphericalDelta c) (scale c) (panOffset c) (zoomChanged c) (rotateStart c)
  (panStart c) (dollyStart c) (pointers c) (pointerPositions c) (state c)
  (lastPosition c) (lastQuaternion c) (target0 c) v (zoom0 c) (dispatched c).

Definition set_zoom0 (v : R) (c : OrbitControls) : OrbitControls :=
  mkOrbitControls (object c) (domElement c) (enabled c) (target c)
  (minDistance c) (maxDistance c) (minZoom c) (maxZoom c) (minPolarAngle c)
  (maxPolarAngle c) (minAzimuthAngle c) (maxAzimuthAngle c) (enableDamping c)
  (dampingFactor c) (enableZoom c) (zoomSpeed c) (enableRotate c)
  (rotateSpeed c) (enablePan c) (panSpeed c) (screenSpacePanning c)
  (autoRotate c) (autoRotateSpeed c) (mouseButtons c) (spherical c)
  (sphericalDelta c) (scale c) (panOffset c) (zoomChanged c) (rotateStart c)
  (panStart c) (dollyStart c) (pointers c) (pointerPositions c) (state c)
  (lastPosition c) (lastQuaternion c) (target0 c) (position0 c) v
  (dispatched c).

Definition set_dispatched (v : list EventType) (c : OrbitControls) : OrbitControls :=
  mkOrbitControls (object c) (domElement c) (enabled c) (target c)
  (minDistance c) (maxDistance c) (minZoom c) (maxZoom c) (minPolarAngle c)
  (maxPolarAngle c) (minAzimuthAngle c) (maxAzimuthAngle c) (enableDamping c)
  (dampingFactor c) (enableZoom c) (zoomSpeed c) (enableRotate c)
  (rotateSpeed c) (enablePan c) (panSpeed c) (screenSpacePanning c)
  (autoRotate c) (autoRotateSpeed c) (mouseButtons c) (spherical c)
  (sphericalDelta c) (scale c) (panOffset c) (zoomChanged c) (rotateStart c)
  (panStart c) (dollyStart c) (pointers c) (pointerPositions c) (state c)
  (lastPosition c) (lastQuaternion c) (target0 c) (position0 c) (zoom0 c) v.

(** ** Methods *)

Section Controller.

(** The two services of the rendering library that stay abstract: the
    orientation [lookAt] gives to a camera at [eye] looking at [target]
    with a given [up], and the local matrix composed from a position and
    an orientation. *)
Variable lookAtQuaternion : Vector3.t -> Vector3.t -> Vector3.t -> Quaternion.t.
Variable composeMatrix : Vector3.t -> Quaternion.t -> Matrix4.t.

(** [object.lookAt(target)]: the local matrix is refreshed from the
    current position and orientation, then the camera is turned towards
    the target. *)
Definition Object3D_lookAt (cam : Camera.t) (target : Vector3.t) : Camera.t :=
  Camera.mk (Camera.kind cam) (Camera.position cam) (Camera.up cam)
    (Camera.zoom cam)
    (lookAtQuaternion (Camera.position cam) target (Camera.up cam))
    (composeMatrix (Camera.position cam) (Camera.quaternion cam)).

Definition dispatchEvent (e : EventType) (c : OrbitControls) : OrbitControls :=
  set_dispatched (dispatched c ++ [e]) c.

Definition EPS : R := 0.000001.

Definition getPolarAngle (c : OrbitControls) : R := Spherical.phi (spherical c).

Definition getAzimuthalAngle (c : OrbitControls) : R :=
  Spherical.theta (spherical c).


Definition getAutoRotationAngle (c : OrbitControls) : R :=
  2 * PI / 60 / 60 * autoRotateSpeed c.

Definition getZoomScale (c : OrbitControls) : R :=
  Math_pow 0.95 (zoomSpeed c).

Definition rotateLeft (angle : R) (c : OrbitControls) : OrbitControls :=
  let d := sphericalDelta c in
  set_sphericalDelta
    (Spherical.mk (Spherical.radius d) (Spherical.phi d)
       (Spherical.theta d - angle)) c.

Definition rotateUp (angle : R) (c : OrbitControls) : OrbitControls :=
  let d := sphericalDelta c in
  set_sphericalDelta
    (Spherical.mk (Spherical.radius d) (Spherical.phi d - angle)
       (Spherical.theta d)) c.

(** *** update *)

(** Lines 142 to 157: the offset of the camera from the target in the
    frame whose vertical is the camera's up, its spherical coordinates,
    the automatic rotation, and the pending rotation added in (wholly, or
    its damped share). *)
Definition integrateRotation (quat : Quaternion.t) (c : OrbitControls)
  : OrbitControls :=
  let position := Camera.position (object c) in
  let offset := Vector3.applyQuaternion (Vector3.sub position (target c)) quat in
  let c := set_spherical (Spherical_setFromVector3 offset) c in
  let c :=
    if autoRotate c && STATE_eqb (state c) NONE
    then rotateLeft (getAutoRotationAngle c) c
    else c in
  let s := spherical c in
  let d := sphericalDelta c in
  if enableDamping c then
    set_spherical
      (Spherical.mk (Spherical.radius s)
         (Spherical.phi s + Spherical.phi d * dampingFactor c)
         (Spherical.theta s + Spherical.theta d * dampingFactor c)) c
  else
    set_spherical
      (Spherical.mk (Spherical.radius s)
         (Spherical.phi s + Spherical.phi d)
         (Spherical.theta s + Spherical.theta d)) c.

(** The shift applied to each azimuth limit:
    [if (a < -Math.PI) a += twoPI; else if (a > Math.PI) a -= twoPI]. *)
Definition shiftLimit (a : R) : R :=
  let twoPI := 2 * PI in
  if Rlt_dec a (- PI) then a + twoPI
  else if Rgt_dec a PI then a - twoPI
  else a.

(** Lines 159 to 175: theta is restricted only when both limits are
    finite. *)
Definition restrictTheta (minAzimuthAngle : LowerLimit)
    (maxAzimuthAngle : UpperLimit) (theta : R) : R :=
  match minAzimuthAngle, maxAzimuthAngle with
  | Lower min, Upper max =>
      let min := shiftLimit min in
      let max := shiftLimit max in
      if Rle_dec min max then Rmax min (Rmin max theta)
      else if Rgt_dec theta ((min + max) / 2) then Rmax min theta
      else Rmin max theta
  | _, _ => theta
  end.

(** Lines 159 to 183: the three restrictions and the pending dolly
    factor. *)
Definition restrictSpherical (c : OrbitControls) : OrbitControls :=
  let s := spherical c in
  let s :=
    Spherical.mk (Spherical.radius s) (Spherical.phi s)
      (restrictTheta (minAzimuthAngle c) (maxAzimuthAngle c) (Spherical.theta s)) in
  let s :=
    Spherical.mk (Spherical.radius s)
      (Rmax (minPolarAngle c) (Rmin (maxPolarAngle c) (Spherical.phi s)))
      (Spherical.theta s) in
  let s := Spherical.makeSafe s in
  let s :=
    Spherical.mk (Spherical.radius s * scale c) (Spherical.phi s)
      (Spherical.theta s) in
  let s :=
    Spherical.mk
      (Rmax (minDistance c) (min_upper (maxDistance c) (Spherical.radius s)))
      (Spherical.phi s) (Spherical.theta s) in
  set_spherical s c.

(** Lines 185 to 206: the target is moved by the pending pan, the camera
    is placed and turned, the pending values decay or are cleared. *)
Definition placeCamera (quatInverse : Quaternion.t) (c : OrbitControls)
  : OrbitControls :=
  let c :=
    if enableDamping c
    then set_target (Vector3.addScaledVector (target c) (panOffset c) (dampingFactor c)) c
    else set_target (Vector3.add (target c) (panOffset c)) c in
  let offset :=
    Vector3.applyQuaternion (Vector3.setFromSpherical (spherical c)) quatInverse in
  let c := set_object (Camera.set_position (Vector3.add (target c) offset) (object c)) c in
  let c := set_object (Object3D_lookAt (object c) (target c)) c in
  let c :=
    if enableDamping c then
      let d := sphericalDelta c in
      let c :=
        set_sphericalDelta
          (Spherical.mk (Spherical.radius d)
             (Spherical.phi d * (1 - dampingFactor c))
             (Spherical.theta d * (1 - dampingFactor c))) c in
      set_panOffset (Vector3.multiplyScalar (panOffset c) (1 - dampingFactor c)) c
    else
      let c := set_sphericalDelta (Spherical.mk 0 0 0) c in
      set_panOffset (Vector3.mk 0 0 0) c in
  set_scale 1 c.

(** [update()]: the value returned and the controller afterwards.  As in
    the source, [lastPosition] and [lastQuaternion] are created afresh by
    every call; the fields of the same names are not touched. *)
Definition update (c : OrbitControls) : bool * OrbitControls :=
  let quat :=
    Quaternion_setFromUnitVectors (Camera.up (object c)) (Vector3.mk 0 1 0) in
  let quatInverse := Quaternion.invert quat in
  let lastPosition := Vector3.new in
  let lastQuaternion := Quaternion.new in
  let c := integrateRotation quat c in
  let c := restrictSpherical c in
  let c := placeCamera quatInverse c in
  if zoomChanged c
     || Rgtb (Vector3.distanceToSquared lastPosition (Camera.position (object c))) EPS
     || Rgtb (8 * (1 - Quaternion.dot lastQuaternion (Camera.quaternion (object c)))) EPS
  then
    let c := dispatchEvent change c in
    (true, set_zoomChanged false c)
  else (false, c).


(** [dispose()] removes four listeners from the element; the other two
    removals address the document, not the element. *)
Definition dispose (c : OrbitControls) : OrbitControls :=
  let e := domElement c in
  let e := Element.removeEventListener "contextmenu" e in
  let e := Element.removeEventListener "pointerdown" e in
  let e := Element.removeEventListener "pointercancel" e in
  let e := Element.removeEventListener "wheel" e in
  set_domElement e c.

(** *** pan and dolly *)

Definition panLeft (distance : R) (objectMatrix : Matrix4.t) (c : OrbitControls)
  : OrbitControls :=
  let v := Vector3_setFromMatrixColumn objectMatrix 0 in
  let v := Vector3.multiplyScalar v (- distance) in
  set_panOffset (Vector3.add (panOffset c) v) c.

Definition panUp (distance : R) (objectMatrix : Matrix4.t) (c : OrbitControls)
  : OrbitControls :=
  let v :=
    if screenSpacePanning c then Vector3_setFromMatrixColumn objectMatrix 1
    else
      Vector3.crossVectors (Camera.up (object c))
        (Vector3_setFromMatrixColumn objectMatrix 0) in
  let v := Vector3.multiplyScalar v distance in
  set_panOffset (Vector3.add (panOffset c) v) c.

Definition pan (deltaX deltaY : R) (c : OrbitControls) : OrbitControls :=
  let element := domElement c in
  match Camera.kind (object c) with
  | PerspectiveCamera fov =>
      let position := Camera.position (object c) in
      let offset := Vector3.sub position (target c) in
      let targetDistance := Vector3.length offset in
      let targetDistance := targetDistance * tan (fov / 2 * PI / 180) in
      let c :=
        panLeft (2 * deltaX * targetDistance / Element.clientHeight element)
          (Camera.matrix (object c)) c in
      panUp (2 * deltaY * targetDistance / Element.clientHeight element)
        (Camera.matrix (object c)) c
  | OrthographicCamera left_ right_ top_ bottom_ =>
      let c :=
        panLeft
          (deltaX * (right_ - left_) / Camera.zoom (object c)
           / Element.clientWidth element)
          (Camera.matrix (object c)) c in
      panUp
        (deltaY * (top_ - bottom_) / Camera.zoom (object c)
         / Element.clientHeight element)
        (Camera.matrix (object c)) c
  | OtherCamera => set_enablePan false c
  end.

Definition dollyOut (dollyScale : R) (c : OrbitControls) : OrbitControls :=
  match Camera.kind (object c) with
  | PerspectiveCamera _ => set_scale (scale c / dollyScale) c
  | OrthographicCamera _ _ _ _ =>
      let zoom :=
        Rmax (minZoom c) (min_upper (maxZoom c) (Camera.zoom (object c) * dollyScale)) in
      let c := set_object (Camera.set_zoom zoom (object c)) c in
      set_zoomChanged true c
  | OtherCamera => set_enableZoom false c
  end.

Definition dollyIn (dollyScale : R) (c : OrbitControls) : OrbitControls :=
  match Camera.kind (object c) with
  | PerspectiveCamera _ => set_scale (scale c * dollyScale) c
  | OrthographicCamera _ _ _ _ =>
      let zoom :=
        Rmax (minZoom c) (min_upper (maxZoom c) (Camera.zoom (object c) / dollyScale)) in
      let c := set_object (Camera.set_zoom zoom (object c)) c in
      set_zoomChanged true c
  | OtherCamera => set_enableZoom false c
  end.

(** *** Pointer bookkeeping *)

(** How a handler ends: it returns, or a [TypeError] is thrown (a
    property of [undefined] was read) and the controller stays as it was
    at that point. *)
Inductive Outcome : Type :=
| Returns (c : OrbitControls)
| Throws (c : OrbitControls).

Definition after (o : Outcome) : OrbitControls :=
  match o with
  | Returns c => c
  | Throws c => c
  end.

(** Sequencing: what follows a throw is not run. *)
Definition andThen (o : Outcome) (k : OrbitControls -> Outcome) : Outcome :=
  match o with
  | Returns c => k c
  | Throws c => Throws c
  end.

Definition addPointer (event : PointerEvent.t) (c : OrbitControls)
  : OrbitControls :=
  set_pointers (pointers c ++ [event]) c.

(** The loop of [removePointer]: the first entry with the given
    identifier is spliced out. *)
Fixpoint removeFirst (id : Z) (ps : list PointerEvent.t) : list PointerEvent.t :=
  match ps with
  | [] => []
  | p :: rest =>
      if (PointerEvent.pointerId p =? id)%Z then rest
      else p :: removeFirst id rest
  end.

Definition removePointer (event : PointerEvent.t) (c : OrbitControls)
  : OrbitControls :=
  let c :=
    set_pointerPositions
      (delete (PointerEvent.pointerId event) (pointerPositions c)) c in
  set_pointers (removeFirst (PointerEvent.pointerId event) (pointers c)) c.

(** [trackPointer]: the page position of the event becomes the position
    stored for its pointer. *)
Definition trackPointer (event : PointerEvent.t) (c : OrbitControls)
  : OrbitControls :=
  set_pointerPositions
    (<[ PointerEvent.pointerId event :=
          Vector2.mk (PointerEvent.pageX event) (PointerEvent.pageY event) ]>
       (pointerPositions c)) c.

(** [getSecondPointerPosition]: [None] when [pointers[0]] or the pointer
    chosen is [undefined], or when no position is stored for it; the
    callers read a coordinate of the result at once, so each of these
    makes them throw before they change anything. *)
Definition getSecondPointerPosition (event : PointerEvent.t) (c : OrbitControls)
  : option Vector2.t :=
  p0 ← pointers c !! 0%nat;
  pointer ←
    (if (PointerEvent.pointerId event =? PointerEvent.pointerId p0)%Z
     then pointers c !! 1%nat
     else Some p0);
  pointerPositions c !! PointerEvent.pointerId pointer.

(** *** Mouse gestures *)

Definition handleMouseDownRotate (event : PointerEvent.t) (c : OrbitControls)
  : OrbitControls :=
  set_rotateStart
    (Vector2.mk (PointerEvent.clientX event) (PointerEvent.clientY event)) c.

Definition handleMouseDownDolly (event : PointerEvent.t) (c : OrbitControls)
  : OrbitControls :=
  set_dollyStart
    (Vector2.mk (PointerEvent.clientX event) (PointerEvent.clientY event)) c.

Definition handleMouseDownPan (event : PointerEvent.t) (c : OrbitControls)
  : OrbitControls :=
  set_panStart
    (Vector2.mk (PointerEvent.clientX event) (PointerEvent.clientY event)) c.

Definition handleMouseMoveRotate (event : PointerEvent.t) (c : OrbitControls)
  : OrbitControls :=
  let rotateEnd :=
    Vector2.mk (PointerEvent.clientX event) (PointerEvent.clientY event) in
  let rotateDelta :=
    Vector2.multiplyScalar (Vector2.subVectors rotateEnd (rotateStart c))
      (rotateSpeed c) in
  let element := domElement c in
  let c :=
    rotateLeft (2 * PI * Vector2.x rotateDelta / Element.clientHeight element) c in
  let c :=
    rotateUp (2 * PI * Vector2.y rotateDelta / Element.clientHeight element) c in
  let c := set_rotateStart rotateEnd c in
  snd (update c).

Definition handleMouseMoveDolly (event : PointerEvent.t) (c : OrbitControls)
  : OrbitControls :=
  let dollyEnd :=
    Vector2.mk (PointerEvent.clientX event) (PointerEvent.clientY event) in
  let dollyDelta := Vector2.subVectors dollyEnd (dollyStart c) in
  let c :=
    if Rgt_dec (Vector2.y dollyDelta) 0 then dollyOut (getZoomScale c) c
    else if Rlt_dec (Vector2.y dollyDelta) 0 then dollyIn (getZoomScale c) c
    else c in
  let c := set_dollyStart dollyEnd c in
  snd (update c).

Definition handleMouseMovePan (event : PointerEvent.t) (c : OrbitControls)
  : OrbitControls :=
  let panEnd :=
    Vector2.mk (PointerEvent.clientX event) (PointerEvent.clientY event) in
  let panDelta :=
    Vector2.multiplyScalar (Vector2.subVectors panEnd (panStart c)) (panSpeed c) in
  let c := pan (Vector2.x panDelta) (Vector2.y panDelta) c in
  let c := set_panStart panEnd c in
  snd (update c).

(** [onMouseDown]: the button picks an action from [mouseButtons]; a
    modifier key swaps rotate and pan; a disabled capability returns at
    once, leaving the state field as it was. *)
Definition onMouseDown (event : PointerEvent.t) (c : OrbitControls)
  : OrbitControls :=
  let mouseAction :=
    match PointerEvent.button event with
    | 0%Z => LEFT (mouseButtons c)
    | 1%Z => MIDDLE (mouseButtons c)
    | 2%Z => RIGHT (mouseButtons c)
    | _ => (-1)%Z
    end in
  let modifier :=
    PointerEvent.ctrlKey event || PointerEvent.metaKey event
    || PointerEvent.shiftKey event in
  let notify (c : OrbitControls) : OrbitControls :=
    if negb (STATE_eqb (state c) NONE) then dispatchEvent start c else c in
  if (mouseAction =? MOUSE_DOLLY)%Z then
    if negb (enableZoom c) then c
    else notify (set_state DOLLY (handleMouseDownDolly event c))
  else if (mouseAction =? MOUSE_ROTATE)%Z then
    if modifier then
      if negb (enablePan c) then c
      else notify (set_state PAN (handleMouseDownPan event c))
    else
      if negb (enableRotate c) then c
      else notify (set_state ROTATE (handleMouseDownRotate event c))
  else if (mouseAction =? MOUSE_PAN)%Z then
    if modifier then
      if negb (enableRotate c) then c
      else notify (set_state ROTATE (handleMouseDownRotate event c))
    else
      if negb (enablePan c) then c
      else notify (set_state PAN (handleMouseDownPan event c))
  else notify (set_state NONE c).

Definition onMouseMove (event : PointerEvent.t) (c : OrbitControls)
  : OrbitControls :=
  match state c with
  | ROTATE => if negb (enableRotate c) then c else handleMouseMoveRotate event c
  | DOLLY => if negb (enableZoom c) then c else handleMouseMoveDolly event c
  | PAN => if negb (enablePan c) then c else handleMouseMovePan event c
  | _ => c
  end.

(** *** Touch gestures *)

Definition handleTouchStartRotate (c : OrbitControls) : Outcome :=
  if (length (pointers c) =? 1)%nat then
    match pointers c !! 0%nat with
    | Some p0 =>
        Returns
          (set_rotateStart
             (Vector2.mk (PointerEvent.pageX p0) (PointerEvent.pageY p0)) c)
    | None => Throws c
    end
  else
    match pointers c !! 0%nat, pointers c !! 1%nat with
    | Some p0, Some p1 =>
        let x := 0.5 * (PointerEvent.pageX p0 + PointerEvent.pageX p1) in
        let y := 0.5 * (PointerEvent.pageY p0 + PointerEvent.pageY p1) in
        Returns (set_rotateStart (Vector2.mk x y) c)
    | _, _ => Throws c
    end.

Definition handleTouchStartDollyPan (c : OrbitControls) : Outcome :=
  match pointers c !! 0%nat, pointers c !! 1%nat with
  | Some p0, Some p1 =>
      let c :=
        if enableZoom c then
          let dx := PointerEvent.pageX p0 - PointerEvent.pageX p1 in
          let dy := PointerEvent.pageY p0 - PointerEvent.pageY p1 in
          let distance := sqrt (dx * dx + dy * dy) in
          set_dollyStart (Vector2.mk 0 distance) c
        else c in
      let c :=
        if enablePan c then
          let x := 0.5 * (PointerEvent.pageX p0 + PointerEvent.pageX p1) in
          let y := 0.5 * (PointerEvent.pageY p0 + PointerEvent.pageY p1) in
          set_panStart (Vector2.mk x y) c
        else c in
      Returns c
  | _, _ => if enableZoom c || enablePan c then Throws c else Returns c
  end.

Definition handleTouchMoveRotate (event : PointerEvent.t) (c : OrbitControls)
  : Outcome :=
  let finish (rotateEnd : Vector2.t) : Outcome :=
    let rotateDelta :=
      Vector2.multiplyScalar (Vector2.subVectors rotateEnd (rotateStart c))
        (rotateSpeed c) in
    let element := domElement c in
    let c :=
      rotateLeft (2 * PI * Vector2.x rotateDelta / Element.clientHeight element) c in
    let c :=
      rotateUp (2 * PI * Vector2.y rotateDelta / Element.clientHeight element) c in
    Returns (set_rotateStart rotateEnd c) in
  if (length (pointers c) =? 1)%nat then
    finish (Vector2.mk (PointerEvent.pageX event) (PointerEvent.pageY event))
  else
    match getSecondPointerPosition event c with
    | Some position =>
        let x := 0.5 * (PointerEvent.pageX event + Vector2.x position) in
        let y := 0.5 * (PointerEvent.pageY event + Vector2.y position) in
        finish (Vector2.mk x y)
    | None => Throws c
    end.

(** The dolly half and the pan half of [handleTouchMoveDollyPan]. *)
Definition touchMoveDolly (event : PointerEvent.t) (c : OrbitControls)
  : Outcome :=
  if enableZoom c then
    match getSecondPointerPosition event c with
    | Some position =>
        let dx := PointerEvent.pageX event - Vector2.x position in
        let dy := PointerEvent.pageY event - Vector2.y position in
        let distance := sqrt (dx * dx + dy * dy) in
        let dollyEnd := Vector2.mk 0 distance in
        let dollyDelta :=
          Vector2.mk 0
            (Math_pow (Vector2.y dollyEnd / Vector2.y (dollyStart c)) (zoomSpeed c)) in
        let c := dollyOut (Vector2.y dollyDelta) c in
        Returns (set_dollyStart dollyEnd c)
    | None => Throws c
    end
  else Returns c.

Definition touchMovePan (event : PointerEvent.t) (c : OrbitControls)
  : Outcome :=
  if enablePan c then
    match getSecondPointerPosition event c with
    | Some position =>
        let x := 0.5 * (PointerEvent.pageX event + Vector2.x position) in
        let y := 0.5 * (PointerEvent.pageY event + Vector2.y position) in
        let panEnd := Vector2.mk x y in
        let panDelta :=
          Vector2.multiplyScalar (Vector2.subVectors panEnd (panStart c))
            (panSpeed c) in
        let c := pan (Vector2.x panDelta) (Vector2.y panDelta) c in
        Returns (set_panStart panEnd c)
    | None => Throws c
    end
  else Returns c.

Definition handleTouchMoveDollyPan (event : PointerEvent.t) (c : OrbitControls)
  : Outcome :=
  andThen (touchMoveDolly event c) (touchMovePan event).

Definition onTouchStart (event : PointerEvent.t) (c : OrbitControls) : Outcome :=
  let c := trackPointer event c in
  match length (pointers c) with
  | 1%nat =>
      if negb (enableRotate c) then Returns c
      else andThen (handleTouchStartRotate c)
             (fun c => Returns (set_state TOUCH_ROTATE c))
  | 2%nat =>
      if negb (enableZoom c) && negb (enablePan c) then Returns c
      else andThen (handleTouchStartDollyPan c)
             (fun c => Returns (set_state TOUCH_DOLLY_PAN c))
  | _ => Returns (set_state NONE c)
  end.

Definition onTouchMove (event : PointerEvent.t) (c : OrbitControls) : Outcome :=
  let c := trackPointer event c in
  match state c with
  | TOUCH_ROTATE =>
      if negb (enableRotate c) then Returns c
      else andThen (handleTouchMoveRotate event c)
             (fun c => Returns (snd (update c)))
  | TOUCH_DOLLY_PAN =>
      if negb (enableZoom c) && negb (enablePan c) then Returns c
      else andThen (handleTouchMoveDollyPan event c)
             (fun c => Returns (snd (update c)))
  | _ => Returns (set_state NONE c)
  end.

(** *** Event callbacks *)

Definition onMouseWheel (event : WheelEvent) (c : OrbitControls)
  : OrbitControls :=
  if negb (enabled c) || negb (enableZoom c) then c
  else
    let c :=
      if Rlt_dec (deltaY event) 0 then dollyIn (getZoomScale c) c
      else dollyOut (getZoomScale c) c in
    snd (update c).

Definition isTouch (event : PointerEvent.t) : bool :=
  String.eqb (PointerEvent.pointerType event) "touch".

Definition onPointerDown (event : PointerEvent.t) (c : OrbitControls)
  : Outcome :=
  if negb (enabled c) then Returns c
  else
    let c :=
      if (length (pointers c) =? 0)%nat then
        let e := domElement c in
        let e := Element.setPointerCapture (PointerEvent.pointerId event) e in
        let e := Element.addEventListener "pointermove" e in
        let e := Element.addEventListener "pointerup" e in
        set_domElement e c
      else c in
    let c := addPointer event c in
    if isTouch event then onTouchStart event c
    else Returns (onMouseDown event c).

Definition onPointerMove (event : PointerEvent.t) (c : OrbitControls)
  : Outcome :=
  if negb (enabled c) then Returns c
  else if isTouch event then onTouchMove event c
  else Returns (onMouseMove event c).

Definition onPointerUp (event : PointerEvent.t) (c : OrbitControls)
  : OrbitControls :=
  let c := removePointer event c in
  let c :=
    if (length (pointers c) =? 0)%nat then
      let e := domElement c in
      let e := Element.releasePointerCapture (PointerEvent.pointerId event) e in
      let e := Element.removeEventListener "pointermove" e in
      let e := Element.removeEventListener "pointerup" e in
      set_domElement e c
    else c in
  let c := dispatchEvent end_ c in
  set_state NONE c.

Definition onPointerCancel (event : PointerEvent.t) (c : OrbitControls)
  : OrbitControls :=
  removePointer event c.

(** *** The element delivering events *)

Inductive DomEvent : Type :=
| contextmenu
| pointerdown (event : PointerEvent.t)
| pointermove (event : PointerEvent.t)
| pointerup (event : PointerEvent.t)
| pointercancel (event : PointerEvent.t)
| wheel (event : WheelEvent).

Definition eventType (ev : DomEvent) : string :=
  match ev with
  | contextmenu => "contextmenu"
  | pointerdown _ => "pointerdown"
  | pointermove _ => "pointermove"
  | pointerup _ => "pointerup"
  | pointercancel _ => "pointercancel"
  | wheel _ => "wheel"
  end.

(** One event arriving at the element: the callback registered for its
    type runs to completion (or to its throw); an event without a
    listener changes nothing.  [onContextMenu] only prevents the default
    action. *)
Definition fire (ev : DomEvent) (c : OrbitControls) : OrbitControls :=
  if bool_decide (eventType ev ∈ Element.listeners (domElement c)) then
    match ev with
    | contextmenu => c
    | pointerdown event => after (onPointerDown event c)
    | pointermove event => after (onPointerMove event c)
    | pointerup event => onPointerUp event c
    | pointercancel event => onPointerCancel event c
    | wheel event => onMouseWheel event c
    end
  else c.

(** The events of a list arriving in order. *)
Definition fireAll (evs : list DomEvent) (c : OrbitControls) : OrbitControls :=
  fold_left (fun c ev => fire ev c) evs c.

(** *** Construction *)

(** The field initialisers and the constructor body up to its last
    statement: the defaults, the saved state, and the four listeners. *)
Definition initialFields (object : Camera.t) (domElement : Element.t)
  : OrbitControls :=
  let target := Vector3.new in
  let e := Element.addEventListener "contextmenu" domElement in
  let e := Element.addEventListener "pointerdown" e in
  let e := Element.addEventListener "pointercancel" e in
  let e := Element.addEventListener "wheel" e in
  mkOrbitControls object e true target
    0 Infinity 0 Infinity 0 PI NegInfinity Infinity
    false 0.05 true 1 true 1 true 1 true false 2
    (mkMouseButtons MOUSE_ROTATE MOUSE_DOLLY MOUSE_PAN)
    Spherical.new Spherical.new 1 Vector3.new false
    Vector2.new Vector2.new Vector2.new
    [] ∅ NONE Vector3.new Quaternion.new
    target (Camera.position object) (Camera.zoom object) [].

(** [new OrbitControls(object, domElement)]: the constructor ends with
    [this.update()]. *)
Definition construct (object : Camera.t) (domElement : Element.t)
  : OrbitControls :=
  snd (update (initialFields object domElement)).

(** *** What the host and the user can do to a controller *)

(** An event delivered by the element, a call of [update] by the render
    loop, a direct call of a rotate, dolly or pan method, or an
    assignment to [target]. *)
Inductive Action : Type :=
| deliver (ev : DomEvent)
| callUpdate
| callRotateLeft (angle : R)
| callRotateUp (angle : R)
| callDollyIn (dollyScale : R)
| callDollyOut (dollyScale : R)
| callPan (deltaX deltaY : R)
| assignTarget (v : Vector3.t).

Definition perform (a : Action) (c : OrbitControls) : OrbitControls :=
  match a with
  | deliver ev => fire ev c
  | callUpdate => snd (update c)
  | callRotateLeft angle => rotateLeft angle c
  | callRotateUp angle => rotateUp angle c
  | callDollyIn dollyScale => dollyIn dollyScale c
  | callDollyOut dollyScale => dollyOut dollyScale c
  | callPan deltaX deltaY => pan deltaX deltaY c
  | assignTarget v => set_target v c
  end.

Definition performAll (acts : list Action) (c : OrbitControls)
  : OrbitControls :=
  fold_left (fun c a => perform a c) acts c.


(** *** Notions used to state the properties *)

(** The quaternion [update] computes from the camera's up vector. *)
Definition quatOf (c : OrbitControls) : Quaternion.t :=
  Quaternion_setFromUnitVectors (Camera.up (object c)) (Vector3.mk 0 1 0).

(** The state [update] builds before it decides what to report. *)
Definition placed (c : OrbitControls) : OrbitControls :=
  placeCamera (Quaternion.invert (quatOf c))
    (restrictSpherical (integrateRotation (quatOf c) c)).

(** The limits on distance and polar angle and the saved state: what no
    action writes. *)
Definition settings (c : OrbitControls)
  : R * UpperLimit * R * R * Vector3.t * Vector3.t * R :=
  (minDistance c, maxDistance c, minPolarAngle c, maxPolarAngle c,
   target0 c, position0 c, zoom0 c).

(** *** A controller to evaluate on *)

Definition identityMatrix : Matrix4.t :=
  Matrix4.mk (Vector3.mk 1 0 0) (Vector3.mk 0 1 0) (Vector3.mk 0 0 1)
    (Vector3.mk 0 0 0).

(** A perspective camera five units in front of the origin, upright. *)
Definition sampleCamera : Camera.t :=
  Camera.mk (PerspectiveCamera 75) (Vector3.mk 0 0 5) (Vector3.mk 0 1 0) 1
    Quaternion.new identityMatrix.

Definition sampleElement : Element.t := Element.mk 800 600 ∅ ∅.

(** The controller [new OrbitControls(sampleCamera, sampleElement)]
    before the [update] that ends its construction. *)
Definition sampleFields : OrbitControls :=
  initialFields sampleCamera sampleElement.

(** The same controller with chosen limits, damping, pending rotation
    and pending pan. *)
Definition sampleWith (minDistance : R) (maxDistance : UpperLimit)
    (minAzimuthAngle : LowerLimit) (maxAzimuthAngle : UpperLimit)
    (enableDamping : bool) (sphericalDelta : Spherical.t)
    (panOffset : Vector3.t) (object : Camera.t) : OrbitControls :=
  mkOrbitControls object (domElement sampleFields) true Vector3.new
    minDistance maxDistance 0 Infinity 0 PI minAzimuthAngle maxAzimuthAngle
    enableDamping 0.05 true 1 true 1 true 1 true false 2
    (mkMouseButtons MOUSE_ROTATE MOUSE_DOLLY MOUSE_PAN)
    Spherical.new sphericalDelta 1 panOffset false
    Vector2.new Vector2.new Vector2.new
    [] ∅ NONE Vector3.new Quaternion.new
    Vector3.new (Camera.position object) (Camera.zoom object) [].

(** The limits the application sets: distances between 1 and 10. *)
Definition sampleLimited : OrbitControls :=
  sampleWith 1 (Upper 10) NegInfinity Infinity false Spherical.new
    Vector3.new sampleCamera.

(** Azimuth limits of one radian either way, and a pending rotation of
    five radians, as [rotateLeft(-5)] leaves it. *)
Definition sampleTurned : OrbitControls :=
  sampleWith 0 Infinity (Lower (-1)) (Upper 1) false (Spherical.mk 1 0 5)
    Vector3.new sampleCamera.



Definition sampleWheel : WheelEvent := mkWheelEvent (-1).

(** A controller at rest with its camera on the z axis at distance [d]
    from a target at the origin: upright, nothing pending, no damping or
    automatic rotation, and limits that admit the position. *)
Definition resting (d : R) (c : OrbitControls) : Prop :=
  Camera.position (object c) = Vector3.mk 0 0 d
  /\ Camera.up (object c) = Vector3.mk 0 1 0
  /\ target c = Vector3.mk 0 0 0
  /\ autoRotate c = false
  /\ enableDamping c = false
  /\ Spherical.theta (sphericalDelta c) = 0
  /\ Spherical.phi (sphericalDelta c) = 0
  /\ panOffset c = Vector3.mk 0 0 0
  /\ scale c = 1
  /\ minAzimuthAngle c = NegInfinity
  /\ minPolarAngle c <= PI / 2 <= maxPolarAngle c
  /\ minDistance c <= d
  /\ le_upper d (maxDistance c).


(** Stand-ins for the two abstract services, to evaluate with: a library
    whose [lookAt] leaves every camera unturned. *)
Definition sampleLookAt (eye target up : Vector3.t) : Quaternion.t :=
  Quaternion.new.

Definition sampleCompose (position : Vector3.t) (q : Quaternion.t)
  : Matrix4.t :=
  identityMatrix.

(** What the three steps of [update] before its report leave as it is,
    and what the first two of them carry along. *)
Definition kept (c : OrbitControls) :=
  (settings c, (autoRotate c, enableDamping c, dampingFactor c),
   (minAzimuthAngle c, maxAzimuthAngle c), state c,
   (Camera.up (object c), Camera.kind (object c), Camera.zoom (object c)),
   dispatched c, zoomChanged c).

Definition carried (c : OrbitControls) :=
  (target c, panOffset c, object c, scale c).

(** The controller [placeCamera] receives within [update]. *)
Definition restricted (c : OrbitControls) : OrbitControls :=
  restrictSpherical (integrateRotation (quatOf c) c).


(** A touch pointer at a page position. *)
Definition touchAt (id : Z) (x y : R) : PointerEvent.t :=
  PointerEvent.mk id "touch" 0 false false false x y x y.



(** The registered pointers and the element. *)
Definition registry (c : OrbitControls) : list PointerEvent.t * Element.t :=
  (pointers c, domElement c).

(** The sample controller with polar limits of one and two radians. *)
Definition samplePolar : OrbitControls :=
  mkOrbitControls sampleCamera (domElement sampleFields) true Vector3.new
    0 Infinity 0 Infinity 1 2 NegInfinity Infinity
    false 0.05 true 1 true 1 true 1 true false 2
    (mkMouseButtons MOUSE_ROTATE MOUSE_DOLLY MOUSE_PAN)
    Spherical.new Spherical.new 1 Vector3.new false
    Vector2.new Vector2.new Vector2.new
    [] ∅ NONE Vector3.new Quaternion.new
    Vector3.new (Vector3.mk 0 0 5) 1 [].

(** The sample controller switched off. *)
Definition sampleDisabled : OrbitControls :=
  mkOrbitControls sampleCamera (domElement sampleFields) false Vector3.new
    0 Infinity 0 Infinity 0 PI NegInfinity Infinity
    false 0.05 true 1 true 1 true 1 true false 2
    (mkMouseButtons MOUSE_ROTATE MOUSE_DOLLY MOUSE_PAN)
    Spherical.new Spherical.new 1 Vector3.new false
    Vector2.new Vector2.new Vector2.new
    [] ∅ NONE Vector3.new Quaternion.new
    Vector3.new (Vector3.mk 0 0 5) 1 [].

(** One finger left of two after a cancel: the state of the two-finger
    gesture with a single registered pointer. *)
Definition sampleOneFinger : OrbitControls :=
  set_state TOUCH_DOLLY_PAN (addPointer (touchAt 1 10 20) sampleFields).

(* ------------------------------------------------------------------ *)
(** * Part V.  Properties of the orbit camera controller               *)
(* ------------------------------------------------------------------ *)

(** ** Numbers *)

Lemma PI_gt_3 : 3 < PI.
Proof. pose proof PI2_3_2. lra. Qed.

Lemma EPS_pos : 0 < EPS.
Proof. unfold EPS. lra. Qed.

Lemma Rgtb_true a b : a > b -> Rgtb a b = true.
Proof. unfold Rgtb. intros H. destruct (Rgt_dec a b); [reflexivity|contradiction]. Qed.

Lemma Rgtb_false a b : a <= b -> Rgtb a b = false.
Proof. unfold Rgtb. intros H. destruct (Rgt_dec a b); [lra|reflexivity]. Qed.

(** ** Reading fields through the steps of [update] *)

Ltac fields :=
  cbn [object domElement enabled target minDistance maxDistance minZoom
       maxZoom minPolarAngle maxPolarAngle minAzimuthAngle maxAzimuthAngle
       enableDamping dampingFactor enableZoom zoomSpeed enableRotate
       rotateSpeed enablePan panSpeed screenSpacePanning autoRotate
       autoRotateSpeed mouseButtons spherical sphericalDelta scale panOffset
       zoomChanged rotateStart panStart dollyStart pointers pointerPositions
       state lastPosition lastQuaternion target0 position0 zoom0 dispatched
       set_object set_domElement set_target set_enableZoom set_enablePan
       set_spherical set_sphericalDelta set_scale set_panOffset
       set_zoomChanged set_rotateStart set_panStart set_dollyStart
       set_pointers set_pointerPositions set_state set_target0 set_position0
       set_zoom0 set_dispatched dispatchEvent rotateLeft rotateUp
       Object3D_lookAt fst snd
       Camera.kind Camera.position Camera.up Camera.zoom Camera.quaternion
       Camera.matrix Camera.set_position Camera.set_zoom
       Spherical.radius Spherical.phi Spherical.theta Spherical.makeSafe
       Element.clientWidth Element.clientHeight Element.captured
       Element.listeners] in *.

Lemma update_unfold c :
  update c =
  let c' := placeCamera (Quaternion.invert (quatOf c))
              (restrictSpherical (integrateRotation (quatOf c) c)) in
  if zoomChanged c'
     || Rgtb (Vector3.distanceToSquared Vector3.new (Camera.position (object c'))) EPS
     || Rgtb (8 * (1 - Quaternion.dot Quaternion.new (Camera.quaternion (object c')))) EPS
  then (true, set_zoomChanged false (dispatchEvent change c'))
  else (false, c').
Proof. reflexivity. Qed.

Lemma placeCamera_spherical qi c :
  spherical (placeCamera qi c) = spherical c.
Proof.
  unfold placeCamera. destruct (enableDamping c) eqn:E; fields; rewrite ?E;
    reflexivity.
Qed.

Lemma update_spherical c :
  spherical (snd (update c))
  = spherical (restrictSpherical (integrateRotation (quatOf c) c)).
Proof.
  rewrite update_unfold. cbv zeta.
  generalize (restrictSpherical (integrateRotation (quatOf c) c)).
  generalize (Quaternion.invert (quatOf c)). intros qi c2.
  rewrite <- (placeCamera_spherical qi c2).
  generalize (placeCamera qi c2). intros c3.
  match goal with |- context [if ?b then _ else _] => destruct b end;
    reflexivity.
Qed.

(** ** What the actions leave alone *)

Ltac split_cases :=
  repeat match goal with
         | |- context [match ?x with _ => _ end] => destruct x
         end.

Lemma settings_set_object v c : settings (set_object v c) = settings c.
Proof. reflexivity. Qed.

Lemma settings_set_domElement v c : settings (set_domElement v c) = settings c.
Proof. reflexivity. Qed.

Lemma settings_set_target v c : settings (set_target v c) = settings c.
Proof. reflexivity. Qed.

Lemma settings_set_enableZoom v c : settings (set_enableZoom v c) = settings c.
Proof. reflexivity. Qed.

Lemma settings_set_enablePan v c : settings (set_enablePan v c) = settings c.
Proof. reflexivity. Qed.

Lemma settings_set_spherical v c : settings (set_spherical v c) = settings c.
Proof. reflexivity. Qed.

Lemma settings_set_sphericalDelta v c : settings (set_sphericalDelta v c) = settings c.
Proof. reflexivity. Qed.

Lemma settings_set_scale v c : settings (set_scale v c) = settings c.
Proof. reflexivity. Qed.

Lemma settings_set_panOffset v c : settings (set_panOffset v c) = settings c.
Proof. reflexivity. Qed.

Lemma settings_set_zoomChanged v c : settings (set_zoomChanged v c) = settings c.
Proof. reflexivity. Qed.

Lemma settings_set_rotateStart v c : settings (set_rotateStart v c) = settings c.
Proof. reflexivity. Qed.

Lemma settings_set_panStart v c : settings (set_panStart v c) = settings c.
Proof. reflexivity. Qed.

Lemma settings_set_dollyStart v c : settings (set_dollyStart v c) = settings c.
Proof. reflexivity. Qed.

Lemma settings_set_pointers v c : settings (set_pointers v c) = settings c.
Proof. reflexivity. Qed.

Lemma settings_set_pointerPositions v c : settings (set_pointerPositions v c) = settings c.
Proof. reflexivity. Qed.

Lemma settings_set_state v c : settings (set_state v c) = settings c.
Proof. reflexivity. Qed.

Lemma settings_set_dispatched v c : settings (set_dispatched v c) = settings c.
Proof. reflexivity. Qed.

Lemma settings_dispatchEvent e c : settings (dispatchEvent e c) = settings c.
Proof. reflexivity. Qed.

Lemma settings_rotateLeft a c : settings (rotateLeft a c) = settings c.
Proof. reflexivity. Qed.

Lemma settings_rotateUp a c : settings (rotateUp a c) = settings c.
Proof. reflexivity. Qed.

Ltac settings_step :=
  first
    [ rewrite settings_set_object | rewrite settings_set_domElement
    | rewrite settings_set_target | rewrite settings_set_enableZoom
    | rewrite settings_set_enablePan | rewrite settings_set_spherical
    | rewrite settings_set_sphericalDelta | rewrite settings_set_scale
    | rewrite settings_set_panOffset | rewrite settings_set_zoomChanged
    | rewrite settings_set_rotateStart | rewrite settings_set_panStart
    | rewrite settings_set_dollyStart | rewrite settings_set_pointers
    | rewrite settings_set_pointerPositions | rewrite settings_set_state
    | rewrite settings_set_dispatched | rewrite settings_dispatchEvent
    | rewrite settings_rotateLeft | rewrite settings_rotateUp ].

(** Peels assignments and case distinctions off [settings (...)]. *)
Ltac settings_tac :=
  cbv zeta;
  repeat first
    [ settings_step
    | match goal with
      | |- context [settings (match ?x with _ => _ end)] => destruct x
      end ];
  try reflexivity.

Lemma placeCamera_settings qi c : settings (placeCamera qi c) = settings c.
Proof. unfold placeCamera. settings_tac. Qed.

Lemma restrictSpherical_settings c : settings (restrictSpherical c) = settings c.
Proof. unfold restrictSpherical. settings_tac. Qed.

Lemma integrateRotation_settings q c :
  settings (integrateRotation q c) = settings c.
Proof. unfold integrateRotation. settings_tac. Qed.

Lemma update_settings c : settings (snd (update c)) = settings c.
Proof.
  rewrite update_unfold. cbv zeta.
  rewrite <- (integrateRotation_settings (quatOf c) c).
  rewrite <- (restrictSpherical_settings (integrateRotation (quatOf c) c)).
  generalize (restrictSpherical (integrateRotation (quatOf c) c)).
  generalize (Quaternion.invert (quatOf c)). intros qi c2.
  rewrite <- (placeCamera_settings qi c2).
  generalize (placeCamera qi c2). intros c3.
  match goal with |- context [if ?b then _ else _] => destruct b end;
    reflexivity.
Qed.

Lemma panLeft_settings d m c : settings (panLeft d m c) = settings c.
Proof. unfold panLeft. settings_tac. Qed.

Lemma panUp_settings d m c : settings (panUp d m c) = settings c.
Proof. unfold panUp. settings_tac. Qed.

Lemma pan_settings dx dy c : settings (pan dx dy c) = settings c.
Proof.
  unfold pan. destruct (Camera.kind (object c)); cbv zeta;
    rewrite ?panUp_settings, ?panLeft_settings; settings_tac.
Qed.

Lemma dollyIn_settings s c : settings (dollyIn s c) = settings c.
Proof. unfold dollyIn. settings_tac. Qed.

Lemma dollyOut_settings s c : settings (dollyOut s c) = settings c.
Proof. unfold dollyOut. settings_tac. Qed.

Lemma onMouseDown_settings e c : settings (onMouseDown e c) = settings c.
Proof.
  unfold onMouseDown, handleMouseDownDolly, handleMouseDownPan,
    handleMouseDownRotate.
  settings_tac.
Qed.

Lemma handleMouseMoveRotate_settings e c :
  settings (handleMouseMoveRotate e c) = settings c.
Proof.
  unfold handleMouseMoveRotate. cbv zeta. rewrite update_settings.
  settings_tac.
Qed.

Lemma handleMouseMoveDolly_settings e c :
  settings (handleMouseMoveDolly e c) = settings c.
Proof.
  unfold handleMouseMoveDolly. cbv zeta. rewrite update_settings.
  settings_tac; rewrite ?dollyIn_settings, ?dollyOut_settings; reflexivity.
Qed.

Lemma handleMouseMovePan_settings e c :
  settings (handleMouseMovePan e c) = settings c.
Proof.
  unfold handleMouseMovePan. cbv zeta. rewrite update_settings.
  settings_tac. apply pan_settings.
Qed.

Lemma onMouseMove_settings e c : settings (onMouseMove e c) = settings c.
Proof.
  unfold onMouseMove.
  destruct (state c); try reflexivity;
    match goal with |- context [if ?b then _ else _] => destruct b end;
    auto using handleMouseMoveRotate_settings, handleMouseMoveDolly_settings,
      handleMouseMovePan_settings.
Qed.

Lemma trackPointer_settings e c : settings (trackPointer e c) = settings c.
Proof. reflexivity. Qed.

Lemma andThen_settings o k c0 :
  settings (after o) = settings c0 ->
  (forall c, settings (after (k c)) = settings c) ->
  settings (after (andThen o k)) = settings c0.
Proof.
  intros Ho Hk. destruct o as [c|c]; cbn [andThen after] in *;
    [rewrite Hk|]; exact Ho.
Qed.

Lemma handleTouchStartRotate_settings c :
  settings (after (handleTouchStartRotate c)) = settings c.
Proof.
  unfold handleTouchStartRotate.
  repeat match goal with
         | |- context [match ?x with _ => _ end] => destruct x
         end; cbn [after]; settings_tac.
Qed.

Lemma handleTouchStartDollyPan_settings c :
  settings (after (handleTouchStartDollyPan c)) = settings c.
Proof.
  unfold handleTouchStartDollyPan.
  destruct (pointers c !! 0%nat) as [p0|];
    [destruct (pointers c !! 1%nat) as [p1|]|];
    try (destruct (enableZoom c || enablePan c); reflexivity).
  cbv zeta. cbn [after]. settings_tac.
Qed.

Lemma onTouchStart_settings e c :
  settings (after (onTouchStart e c)) = settings c.
Proof.
  unfold onTouchStart. cbv zeta.
  rewrite <- (trackPointer_settings e c).
  generalize (trackPointer e c). intros c'.
  destruct (length (pointers c')) as [|[|[|n]]]; try reflexivity.
  - destruct (negb (enableRotate c')); [reflexivity|].
    apply andThen_settings; [apply handleTouchStartRotate_settings|].
    intros c1. reflexivity.
  - destruct (negb (enableZoom c') && negb (enablePan c')); [reflexivity|].
    apply andThen_settings; [apply handleTouchStartDollyPan_settings|].
    intros c1. reflexivity.
Qed.

Lemma touchMoveDolly_settings e c :
  settings (after (touchMoveDolly e c)) = settings c.
Proof.
  unfold touchMoveDolly.
  destruct (enableZoom c); [|reflexivity].
  destruct (getSecondPointerPosition e c); [|reflexivity].
  cbv zeta. cbn [after]. rewrite settings_set_dollyStart.
  apply dollyOut_settings.
Qed.

Lemma touchMovePan_settings e c :
  settings (after (touchMovePan e c)) = settings c.
Proof.
  unfold touchMovePan.
  destruct (enablePan c); [|reflexivity].
  destruct (getSecondPointerPosition e c); [|reflexivity].
  cbv zeta. cbn [after]. rewrite settings_set_panStart.
  apply pan_settings.
Qed.

Lemma handleTouchMoveRotate_settings e c :
  settings (after (handleTouchMoveRotate e c)) = settings c.
Proof.
  unfold handleTouchMoveRotate. cbv zeta.
  destruct (length (pointers c) =? 1)%nat;
    [|destruct (getSecondPointerPosition e c); [|reflexivity]];
    cbn [after]; settings_tac.
Qed.

Lemma onTouchMove_settings e c :
  settings (after (onTouchMove e c)) = settings c.
Proof.
  unfold onTouchMove, handleTouchMoveDollyPan. cbv zeta.
  rewrite <- (trackPointer_settings e c).
  generalize (trackPointer e c). intros c'.
  destruct (state c'); try reflexivity.
  - destruct (negb (enableRotate c')); [reflexivity|].
    apply andThen_settings; [apply handleTouchMoveRotate_settings|].
    intros c1. cbn [after]. apply update_settings.
  - destruct (negb (enableZoom c') && negb (enablePan c')); [reflexivity|].
    apply andThen_settings.
    + apply andThen_settings; [apply touchMoveDolly_settings|].
      apply touchMovePan_settings.
    + intros c1. cbn [after]. apply update_settings.
Qed.

Lemma onMouseWheel_settings e c : settings (onMouseWheel e c) = settings c.
Proof.
  unfold onMouseWheel.
  destruct (negb (enabled c) || negb (enableZoom c)); [reflexivity|].
  cbv zeta. rewrite update_settings.
  destruct (Rlt_dec (deltaY e) 0);
    [apply dollyIn_settings | apply dollyOut_settings].
Qed.

Lemma addPointer_settings e c : settings (addPointer e c) = settings c.
Proof. reflexivity. Qed.

Lemma removePointer_settings e c : settings (removePointer e c) = settings c.
Proof. reflexivity. Qed.

Lemma onPointerDown_settings e c :
  settings (after (onPointerDown e c)) = settings c.
Proof.
  unfold onPointerDown.
  destruct (negb (enabled c)); [reflexivity|]. cbv zeta.
  match goal with |- context [addPointer e ?x] =>
    assert (Hx : settings (addPointer e x) = settings c)
      by (rewrite addPointer_settings; settings_tac);
    revert Hx; generalize (addPointer e x) end.
  intros c' Hx. rewrite <- Hx.
  destruct (isTouch e); [apply onTouchStart_settings|].
  cbn [after]. apply onMouseDown_settings.
Qed.

Lemma onPointerMove_settings e c :
  settings (after (onPointerMove e c)) = settings c.
Proof.
  unfold onPointerMove.
  destruct (negb (enabled c)); [reflexivity|].
  destruct (isTouch e); [apply onTouchMove_settings|].
  cbn [after]. apply onMouseMove_settings.
Qed.

Lemma onPointerUp_settings e c : settings (onPointerUp e c) = settings c.
Proof.
  unfold onPointerUp. cbv zeta. rewrite settings_set_state.
  rewrite settings_dispatchEvent.
  match goal with |- context [if ?b then _ else _] => destruct b end;
    rewrite ?settings_set_domElement; apply removePointer_settings.
Qed.

Lemma fire_settings ev c : settings (fire ev c) = settings c.
Proof.
  unfold fire. destruct (bool_decide _); [|reflexivity].
  destruct ev as [|e|e|e|e|e]; try reflexivity.
  - apply onPointerDown_settings.
  - apply onPointerMove_settings.
  - apply onPointerUp_settings.
  - apply onMouseWheel_settings.
Qed.

Lemma perform_settings a c : settings (perform a c) = settings c.
Proof.
  destruct a; cbn [perform];
    auto using fire_settings, update_settings, dollyIn_settings,
      dollyOut_settings, pan_settings.
Qed.

Lemma performAll_settings acts : forall c,
  settings (performAll acts c) = settings c.
Proof.
  induction acts as [|a acts IH]; intros c; [reflexivity|].
  unfold performAll in *. cbn [fold_left].
  rewrite IH. apply perform_settings.
Qed.

(** ** Radius and polar angle after [update] *)

Lemma restrictSpherical_phi c :
  EPS <= Spherical.phi (spherical (restrictSpherical c)) <= PI - EPS.
Proof.
  unfold restrictSpherical. fields. fold EPS.
  pose proof PI_gt_3. pose proof EPS_pos.
  assert (EPS < 1) by (unfold EPS; lra).
  split.
  - apply Rmax_l.
  - apply Rmax_lub; [lra | apply Rmin_l].
Qed.


Lemma settings_limits c c' :
  settings c' = settings c ->
  minDistance c' = minDistance c /\ maxDistance c' = maxDistance c
  /\ minPolarAngle c' = minPolarAngle c /\ maxPolarAngle c' = maxPolarAngle c.
Proof. unfold settings. intros H. inversion H. auto. Qed.


(** C7.  With the polar limits at exactly [0] and [PI], after any
    sequence of actions the polar angle that [update] leaves is neither
    [0] nor [PI]: it is the integrated angle brought into
    [[EPS, PI - EPS]]. *)
Theorem polar_angle_off_the_poles (c : OrbitControls) (acts : list Action) :
  minPolarAngle c = 0 -> maxPolarAngle c = PI ->
  let c1 := performAll acts c in
  let c' := snd (update c1) in
  getPolarAngle c' <> 0 /\ getPolarAngle c' <> PI
  /\ getPolarAngle c'
     = Rmax EPS (Rmin (PI - EPS)
         (Rmax 0 (Rmin PI
            (Spherical.phi (spherical (integrateRotation (quatOf c1) c1)))))).
Proof.
  intros Hmin Hmax c1 c'. subst c'. unfold getPolarAngle.
  rewrite update_spherical.
  set (c2 := integrateRotation (quatOf c1) c1).
  pose proof (restrictSpherical_phi c2) as H.
  pose proof EPS_pos.
  destruct (settings_limits c c1 (performAll_settings acts c))
    as (_ & _ & Hmin1 & Hmax1).
  destruct (settings_limits c1 c2 (integrateRotation_settings _ c1))
    as (_ & _ & Hmin2 & Hmax2).
  repeat split; try lra.
  unfold restrictSpherical. fields.
  rewrite Hmin2, Hmax2, Hmin1, Hmax1, Hmin, Hmax. reflexivity.
Qed.

(** ** A camera at rest on the z axis *)

Lemma Vector3_ext (a b : Vector3.t) :
  Vector3.x a = Vector3.x b -> Vector3.y a = Vector3.y b ->
  Vector3.z a = Vector3.z b -> a = b.
Proof. destruct a, b; cbn; intros; subst; reflexivity. Qed.

Lemma quat_upright :
  Quaternion_setFromUnitVectors (Vector3.mk 0 1 0) (Vector3.mk 0 1 0)
  = Quaternion.new.
Proof.
  unfold Quaternion_setFromUnitVectors, Vector3.dot. cbn [Vector3.x Vector3.y Vector3.z].
  assert (HE : Number_EPSILON <= 1).
  { unfold Number_EPSILON.
    apply Rle_trans with (/ 1); [|rewrite Rinv_1; lra].
    apply Rinv_le_contravar; [lra|]. apply pow_R1_Rle. lra. }
  destruct (Rlt_dec (0 * 0 + 1 * 1 + 0 * 0 + 1) Number_EPSILON) as [H|H]; [lra|].
  unfold Quaternion.normalize, Quaternion.length.
  cbn [Quaternion.x Quaternion.y Quaternion.z Quaternion.w].
  replace ((1 * 0 - 0 * 1) * (1 * 0 - 0 * 1) + (0 * 0 - 0 * 0) * (0 * 0 - 0 * 0)
           + (0 * 1 - 1 * 0) * (0 * 1 - 1 * 0)
           + (0 * 0 + 1 * 1 + 0 * 0 + 1) * (0 * 0 + 1 * 1 + 0 * 0 + 1))
    with (2 * 2) by ring.
  rewrite sqrt_square by lra.
  destruct (Req_dec_T 2 0) as [H2|H2]; [lra|].
  unfold Quaternion.new. f_equal; field.
Qed.

Lemma applyQuaternion_identity v :
  Vector3.applyQuaternion v Quaternion.new = v.
Proof.
  unfold Vector3.applyQuaternion, Quaternion.new.
  cbn [Quaternion.x Quaternion.y Quaternion.z Quaternion.w].
  apply Vector3_ext; cbn [Vector3.x Vector3.y Vector3.z]; ring.
Qed.

Lemma applyQuaternion_identity_inverse v :
  Vector3.applyQuaternion v (Quaternion.invert Quaternion.new) = v.
Proof.
  unfold Vector3.applyQuaternion, Quaternion.invert, Quaternion.new.
  cbn [Quaternion.x Quaternion.y Quaternion.z Quaternion.w].
  apply Vector3_ext; cbn [Vector3.x Vector3.y Vector3.z]; ring.
Qed.

Lemma spherical_on_axis d :
  0 < d ->
  Spherical_setFromVector3 (Vector3.mk 0 0 d) = Spherical.mk d (PI / 2) 0.
Proof.
  intros Hd. unfold Spherical_setFromVector3, Spherical.setFromCartesianCoords.
  cbn [Vector3.x Vector3.y Vector3.z].
  replace (0 * 0 + 0 * 0 + d * d) with (d * d) by ring.
  rewrite sqrt_square by lra.
  destruct (Req_dec_T d 0) as [H|H]; [lra|].
  f_equal.
  - unfold clamp. replace (0 / d) with 0 by (field; lra).
    rewrite Rmin_right by lra. rewrite Rmax_right by lra. apply acos_0.
  - unfold Math_atan2. destruct (Rlt_dec 0 d); [|lra].
    replace (0 / d) with 0 by (field; lra). apply atan_0.
Qed.

Lemma vector_on_axis d :
  Vector3.setFromSpherical (Spherical.mk d (PI / 2) 0) = Vector3.mk 0 0 d.
Proof.
  unfold Vector3.setFromSpherical.
  cbn [Spherical.radius Spherical.phi Spherical.theta].
  rewrite sin_PI2, cos_PI2, sin_0, cos_0. f_equal; ring.
Qed.

(** ** The fields after [update] *)

Lemma update_fst c :
  fst (update c)
  = zoomChanged (placed c)
    || Rgtb (Vector3.distanceToSquared Vector3.new
               (Camera.position (object (placed c)))) EPS
    || Rgtb (8 * (1 - Quaternion.dot Quaternion.new
                        (Camera.quaternion (object (placed c))))) EPS.
Proof.
  rewrite update_unfold. cbv zeta. fold (placed c). generalize (placed c).
  intros p.
  match goal with |- context [if ?b then _ else _] => destruct b end;
    reflexivity.
Qed.

Lemma update_snd c :
  snd (update c)
  = if fst (update c)
    then set_zoomChanged false (dispatchEvent change (placed c))
    else placed c.
Proof.
  rewrite update_unfold. cbv zeta. fold (placed c). generalize (placed c).
  intros p.
  match goal with |- context [if ?b then _ else _] => destruct b end;
    reflexivity.
Qed.

(** Fields that [update] writes only through [placed]. *)
Lemma update_placed {A} (f : OrbitControls -> A) c :
  (forall v x, f (set_zoomChanged v x) = f x) ->
  (forall e x, f (dispatchEvent e x) = f x) ->
  f (snd (update c)) = f (placed c).
Proof.
  intros H1 H2. rewrite update_snd.
  destruct (fst (update c)); [rewrite H1, H2|]; reflexivity.
Qed.

Lemma integrateRotation_kept q c : kept (integrateRotation q c) = kept c.
Proof.
  unfold integrateRotation. cbv zeta.
  destruct (autoRotate c && STATE_eqb (state c) NONE) eqn:Ea;
    destruct (enableDamping c) eqn:Ed.
  all: repeat match goal with
              | |- context [if ?b then _ else _] =>
                  first [ change b with (enableDamping c); rewrite Ed
                        | change b with
                            (autoRotate c && STATE_eqb (state c) NONE);
                          rewrite Ea ]
              end.
  all: reflexivity.
Qed.

Lemma integrateRotation_carried q c :
  carried (integrateRotation q c) = carried c.
Proof.
  unfold integrateRotation. cbv zeta.
  destruct (autoRotate c && STATE_eqb (state c) NONE) eqn:Ea;
    destruct (enableDamping c) eqn:Ed.
  all: repeat match goal with
              | |- context [if ?b then _ else _] =>
                  first [ change b with (enableDamping c); rewrite Ed
                        | change b with
                            (autoRotate c && STATE_eqb (state c) NONE);
                          rewrite Ea ]
              end.
  all: reflexivity.
Qed.

Lemma restrictSpherical_kept c : kept (restrictSpherical c) = kept c.
Proof. reflexivity. Qed.

Lemma restrictSpherical_carried c : carried (restrictSpherical c) = carried c.
Proof. reflexivity. Qed.

(** [placeCamera] with its two tests of [enableDamping] decided. *)
Lemma placeCamera_undamped qi c :
  enableDamping c = false ->
  placeCamera qi c
  = let t := Vector3.add (target c) (panOffset c) in
    let p :=
      Vector3.add t
        (Vector3.applyQuaternion (Vector3.setFromSpherical (spherical c)) qi) in
    set_scale 1
      (set_panOffset (Vector3.mk 0 0 0)
         (set_sphericalDelta (Spherical.mk 0 0 0)
            (set_object
               (Object3D_lookAt (Camera.set_position p (object c)) t)
               (set_target t c)))).
Proof.
  intros E. unfold placeCamera. cbv zeta. rewrite E.
  change (enableDamping (set_object ?a (set_object ?b (set_target ?t c))))
    with (enableDamping c).
  rewrite E. reflexivity.
Qed.

Lemma placeCamera_damped qi c :
  enableDamping c = true ->
  placeCamera qi c
  = let t :=
      Vector3.addScaledVector (target c) (panOffset c) (dampingFactor c) in
    let p :=
      Vector3.add t
        (Vector3.applyQuaternion (Vector3.setFromSpherical (spherical c)) qi) in
    let d := sphericalDelta c in
    set_scale 1
      (set_panOffset
         (Vector3.multiplyScalar (panOffset c) (1 - dampingFactor c))
         (set_sphericalDelta
            (Spherical.mk (Spherical.radius d)
               (Spherical.phi d * (1 - dampingFactor c))
               (Spherical.theta d * (1 - dampingFactor c)))
            (set_object
               (Object3D_lookAt (Camera.set_position p (object c)) t)
               (set_target t c)))).
Proof.
  intros E. unfold placeCamera. cbv zeta. rewrite E.
  change (enableDamping (set_object ?a (set_object ?b (set_target ?t c))))
    with (enableDamping c).
  rewrite E. reflexivity.
Qed.

Ltac placeCamera_cases qi c :=
  let E := fresh "E" in
  destruct (enableDamping c) eqn:E;
  [ rewrite (placeCamera_damped qi c E)
  | rewrite (placeCamera_undamped qi c E) ];
  cbv zeta.

Lemma placeCamera_kept qi c : kept (placeCamera qi c) = kept c.
Proof.
  placeCamera_cases qi c; reflexivity.
Qed.

Lemma placeCamera_target qi c :
  target (placeCamera qi c)
  = if enableDamping c
    then Vector3.addScaledVector (target c) (panOffset c) (dampingFactor c)
    else Vector3.add (target c) (panOffset c).
Proof. placeCamera_cases qi c; reflexivity. Qed.

Lemma placeCamera_position qi c :
  Camera.position (object (placeCamera qi c))
  = Vector3.add (target (placeCamera qi c))
      (Vector3.applyQuaternion (Vector3.setFromSpherical (spherical c)) qi).
Proof. placeCamera_cases qi c; reflexivity. Qed.

Lemma placeCamera_quaternion qi c :
  Camera.quaternion (object (placeCamera qi c))
  = lookAtQuaternion (Camera.position (object (placeCamera qi c)))
      (target (placeCamera qi c)) (Camera.up (object c)).
Proof. placeCamera_cases qi c; reflexivity. Qed.

Lemma placeCamera_panOffset qi c :
  panOffset (placeCamera qi c)
  = if enableDamping c
    then Vector3.multiplyScalar (panOffset c) (1 - dampingFactor c)
    else Vector3.mk 0 0 0.
Proof. placeCamera_cases qi c; reflexivity. Qed.

Lemma placeCamera_sphericalDelta qi c :
  sphericalDelta (placeCamera qi c)
  = if enableDamping c
    then Spherical.mk (Spherical.radius (sphericalDelta c))
           (Spherical.phi (sphericalDelta c) * (1 - dampingFactor c))
           (Spherical.theta (sphericalDelta c) * (1 - dampingFactor c))
    else Spherical.mk 0 0 0.
Proof. placeCamera_cases qi c; reflexivity. Qed.

Lemma placeCamera_scale qi c : scale (placeCamera qi c) = 1.
Proof. placeCamera_cases qi c; reflexivity. Qed.

(** The same for the whole of [placed]. *)
Lemma placed_kept c : kept (placed c) = kept c.
Proof.
  unfold placed.
  rewrite placeCamera_kept, restrictSpherical_kept, integrateRotation_kept.
  reflexivity.
Qed.

Lemma kept_fields c c' :
  kept c' = kept c ->
  settings c' = settings c
  /\ autoRotate c' = autoRotate c
  /\ enableDamping c' = enableDamping c
  /\ dampingFactor c' = dampingFactor c
  /\ minAzimuthAngle c' = minAzimuthAngle c
  /\ maxAzimuthAngle c' = maxAzimuthAngle c
  /\ state c' = state c
  /\ Camera.up (object c') = Camera.up (object c)
  /\ Camera.kind (object c') = Camera.kind (object c)
  /\ Camera.zoom (object c') = Camera.zoom (object c)
  /\ dispatched c' = dispatched c
  /\ zoomChanged c' = zoomChanged c.
Proof.
  unfold kept. intros H. injection H. intros.
  repeat split; try assumption. unfold settings. congruence.
Qed.

Lemma carried_fields c c' :
  carried c' = carried c ->
  target c' = target c /\ panOffset c' = panOffset c
  /\ object c' = object c /\ scale c' = scale c.
Proof.
  unfold carried. intros H. injection H as H1 H2 H3 H4.
  repeat split; assumption.
Qed.

Lemma restricted_kept c : kept (restricted c) = kept c.
Proof.
  unfold restricted.
  rewrite restrictSpherical_kept, integrateRotation_kept. reflexivity.
Qed.

Lemma restricted_carried c : carried (restricted c) = carried c.
Proof.
  unfold restricted.
  rewrite restrictSpherical_carried, integrateRotation_carried. reflexivity.
Qed.

Lemma placed_restricted c :
  placed c = placeCamera (Quaternion.invert (quatOf c)) (restricted c).
Proof. reflexivity. Qed.

Lemma placed_spherical c : spherical (placed c) = spherical (restricted c).
Proof. rewrite placed_restricted. apply placeCamera_spherical. Qed.

Lemma placed_target c :
  target (placed c)
  = if enableDamping c
    then Vector3.addScaledVector (target c) (panOffset c) (dampingFactor c)
    else Vector3.add (target c) (panOffset c).
Proof.
  rewrite placed_restricted, placeCamera_target.
  destruct (kept_fields _ _ (restricted_kept c)) as (_ & _ & -> & -> & _).
  destruct (carried_fields _ _ (restricted_carried c)) as (-> & -> & _).
  reflexivity.
Qed.

Lemma placed_position c :
  Camera.position (object (placed c))
  = Vector3.add (target (placed c))
      (Vector3.applyQuaternion (Vector3.setFromSpherical (spherical (placed c)))
         (Quaternion.invert (quatOf c))).
Proof.
  rewrite placed_spherical, placed_restricted. apply placeCamera_position.
Qed.


Lemma placed_up c : Camera.up (object (placed c)) = Camera.up (object c).
Proof. apply (kept_fields _ _ (placed_kept c)). Qed.

Lemma placed_kind c : Camera.kind (object (placed c)) = Camera.kind (object c).
Proof. apply (kept_fields _ _ (placed_kept c)). Qed.

Lemma placed_scale c : scale (placed c) = 1.
Proof. rewrite placed_restricted. apply placeCamera_scale. Qed.

Lemma placed_settings c : settings (placed c) = settings c.
Proof. apply (kept_fields _ _ (placed_kept c)). Qed.

Lemma placed_panOffset c :
  panOffset (placed c)
  = if enableDamping c
    then Vector3.multiplyScalar (panOffset c) (1 - dampingFactor c)
    else Vector3.mk 0 0 0.
Proof.
  rewrite placed_restricted, placeCamera_panOffset.
  destruct (kept_fields _ _ (restricted_kept c)) as (_ & _ & -> & -> & _).
  destruct (carried_fields _ _ (restricted_carried c)) as (_ & -> & _).
  reflexivity.
Qed.

Lemma placed_sphericalDelta_undamped c :
  enableDamping c = false -> sphericalDelta (placed c) = Spherical.mk 0 0 0.
Proof.
  intros H. rewrite placed_restricted, placeCamera_sphericalDelta.
  destruct (kept_fields _ _ (restricted_kept c)) as (_ & _ & -> & _).
  rewrite H. reflexivity.
Qed.

Lemma update_dispatched c :
  dispatched (snd (update c))
  = if fst (update c) then dispatched c ++ [change] else dispatched c.
Proof.
  rewrite update_snd.
  destruct (kept_fields _ _ (placed_kept c))
    as (_ & _ & _ & _ & _ & _ & _ & _ & _ & _ & <- & _).
  generalize (placed c). intros p.
  destruct (fst (update c)); reflexivity.
Qed.

Lemma update_zoomChanged c : zoomChanged (snd (update c)) = false.
Proof.
  rewrite update_snd. destruct (fst (update c)) eqn:E.
  - generalize (placed c). intros p. reflexivity.
  - rewrite update_fst in E.
    destruct (zoomChanged (placed c)); [discriminate|reflexivity].
Qed.

(** The angles [update] integrates when nothing rotates automatically. *)
Lemma integrateRotation_spherical q c :
  autoRotate c = false ->
  let s0 :=
    Spherical_setFromVector3
      (Vector3.applyQuaternion
         (Vector3.sub (Camera.position (object c)) (target c)) q) in
  let k := if enableDamping c then dampingFactor c else 1 in
  spherical (integrateRotation q c)
  = Spherical.mk (Spherical.radius s0)
      (Spherical.phi s0 + Spherical.phi (sphericalDelta c) * k)
      (Spherical.theta s0 + Spherical.theta (sphericalDelta c) * k).
Proof.
  intros H. unfold integrateRotation. cbv zeta.
  change (autoRotate (set_spherical ?s c)) with (autoRotate c).
  rewrite H. cbn [andb].
  change (enableDamping (set_spherical ?s c)) with (enableDamping c).
  destruct (enableDamping c); cbn [spherical set_spherical sphericalDelta
    dampingFactor Spherical.radius Spherical.phi Spherical.theta];
    [reflexivity|].
  f_equal; ring.
Qed.

(** The restrictions on a controller whose angles and radius already
    satisfy them. *)
Lemma restrictSpherical_spherical c :
  spherical (restrictSpherical c)
  = Spherical.mk
      (Rmax (minDistance c)
         (min_upper (maxDistance c) (Spherical.radius (spherical c) * scale c)))
      (Rmax EPS (Rmin (PI - EPS)
         (Rmax (minPolarAngle c)
            (Rmin (maxPolarAngle c) (Spherical.phi (spherical c))))))
      (restrictTheta (minAzimuthAngle c) (maxAzimuthAngle c)
         (Spherical.theta (spherical c))).
Proof. reflexivity. Qed.

Lemma resting_placed d c :
  0 < d -> resting d c ->
  spherical (placed c) = Spherical.mk d (PI / 2) 0
  /\ target (placed c) = Vector3.mk 0 0 0
  /\ Camera.position (object (placed c)) = Vector3.mk 0 0 d.
Proof.
  intros Hd (Hpos & Hup & Htgt & Hauto & Hdamp & Hdt & Hdp & Hpan & Hscale
             & Hminaz & Hpol & Hmin & Hmax).
  assert (Hq : quatOf c = Quaternion.new).
  { unfold quatOf. rewrite Hup. apply quat_upright. }
  assert (Hs : spherical (placed c) = Spherical.mk d (PI / 2) 0).
  { rewrite placed_spherical. unfold restricted.
    rewrite restrictSpherical_spherical.
    destruct (kept_fields _ _ (integrateRotation_kept (quatOf c) c))
      as (Hset & _ & _ & _ & -> & _).
    destruct (settings_limits _ _ Hset) as (-> & -> & -> & ->).
    destruct (carried_fields _ _ (integrateRotation_carried (quatOf c) c))
      as (_ & _ & _ & ->).
    rewrite (integrateRotation_spherical _ c Hauto). cbv zeta.
    rewrite Hq, applyQuaternion_identity, Hpos, Htgt, Hdt, Hdp, Hminaz,
      Hscale.
    replace (Vector3.sub (Vector3.mk 0 0 d) (Vector3.mk 0 0 0))
      with (Vector3.mk 0 0 d)
      by (apply Vector3_ext; cbn; ring).
    rewrite (spherical_on_axis d Hd).
    cbn [Spherical.radius Spherical.phi Spherical.theta restrictTheta].
    pose proof PI_gt_3. pose proof EPS_pos.
    assert (EPS < 1) by (unfold EPS; lra).
    replace (PI / 2 + 0 * (if enableDamping c then dampingFactor c else 1))
      with (PI / 2) by ring.
    replace (0 + 0 * (if enableDamping c then dampingFactor c else 1))
      with 0 by ring.
    rewrite (Rmin_right (maxPolarAngle c)) by lra.
    rewrite (Rmax_right (minPolarAngle c)) by lra.
    rewrite (Rmin_right (PI - EPS)) by lra.
    rewrite (Rmax_right EPS) by lra.
    replace (d * 1) with d by ring.
    f_equal.
    destruct (maxDistance c) as [m|]; cbn [min_upper le_upper] in *.
    - rewrite Rmin_right by lra. apply Rmax_right. lra.
    - apply Rmax_right. lra. }
  assert (Ht : target (placed c) = Vector3.mk 0 0 0).
  { rewrite placed_target, Hdamp, Htgt, Hpan.
    apply Vector3_ext; cbn; ring. }
  repeat split; [exact Hs | exact Ht |].
  rewrite placed_position, Hs, Ht, Hq, applyQuaternion_identity_inverse,
    vector_on_axis.
  apply Vector3_ext; cbn; ring.
Qed.

(** From rest, [update] leaves the controller at rest, and when the
    camera is more than a thousandth from the origin it reports a change
    all the same. *)
Lemma resting_update d c :
  0 < d -> resting d c ->
  resting d (snd (update c))
  /\ (EPS < d * d ->
      fst (update c) = true
      /\ dispatched (snd (update c)) = dispatched c ++ [change]).
Proof.
  intros Hd Hr.
  destruct (resting_placed d c Hd Hr) as (Hs & Ht & Hp).
  destruct Hr as (Hpos & Hup & Htgt & Hauto & Hdamp & Hdt & Hdp & Hpan
                  & Hscale & Hminaz & Hpol & Hmin & Hmax).
  destruct (kept_fields _ _ (placed_kept c))
    as (Hset & F1 & F2 & F3 & F4 & F5 & F6 & F7 & _).
  destruct (settings_limits _ _ Hset) as (E1 & E2 & E3 & E4).
  split.
  - unfold resting.
    rewrite !(update_placed (fun x => Camera.position (object x)))
      by reflexivity.
    rewrite !(update_placed (fun x => Camera.up (object x))) by reflexivity.
    rewrite !(update_placed target) by reflexivity.
    rewrite !(update_placed autoRotate) by reflexivity.
    rewrite !(update_placed enableDamping) by reflexivity.
    rewrite !(update_placed sphericalDelta) by reflexivity.
    rewrite !(update_placed panOffset) by reflexivity.
    rewrite !(update_placed scale) by reflexivity.
    rewrite !(update_placed minAzimuthAngle) by reflexivity.
    rewrite !(update_placed minPolarAngle) by reflexivity.
    rewrite !(update_placed maxPolarAngle) by reflexivity.
    rewrite !(update_placed minDistance) by reflexivity.
    rewrite !(update_placed maxDistance) by reflexivity.
    rewrite Hp, Ht, F7, Hup, F1, F2, F4, E1, E2, E3, E4,
      placed_scale, placed_panOffset, Hdamp,
      (placed_sphericalDelta_undamped c Hdamp).
    cbn [Spherical.theta Spherical.phi].
    repeat split; try assumption; try reflexivity; lra.
  - intros Hfar.
    assert (Hf : fst (update c) = true).
    { rewrite update_fst, Hp.
      rewrite (Rgtb_true (Vector3.distanceToSquared _ _)).
      - apply orb_true_iff. left. apply orb_true_r.
      - unfold Vector3.distanceToSquared, Vector3.new.
        cbn [Vector3.x Vector3.y Vector3.z]. lra. }
    split; [exact Hf|]. rewrite update_dispatched, Hf. reflexivity.
Qed.

Lemma construct_unfold o e :
  construct o e = snd (update (initialFields o e)).
Proof. reflexivity. Qed.



Lemma sampleFields_resting : resting 5 sampleFields.
Proof.
  unfold resting, sampleFields, initialFields, sampleCamera. fields.
  cbn [Spherical.new Vector3.new le_upper].
  pose proof PI_gt_3. repeat split; try reflexivity; lra.
Qed.

(** C1.  The controller [new OrbitControls(sampleCamera, sampleElement)]
    (camera five units from the target, defaults otherwise) has nothing
    pending once it is built; yet the next call of [update] returns
    [true] and dispatches a change, and so does the call after that.
    The cause: every call compares the camera with a fresh [lastPosition]
    at the origin. *)
Theorem update_twice_reports_change_twice :
  let c0 := construct sampleCamera sampleElement in
  let c1 := snd (update c0) in
  let c2 := snd (update c1) in
  (sphericalDelta c1 = Spherical.mk 0 0 0
   /\ panOffset c1 = Vector3.mk 0 0 0
   /\ scale c1 = 1
   /\ zoomChanged c1 = false)
  /\ fst (update c0) = true
  /\ fst (update c1) = true
  /\ dispatched c2 = dispatched c1 ++ [change].
Proof.
  intros c0 c1 c2.
  assert (Hfar : EPS < 5 * 5) by (unfold EPS; lra).
  assert (H5 : 0 < 5) by lra.
  pose proof (proj1 (resting_update 5 sampleFields H5 sampleFields_resting))
    as R0.
  unfold sampleFields in R0.
  rewrite <- (construct_unfold sampleCamera sampleElement) in R0.
  fold c0 in R0. clearbody c0.
  destruct (resting_update 5 c0 H5 R0) as [R1 C1].
  destruct (C1 Hfar) as [F1 _].
  pose proof (update_zoomChanged c0) as Z1.
  assert (D1 : sphericalDelta (snd (update c0)) = Spherical.mk 0 0 0).
  { rewrite (update_placed sphericalDelta) by reflexivity.
    apply placed_sphericalDelta_undamped. apply R0. }
  fold c1 in R1, Z1, D1. clearbody c1.
  destruct (resting_update 5 c1 H5 R1) as [_ C2].
  destruct (C2 Hfar) as [F2 D2]. fold c2 in D2. clearbody c2.
  destruct R1 as (_ & _ & _ & _ & _ & _ & _ & Hpan & Hscale & _).
  split; [split; [exact D1 | split; [exact Hpan | split;
    [exact Hscale | exact Z1]]]|].
  split; [exact F1|]. split; [exact F2 | exact D2].
Qed.

(** The rule behind it: whatever was or was not pending, an [update]
    that leaves the camera more than a thousandth from the origin
    returns [true]. *)
Lemma update_reports_change_away_from_origin c :
  EPS < Vector3.distanceToSquared Vector3.new
          (Camera.position (object (snd (update c)))) ->
  fst (update c) = true.
Proof.
  intros H. rewrite update_fst.
  rewrite (update_placed (fun x => Camera.position (object x))) in H
    by reflexivity.
  rewrite (Rgtb_true _ _ H). apply orb_true_iff. left. apply orb_true_r.
Qed.

(** ** The azimuth restriction *)

Lemma atan_nonpos t : t <= 0 -> atan t <= 0.
Proof.
  intros [H|H].
  - left. rewrite <- atan_0. apply atan_increasing. exact H.
  - subst. rewrite atan_0. lra.
Qed.

Lemma atan_pos t : 0 < t -> 0 < atan t.
Proof. intros H. rewrite <- atan_0. apply atan_increasing. exact H. Qed.

(** [Math.atan2] yields an angle in [(-PI, PI]]. *)
Lemma Math_atan2_range y x : - PI < Math_atan2 y x <= PI.
Proof.
  unfold Math_atan2. pose proof PI_gt_3.
  destruct (Rlt_dec 0 x) as [Hx|Hx].
  - pose proof (atan_bound (y / x)). lra.
  - destruct (Rlt_dec x 0) as [Hx'|Hx'].
    + pose proof (atan_bound (y / x)).
      destruct (Rle_dec 0 y) as [Hy|Hy].
      * assert (y / x <= 0).
        { unfold Rdiv. replace 0 with (y * 0) by ring.
          apply Rmult_le_compat_l; [exact Hy|].
          left. apply Rinv_lt_0_compat. exact Hx'. }
        pose proof (atan_nonpos _ H1). lra.
      * assert (0 < y / x).
        { unfold Rdiv. replace (y * / x) with ((- y) * (- / x)) by ring.
          apply Rmult_lt_0_compat; [lra|].
          pose proof (Rinv_lt_0_compat x Hx'). lra. }
        pose proof (atan_pos _ H1). lra.
    + destruct (Rlt_dec 0 y); [lra|]. destruct (Rlt_dec y 0); lra.
Qed.

Lemma setFromVector3_theta_range v :
  - PI < Spherical.theta (Spherical_setFromVector3 v) <= PI.
Proof.
  unfold Spherical_setFromVector3, Spherical.setFromCartesianCoords.
  pose proof PI_gt_3.
  destruct (Req_dec_T _ 0); cbn [Spherical.theta]; [lra|].
  apply Math_atan2_range.
Qed.

Lemma shiftLimit_inside a : - PI <= a <= PI -> shiftLimit a = a.
Proof.
  intros H. unfold shiftLimit.
  destruct (Rlt_dec a (- PI)); [lra|]. destruct (Rgt_dec a PI); [lra|].
  reflexivity.
Qed.

Lemma shiftLimit_below a : a < - PI -> shiftLimit a = a + 2 * PI.
Proof.
  intros H. unfold shiftLimit. destruct (Rlt_dec a (- PI)); [reflexivity|lra].
Qed.

Lemma shiftLimit_above a : a > PI -> shiftLimit a = a - 2 * PI.
Proof.
  intros H. unfold shiftLimit. pose proof PI_gt_3.
  destruct (Rlt_dec a (- PI)); [lra|].
  destruct (Rgt_dec a PI); [reflexivity|lra].
Qed.

(** The angle [update] hands to the restriction and the angle it
    keeps. *)
Lemma integrateRotation_theta q c :
  Spherical.theta (spherical (integrateRotation q c))
  = Spherical.theta
      (Spherical_setFromVector3
         (Vector3.applyQuaternion
            (Vector3.sub (Camera.position (object c)) (target c)) q))
    + (Spherical.theta (sphericalDelta c)
       - (if autoRotate c && STATE_eqb (state c) NONE
          then getAutoRotationAngle c else 0))
      * (if enableDamping c then dampingFactor c else 1).
Proof.
  unfold integrateRotation. cbv zeta.
  change (autoRotate (set_spherical ?s c)) with (autoRotate c).
  change (state (set_spherical ?s c)) with (state c).
  destruct (autoRotate c && STATE_eqb (state c) NONE).
  - change (enableDamping (rotateLeft ?a (set_spherical ?s c)))
      with (enableDamping c).
    destruct (enableDamping c);
      cbn [spherical set_spherical sphericalDelta set_sphericalDelta
           rotateLeft dampingFactor Spherical.radius Spherical.phi
           Spherical.theta];
      unfold getAutoRotationAngle;
      cbn [autoRotateSpeed set_spherical]; ring.
  - change (enableDamping (set_spherical ?s c)) with (enableDamping c).
    destruct (enableDamping c);
      cbn [spherical set_spherical sphericalDelta dampingFactor
           Spherical.radius Spherical.phi Spherical.theta]; ring.
Qed.

Lemma update_theta c :
  let theta0 :=
    Spherical.theta
      (Spherical_setFromVector3
         (Vector3.applyQuaternion
            (Vector3.sub (Camera.position (object c)) (target c)) (quatOf c))) in
  let turn :=
    Spherical.theta (sphericalDelta c)
    - (if autoRotate c && STATE_eqb (state c) NONE
       then getAutoRotationAngle c else 0) in
  let k := if enableDamping c then dampingFactor c else 1 in
  Spherical.theta (spherical (integrateRotation (quatOf c) c))
  = theta0 + turn * k
  /\ getAzimuthalAngle (snd (update c))
     = restrictTheta (minAzimuthAngle c) (maxAzimuthAngle c)
         (theta0 + turn * k).
Proof.
  cbv zeta. split; [apply integrateRotation_theta|].
  unfold getAzimuthalAngle. rewrite update_spherical.
  rewrite restrictSpherical_spherical. cbn [Spherical.theta].
  rewrite integrateRotation_theta.
  destruct (kept_fields _ _ (integrateRotation_kept (quatOf c) c))
    as (_ & _ & _ & _ & -> & -> & _).
  reflexivity.
Qed.

(** C3, as the code has it.  [update] does not wrap theta: the angle it
    restricts is the azimuth of the camera offset, which [Math.atan2]
    gives in [(-PI, PI]], plus the share of the pending rotation applied
    in this call; only the two limits are shifted by [2 PI]. *)
Theorem theta_restricted_unwrapped (c : OrbitControls) :
  let theta0 :=
    Spherical.theta
      (Spherical_setFromVector3
         (Vector3.applyQuaternion
            (Vector3.sub (Camera.position (object c)) (target c)) (quatOf c))) in
  let turn :=
    Spherical.theta (sphericalDelta c)
    - (if autoRotate c && STATE_eqb (state c) NONE
       then getAutoRotationAngle c else 0) in
  let k := if enableDamping c then dampingFactor c else 1 in
  - PI < theta0 <= PI
  /\ Spherical.theta (spherical (integrateRotation (quatOf c) c))
     = theta0 + turn * k
  /\ getAzimuthalAngle (snd (update c))
     = restrictTheta (minAzimuthAngle c) (maxAzimuthAngle c)
         (theta0 + turn * k).
Proof.
  cbv zeta. split; [apply setFromVector3_theta_range | apply update_theta].
Qed.

Lemma sampleTurned_theta0 :
  Spherical.theta
    (Spherical_setFromVector3
       (Vector3.applyQuaternion
          (Vector3.sub (Camera.position (object sampleTurned))
             (target sampleTurned)) (quatOf sampleTurned))) = 0.
Proof.
  unfold quatOf, sampleTurned, sampleWith, sampleCamera. fields.
  rewrite quat_upright, applyQuaternion_identity.
  replace (Vector3.sub (Vector3.mk 0 0 5) Vector3.new) with (Vector3.mk 0 0 5)
    by (apply Vector3_ext; cbn; ring).
  rewrite spherical_on_axis by lra. reflexivity.
Qed.

(** The sample controller with five radians pending, whatever the
    library's [lookAt] does. *)
Lemma sampleTurned_restriction :
  let c := sampleTurned in
  minAzimuthAngle c = Lower (-1) /\ maxAzimuthAngle c = Upper 1
  /\ Spherical.theta (spherical (integrateRotation (quatOf c) c)) = 5
  /\ ~ (- PI < Spherical.theta (spherical (integrateRotation (quatOf c) c))
        <= PI)
  /\ getAzimuthalAngle (snd (update c)) = 1
  /\ restrictTheta (Lower (-1)) (Upper 1) (5 - 2 * PI) = -1.
Proof.
  cbv zeta. pose proof PI_gt_3. pose proof PI_4.
  destruct (update_theta sampleTurned) as [H1 H2]. cbv zeta in H1, H2.
  rewrite sampleTurned_theta0 in H1, H2.
  assert (Hturn : Spherical.theta (spherical
                    (integrateRotation (quatOf sampleTurned) sampleTurned)) = 5).
  { rewrite H1. unfold sampleTurned, sampleWith. fields. cbn [andb]. ring. }
  assert (Hr : forall t, restrictTheta (Lower (-1)) (Upper 1) t
                         = Rmax (-1) (Rmin 1 t)).
  { intros t. unfold restrictTheta.
    rewrite !shiftLimit_inside by lra.
    destruct (Rle_dec (-1) 1); [reflexivity|lra]. }
  split; [reflexivity|]. split; [reflexivity|]. split; [exact Hturn|].
  split; [rewrite Hturn; lra|]. split.
  - rewrite H2. unfold sampleTurned, sampleWith. fields. cbn [andb].
    rewrite Hr. replace (0 + (5 - 0) * 1) with 5 by ring.
    rewrite Rmin_left by lra. apply Rmax_right. lra.
  - rewrite Hr. rewrite Rmin_right by lra. apply Rmax_left. lra.
Qed.

(** C4, refuted as stated.  A limit is shifted by [2 PI] once at most: the
    limit [- PI] stays where it is, outside [(-PI, PI]], and the limit 13
    becomes [13 - 2 PI], above [PI]. *)
Lemma azimuth_limit_not_normalised :
  shiftLimit (- PI) = - PI
  /\ ~ (- PI < shiftLimit (- PI) <= PI)
  /\ shiftLimit 13 = 13 - 2 * PI
  /\ ~ (- PI < shiftLimit 13 <= PI).
Proof.
  pose proof PI_gt_3. pose proof PI_4.
  rewrite (shiftLimit_inside (- PI)) by lra.
  rewrite (shiftLimit_above 13) by lra.
  repeat split; try reflexivity; lra.
Qed.

(** C4, as the code has it.  With both limits finite each is shifted
    once: up by [2 PI] when below [- PI], down by [2 PI] when above [PI],
    which brings a limit within [[-3 PI, 3 PI]] into [[-PI, PI]].  If the
    shifted limits are in order theta is clamped between them.  Otherwise
    theta becomes [max(min, theta)] when it exceeds their midpoint and
    [min(max, theta)] when it does not: an angle already beyond either
    limit is kept, and an angle between the two limits moves to the limit
    on its side of the midpoint, which is the nearer one. *)
Theorem restrictTheta_rule (min max theta : R) :
  let lo := shiftLimit min in
  let hi := shiftLimit max in
  let r := restrictTheta (Lower min) (Upper max) theta in
  ((min < - PI -> lo = min + 2 * PI) /\ (min > PI -> lo = min - 2 * PI)
   /\ (- PI <= min <= PI -> lo = min)
   /\ (- 3 * PI <= min <= 3 * PI -> - PI <= lo <= PI))
  /\ ((max < - PI -> hi = max + 2 * PI) /\ (max > PI -> hi = max - 2 * PI)
      /\ (- PI <= max <= PI -> hi = max)
      /\ (- 3 * PI <= max <= 3 * PI -> - PI <= hi <= PI))
  /\ (lo <= hi -> r = Rmax lo (Rmin hi theta) /\ lo <= r <= hi)
  /\ (hi < lo ->
      (theta > (lo + hi) / 2 -> r = Rmax lo theta)
      /\ (theta <= (lo + hi) / 2 -> r = Rmin hi theta)
      /\ (theta >= lo \/ theta <= hi -> r = theta)
      /\ (hi < theta < lo ->
          (r = lo \/ r = hi)
          /\ Rabs (theta - r) <= Rabs (theta - lo)
          /\ Rabs (theta - r) <= Rabs (theta - hi))).
Proof.
  cbv zeta. pose proof PI_gt_3.
  assert (Hshift : forall a,
    (a < - PI -> shiftLimit a = a + 2 * PI)
    /\ (a > PI -> shiftLimit a = a - 2 * PI)
    /\ (- PI <= a <= PI -> shiftLimit a = a)
    /\ (- 3 * PI <= a <= 3 * PI -> - PI <= shiftLimit a <= PI)).
  { intros a.
    split; [apply shiftLimit_below|].
    split; [apply shiftLimit_above|].
    split; [apply shiftLimit_inside|].
    intros Ha. unfold shiftLimit.
    destruct (Rlt_dec a (- PI)); [lra|]. destruct (Rgt_dec a PI); lra. }
  split; [apply Hshift|]. split; [apply Hshift|].
  unfold restrictTheta.
  set (lo := shiftLimit min). set (hi := shiftLimit max).
  destruct (Rle_dec lo hi) as [Hle|Hgt].
  - split.
    + intros _. split; [reflexivity|]. split; [apply Rmax_l|].
      apply Rmax_lub; [exact Hle | apply Rmin_l].
    + intros Hlt. lra.
  - split; [intros Hle; lra|]. intros Hlt.
    destruct (Rgt_dec theta ((lo + hi) / 2)) as [Hm|Hm].
    + split; [reflexivity|]. split; [intros; lra|]. split.
      * intros [Ht|Ht]; [apply Rmax_right; lra | lra].
      * intros Hb. rewrite Rmax_left by lra.
        split; [left; reflexivity|].
        rewrite !Rabs_left1 by lra. rewrite (Rabs_right (theta - hi)) by lra.
        lra.
    + split; [intros; lra|]. split; [reflexivity|]. split.
      * intros [Ht|Ht]; [lra | apply Rmin_right; lra].
      * intros Hb. rewrite Rmin_left by lra.
        split; [right; reflexivity|].
        rewrite !(Rabs_right (theta - hi)) by lra.
        rewrite Rabs_left1 by lra. lra.
Qed.

(** ** Releasing and cancelling pointers *)

Lemma removeFirst_length id ps :
  (length (removeFirst id ps) <= length ps)%nat.
Proof.
  induction ps as [|p ps IH]; cbn [removeFirst length]; [lia|].
  destruct (PointerEvent.pointerId p =? id)%Z; cbn [length]; lia.
Qed.

(** Once the first entry is spliced out, a pointer that was registered
    once is registered no more. *)
Lemma removeFirst_gone id ps :
  List.NoDup (map PointerEvent.pointerId ps) ->
  ~ In id (map PointerEvent.pointerId (removeFirst id ps)).
Proof.
  induction ps as [|p ps IH]; cbn [removeFirst map]; intros Hnd;
    [intros []|].
  apply List.NoDup_cons_iff in Hnd as [Hx Hxs].
  destruct (PointerEvent.pointerId p =? id)%Z eqn:E.
  - apply Z.eqb_eq in E. subst id. exact Hx.
  - apply Z.eqb_neq in E. cbn [map]. intros [H|H];
      [contradiction | exact (IH Hxs H)].
Qed.

Lemma onPointerUp_fields (event : PointerEvent.t) (c : OrbitControls) :
  let id := PointerEvent.pointerId event in
  let up := onPointerUp event c in
  pointers up = removeFirst id (pointers c)
  /\ pointerPositions up = delete id (pointerPositions c)
  /\ dispatched up = dispatched c ++ [end_]
  /\ state up = NONE
  /\ domElement up
     = if (length (removeFirst id (pointers c)) =? 0)%nat
       then Element.removeEventListener "pointerup"
              (Element.removeEventListener "pointermove"
                 (Element.releasePointerCapture id (domElement c)))
       else domElement c.
Proof.
  cbv zeta. unfold onPointerUp, removePointer. cbv zeta.
  change (pointers (set_pointers ?l ?x)) with l.
  change (pointers (set_pointerPositions ?m ?x)) with (pointers x).
  destruct (length (removeFirst (PointerEvent.pointerId event) (pointers c))
            =? 0)%nat; repeat split; reflexivity.
Qed.

Lemma onPointerCancel_fields (event : PointerEvent.t) (c : OrbitControls) :
  let id := PointerEvent.pointerId event in
  let cancelled := onPointerCancel event c in
  pointers cancelled = removeFirst id (pointers c)
  /\ pointerPositions cancelled = delete id (pointerPositions c)
  /\ dispatched cancelled = dispatched c
  /\ state cancelled = state c
  /\ domElement cancelled = domElement c.
Proof. repeat split; reflexivity. Qed.

(** C6, as the code has it.  [onPointerUp] removes the pointer (its
    stored position, and its first entry in [pointers]), dispatches [end]
    whether or not other pointers remain, and sets the state to [NONE];
    the capture and the move and up listeners are released exactly when no
    pointer remains.  [onPointerCancel] removes the pointer. *)
Theorem pointer_up_and_cancel (event : PointerEvent.t) (c : OrbitControls) :
  let id := PointerEvent.pointerId event in
  let up := onPointerUp event c in
  let cancelled := onPointerCancel event c in
  (pointers up = removeFirst id (pointers c)
   /\ pointerPositions up = delete id (pointerPositions c)
   /\ dispatched up = dispatched c ++ [end_]
   /\ state up = NONE
   /\ domElement up
      = if (length (removeFirst id (pointers c)) =? 0)%nat
        then Element.removeEventListener "pointerup"
               (Element.removeEventListener "pointermove"
                  (Element.releasePointerCapture id (domElement c)))
        else domElement c)
  /\ (pointers cancelled = removeFirst id (pointers c)
      /\ pointerPositions cancelled = delete id (pointerPositions c)).
Proof.
  cbv zeta. split; [apply onPointerUp_fields|].
  destruct (onPointerCancel_fields event c) as (H1 & H2 & _).
  split; [exact H1 | exact H2].
Qed.

(** C6, refuted as stated.  With two fingers down, lifting the first
    dispatches [end] although the second is still registered; and a
    cancel during a rotation dispatches nothing and leaves the state at
    [ROTATE], although no pointer remains. *)
Lemma end_dispatched_with_pointer_left :
  let two :=
    addPointer (touchAt 2 30 40) (addPointer (touchAt 1 10 20) sampleFields) in
  let one := set_state ROTATE (addPointer (touchAt 1 10 20) sampleFields) in
  (pointers (onPointerUp (touchAt 1 10 20) two) = [touchAt 2 30 40]
   /\ dispatched (onPointerUp (touchAt 1 10 20) two)
      = dispatched two ++ [end_])
  /\ (pointers (onPointerCancel (touchAt 1 10 20) one) = []
      /\ dispatched (onPointerCancel (touchAt 1 10 20) one) = dispatched one
      /\ state (onPointerCancel (touchAt 1 10 20) one) = ROTATE).
Proof.
  intros two one.
  assert (Htwo : pointers two = [touchAt 1 10 20; touchAt 2 30 40])
    by reflexivity.
  assert (Hone : pointers one = [touchAt 1 10 20]) by reflexivity.
  assert (Hstate : state one = ROTATE) by reflexivity.
  clearbody two one.
  destruct (onPointerUp_fields (touchAt 1 10 20) two) as (U1 & _ & U3 & _).
  destruct (onPointerCancel_fields (touchAt 1 10 20) one)
    as (K1 & _ & K3 & K4 & _).
  rewrite Htwo in U1. rewrite Hone in K1. rewrite Hstate in K4.
  split; [split; [exact U1 | exact U3]|].
  split; [exact K1|]. split; [exact K3 | exact K4].
Qed.

(** ** Saving and resetting *)









(* ------------------------------------------------------------------ *)
(** * Further properties of the controller                             *)
(* ------------------------------------------------------------------ *)

(** ** What [update] leaves pending *)





(** ** Angles and zoom within their limits *)

(** When the polar limits are in order and at least [EPS] away from the
    poles, the polar angle after [update] lies between them. *)
Theorem polar_angle_within_limits (c : OrbitControls) :
  EPS <= minPolarAngle c -> minPolarAngle c <= maxPolarAngle c ->
  maxPolarAngle c <= PI - EPS ->
  minPolarAngle c <= getPolarAngle (snd (update c)) <= maxPolarAngle c.
Proof.
  intros H1 H2 H3. unfold getPolarAngle.
  rewrite update_spherical, restrictSpherical_spherical.
  cbn [Spherical.phi].
  destruct (kept_fields _ _ (integrateRotation_kept (quatOf c) c))
    as (Hset & _).
  destruct (settings_limits _ _ Hset) as (_ & _ & -> & ->).
  set (phi := Spherical.phi (spherical (integrateRotation (quatOf c) c))).
  assert (Hc : minPolarAngle c
               <= Rmax (minPolarAngle c) (Rmin (maxPolarAngle c) phi)
               <= maxPolarAngle c).
  { split; [apply Rmax_l|]. apply Rmax_lub; [exact H2 | apply Rmin_l]. }
  rewrite Rmin_right by lra. rewrite Rmax_right by lra. exact Hc.
Qed.

(** When both azimuth limits are finite, within [[-PI, PI]] and in
    order, the azimuth angle after [update] lies between them. *)
Theorem azimuth_angle_within_limits (c : OrbitControls) (min max : R) :
  minAzimuthAngle c = Lower min -> maxAzimuthAngle c = Upper max ->
  - PI <= min -> min <= max -> max <= PI ->
  min <= getAzimuthalAngle (snd (update c)) <= max.
Proof.
  intros Hmin Hmax H1 H2 H3.
  destruct (update_theta c) as [_ H]. cbv zeta in H. rewrite H, Hmin, Hmax.
  unfold restrictTheta. rewrite !shiftLimit_inside by lra.
  destruct (Rle_dec min max) as [_|Hn]; [|lra].
  split; [apply Rmax_l|]. apply Rmax_lub; [exact H2 | apply Rmin_l].
Qed.


(** On a perspective camera a [dollyIn] followed by a [dollyOut] by the
    same non-zero factor leaves the pending dolly factor as it was, and
    neither touches the zoom. *)
Theorem perspective_dolly_round_trip (c : OrbitControls) (dollyScale fov : R) :
  Camera.kind (object c) = PerspectiveCamera fov ->
  dollyScale <> 0 ->
  scale (dollyOut dollyScale (dollyIn dollyScale c)) = scale c
  /\ Camera.zoom (object (dollyOut dollyScale (dollyIn dollyScale c)))
     = Camera.zoom (object c)
  /\ zoomChanged (dollyOut dollyScale (dollyIn dollyScale c)) = zoomChanged c.
Proof.
  intros Hk Hs.
  assert (Hin : dollyIn dollyScale c = set_scale (scale c * dollyScale) c).
  { unfold dollyIn. rewrite Hk. reflexivity. }
  rewrite Hin. unfold dollyOut.
  change (Camera.kind (object (set_scale ?v c))) with (Camera.kind (object c)).
  rewrite Hk.
  cbn [scale set_scale object zoomChanged].
  repeat split. field. exact Hs.
Qed.


(** ** The wheel *)

Lemma zoom_scale_below_one z : 0 < z -> 0 < Math_pow 0.95 z < 1.
Proof.
  intros Hz. unfold Math_pow.
  destruct (Rlt_dec 0 0.95) as [_|H]; [|lra].
  unfold Rpower. split; [apply exp_pos|].
  rewrite <- exp_0. apply exp_increasing.
  assert (Hln : ln 0.95 < 0).
  { rewrite <- ln_1. apply ln_increasing; lra. }
  nra.
Qed.

(** One wheel notch on an enabled controller with a perspective camera
    and nothing pending: the radius becomes the distance of the camera
    from the target times [0.95 ^ zoomSpeed] when the wheel turns forward
    (divided by it when it turns back), then clamped to the distance
    limits; so with a positive zoom speed a forward notch never takes the
    camera farther than it was or than [minDistance]. *)
Theorem wheel_scales_radius (c : OrbitControls) (event : WheelEvent) (fov : R) :
  enabled c = true -> enableZoom c = true ->
  Camera.kind (object c) = PerspectiveCamera fov ->
  scale c = 1 -> 0 < zoomSpeed c ->
  let distance :=
    Spherical.radius
      (Spherical_setFromVector3
         (Vector3.applyQuaternion
            (Vector3.sub (Camera.position (object c)) (target c)) (quatOf c))) in
  let factor :=
    if Rlt_dec (deltaY event) 0 then Math_pow 0.95 (zoomSpeed c)
    else 1 / Math_pow 0.95 (zoomSpeed c) in
  let radius := Spherical.radius (spherical (onMouseWheel event c)) in
  radius = Rmax (minDistance c) (min_upper (maxDistance c) (distance * factor))
  /\ (deltaY event < 0 -> radius <= Rmax (minDistance c) distance).
Proof.
  intros He Hz Hk Hs Hspeed. cbv zeta.
  assert (Hwheel : onMouseWheel event c
            = snd (update (if Rlt_dec (deltaY event) 0
                           then set_scale (scale c * getZoomScale c) c
                           else set_scale (scale c / getZoomScale c) c))).
  { unfold onMouseWheel, dollyIn, dollyOut. rewrite He, Hz, Hk.
    cbn [negb orb]. cbv zeta.
    destruct (Rlt_dec (deltaY event) 0); reflexivity. }
  assert (Hradius : forall v,
            Spherical.radius (spherical (snd (update (set_scale v c))))
            = Rmax (minDistance c)
                (min_upper (maxDistance c)
                   (Spherical.radius
                      (Spherical_setFromVector3
                         (Vector3.applyQuaternion
                            (Vector3.sub (Camera.position (object c))
                               (target c)) (quatOf c))) * v))).
  { intros v. rewrite update_spherical, restrictSpherical_spherical.
    cbn [Spherical.radius].
    destruct (kept_fields _ _
                (integrateRotation_kept (quatOf (set_scale v c))
                   (set_scale v c))) as (Hset & _).
    destruct (settings_limits _ _ Hset) as (-> & -> & _).
    destruct (carried_fields _ _
                (integrateRotation_carried (quatOf (set_scale v c))
                   (set_scale v c))) as (_ & _ & _ & ->).
    unfold integrateRotation. cbv zeta.
    repeat match goal with
           | |- context [if ?b then _ else _] => destruct b
           end; reflexivity. }
  rewrite Hwheel. unfold getZoomScale. rewrite Hs.
  pose proof (zoom_scale_below_one (zoomSpeed c) Hspeed) as [Hp Hlt].
  destruct (Rlt_dec (deltaY event) 0) as [Hneg|Hpos]; rewrite Hradius.
  - split; [f_equal; f_equal; ring|]. intros _.
    match goal with |- context [Spherical.radius ?s * _] =>
      set (distance := Spherical.radius s) end.
    assert (Hd0 : 0 <= distance).
    { unfold distance, Spherical_setFromVector3,
        Spherical.setFromCartesianCoords.
      destruct (Req_dec_T _ 0); cbn [Spherical.radius]; apply sqrt_pos. }
    assert (Hle : distance * (1 * Math_pow 0.95 (zoomSpeed c)) <= distance)
      by nra.
    apply Rmax_lub; [apply Rmax_l|].
    apply Rle_trans with distance; [|apply Rmax_r].
    destruct (maxDistance c) as [m|]; cbn [min_upper]; [|exact Hle].
    apply Rle_trans with (distance * (1 * Math_pow 0.95 (zoomSpeed c)));
      [apply Rmin_r | exact Hle].
  - split; [f_equal; f_equal; unfold Rdiv; ring | intros H; lra].
Qed.

(** ** Events *)

(** A disabled controller ignores pointer-down, pointer-move, wheel and
    context-menu events altogether; a pointer-up is still handled: the
    pointer is removed, [end] is dispatched and the state becomes
    [NONE]. *)
Theorem disabled_controller_events (c : OrbitControls)
    (event : PointerEvent.t) (w : WheelEvent) :
  enabled c = false ->
  fire (pointerdown event) c = c
  /\ fire (pointermove event) c = c
  /\ fire (wheel w) c = c
  /\ fire contextmenu c = c
  /\ dispatched (onPointerUp event c) = dispatched c ++ [end_]
  /\ state (onPointerUp event c) = NONE.
Proof.
  intros He.
  assert (Hd : after (onPointerDown event c) = c).
  { unfold onPointerDown. rewrite He. reflexivity. }
  assert (Hm : after (onPointerMove event c) = c).
  { unfold onPointerMove. rewrite He. reflexivity. }
  assert (Hw : onMouseWheel w c = c).
  { unfold onMouseWheel. rewrite He. reflexivity. }
  destruct (onPointerUp_fields event c) as (_ & _ & U3 & U4 & _).
  unfold fire.
  repeat split; try assumption;
    cbn [eventType]; destruct (bool_decide _); auto.
Qed.

(** Touch presses never dispatch [start]: whatever a touch pointer-down
    does to the gesture state, the notifications sent stay as they
    were. *)
Theorem touch_down_sends_nothing (c : OrbitControls) (event : PointerEvent.t) :
  isTouch event = true ->
  dispatched (after (onPointerDown event c)) = dispatched c.
Proof.
  intros Ht. unfold onPointerDown. rewrite Ht.
  destruct (negb (enabled c)); [reflexivity|]. cbv zeta.
  match goal with |- context [addPointer event ?x] =>
    assert (Hx : dispatched (addPointer event x) = dispatched c)
      by (destruct (length (pointers c) =? 0)%nat; reflexivity);
    revert Hx; generalize (addPointer event x) end.
  intros c1 <-. unfold onTouchStart. cbv zeta.
  change (dispatched c1) with (dispatched (trackPointer event c1)).
  generalize (trackPointer event c1). intros c2.
  destruct (length (pointers c2)) as [|[|[|n]]]; try reflexivity.
  - destruct (negb (enableRotate c2)); [reflexivity|].
    unfold handleTouchStartRotate.
    repeat match goal with
           | |- context [match ?x with _ => _ end] => destruct x
           end; reflexivity.
  - destruct (negb (enableZoom c2) && negb (enablePan c2)); [reflexivity|].
    unfold handleTouchStartDollyPan.
    repeat match goal with
           | |- context [match ?x with _ => _ end] => destruct x
           end; reflexivity.
Qed.

(** After a pointer-cancel has taken one of two fingers away the state is
    still [TOUCH_DOLLY_PAN]; when the remaining finger then moves, the
    handler reads the second entry of [pointers], which is not there: it
    throws after recording the position, [update] is not called and
    nothing else changes. *)
Theorem touch_move_after_cancel_throws (c : OrbitControls)
    (event p : PointerEvent.t) :
  enabled c = true -> isTouch event = true ->
  state c = TOUCH_DOLLY_PAN ->
  enableZoom c || enablePan c = true ->
  pointers c = [p] ->
  PointerEvent.pointerId event = PointerEvent.pointerId p ->
  onPointerMove event c = Throws (trackPointer event c).
Proof.
  intros He Ht Hs Hcap Hp Hid.
  unfold onPointerMove. rewrite He, Ht. cbn [negb].
  unfold onTouchMove. cbv zeta.
  assert (Hsecond : getSecondPointerPosition event (trackPointer event c)
                    = None).
  { unfold getSecondPointerPosition.
    change (pointers (trackPointer event c)) with (pointers c).
    rewrite Hp. cbn [lookup list_lookup mbind option_bind].
    rewrite Hid, Z.eqb_refl. reflexivity. }
  assert (Hstate : state (trackPointer event c) = TOUCH_DOLLY_PAN)
    by exact Hs.
  assert (Hz : enableZoom (trackPointer event c) = enableZoom c)
    by reflexivity.
  assert (Hn : enablePan (trackPointer event c) = enablePan c)
    by reflexivity.
  revert Hsecond Hstate Hz Hn. generalize (trackPointer event c).
  intros c1 Hsecond Hstate Hz Hn. rewrite Hstate.
  unfold handleTouchMoveDollyPan, touchMoveDolly, touchMovePan.
  rewrite Hz, Hn.
  destruct (enableZoom c), (enablePan c); try discriminate;
    cbn [negb andb andThen]; rewrite ?Hn, ?Hsecond; reflexivity.
Qed.

(** [dispose()] silences the four listeners of the constructor, but a
    move or up listener added by a press stays on the element, because
    [dispose] asks the document to remove them: a drag in progress goes
    on being handled. *)
Theorem dispose_keeps_gesture_listeners (c : OrbitControls) :
  let c' := dispose c in
  (forall ev,
     match ev with
     | pointermove _ | pointerup _ => True
     | _ => fire ev c' = c'
     end)
  /\ (forall event,
        "pointermove"%string ∈ Element.listeners (domElement c) ->
        fire (pointermove event) c' = after (onPointerMove event c'))
  /\ (forall event,
        "pointerup"%string ∈ Element.listeners (domElement c) ->
        fire (pointerup event) c' = onPointerUp event c').
Proof.
  cbv zeta.
  assert (Hl : Element.listeners (domElement (dispose c))
               = Element.listeners (domElement c)
                   ∖ {[ "contextmenu"%string ]} ∖ {[ "pointerdown"%string ]}
                   ∖ {[ "pointercancel"%string ]} ∖ {[ "wheel"%string ]})
    by reflexivity.
  split; [|split].
  - intros ev. unfold fire. rewrite Hl.
    destruct ev; try exact I; cbn [eventType];
      rewrite bool_decide_eq_false_2; try reflexivity; set_solver.
  - intros event Hin. unfold fire. rewrite Hl. cbn [eventType].
    rewrite bool_decide_eq_true_2; [reflexivity|].
    repeat (apply elem_of_difference; split); [exact Hin|..];
      rewrite elem_of_singleton; discriminate.
  - intros event Hin. unfold fire. rewrite Hl. cbn [eventType].
    rewrite bool_decide_eq_true_2; [reflexivity|].
    repeat (apply elem_of_difference; split); [exact Hin|..];
      rewrite elem_of_singleton; discriminate.
Qed.

Lemma onMouseDown_registry e c :
  registry (onMouseDown e c) = registry c
  /\ pointerPositions (onMouseDown e c) = pointerPositions c.
Proof.
  unfold onMouseDown, handleMouseDownDolly, handleMouseDownPan,
    handleMouseDownRotate. cbv zeta.
  repeat match goal with
         | |- context [if ?b then _ else _] => destruct b
         end; split; reflexivity.
Qed.

Lemma onTouchStart_registry e c :
  registry (after (onTouchStart e c)) = registry c
  /\ pointerPositions (after (onTouchStart e c))
     = <[ PointerEvent.pointerId e :=
            Vector2.mk (PointerEvent.pageX e) (PointerEvent.pageY e) ]>
         (pointerPositions c).
Proof.
  unfold onTouchStart. cbv zeta.
  change (registry c) with (registry (trackPointer e c)).
  change (<[ PointerEvent.pointerId e :=
               Vector2.mk (PointerEvent.pageX e) (PointerEvent.pageY e) ]>
            (pointerPositions c))
    with (pointerPositions (trackPointer e c)).
  generalize (trackPointer e c). intros c2.
  destruct (length (pointers c2)) as [|[|[|n]]]; try (split; reflexivity).
  - destruct (negb (enableRotate c2)); [split; reflexivity|].
    unfold handleTouchStartRotate.
    repeat match goal with
           | |- context [match ?x with _ => _ end] => destruct x
           end; split; reflexivity.
  - destruct (negb (enableZoom c2) && negb (enablePan c2));
      [split; reflexivity|].
    unfold handleTouchStartDollyPan.
    repeat match goal with
           | |- context [match ?x with _ => _ end] => destruct x
           end; split; reflexivity.
Qed.

Lemma element_round_trip (id : Z) (e : Element.t) :
  "pointermove"%string ∉ Element.listeners e ->
  "pointerup"%string ∉ Element.listeners e ->
  id ∉ Element.captured e ->
  Element.removeEventListener "pointerup"
    (Element.removeEventListener "pointermove"
       (Element.releasePointerCapture id
          (Element.addEventListener "pointerup"
             (Element.addEventListener "pointermove"
                (Element.setPointerCapture id e)))))
  = e.
Proof.
  destruct e as [w h cap lis].
  unfold Element.removeEventListener, Element.releasePointerCapture,
    Element.addEventListener, Element.setPointerCapture.
  cbn [Element.listeners Element.captured Element.clientWidth
       Element.clientHeight].
  intros Hm Hu Hc. f_equal.
  - apply set_eq. intros x. rewrite elem_of_difference, elem_of_union,
      elem_of_singleton. split; [tauto|]. intros Hx.
    split; [right; exact Hx|]. intros ->. exact (Hc Hx).
  - apply set_eq. intros x.
    rewrite !elem_of_difference, !elem_of_union, !elem_of_singleton.
    split; [tauto|]. intros Hx.
    repeat split; [right; right; exact Hx | |]; intros ->; tauto.
Qed.

(** A press on an enabled controller with no pointer down registers the
    pointer, captures it and starts listening for moves and releases; the
    release of that pointer undoes all of it: no pointer is left, the
    element is as it was before the press, the stored position is gone
    and the state is [NONE]. *)
Theorem press_then_release (c : OrbitControls) (event : PointerEvent.t) :
  enabled c = true -> pointers c = [] ->
  "pointermove"%string ∉ Element.listeners (domElement c) ->
  "pointerup"%string ∉ Element.listeners (domElement c) ->
  PointerEvent.pointerId event ∉ Element.captured (domElement c) ->
  let pressed := after (onPointerDown event c) in
  let released := onPointerUp event pressed in
  (pointers pressed = [event]
   /\ "pointermove"%string ∈ Element.listeners (domElement pressed)
   /\ "pointerup"%string ∈ Element.listeners (domElement pressed)
   /\ PointerEvent.pointerId event ∈ Element.captured (domElement pressed))
  /\ (pointers released = []
      /\ domElement released = domElement c
      /\ pointerPositions released
         = delete (PointerEvent.pointerId event) (pointerPositions c)
      /\ state released = NONE).
Proof.
  intros He Hp Hm Hu Hc. cbv zeta.
  set (e1 := Element.addEventListener "pointerup"
               (Element.addEventListener "pointermove"
                  (Element.setPointerCapture (PointerEvent.pointerId event)
                     (domElement c)))).
  assert (Hpressed :
    registry (after (onPointerDown event c)) = ([event], e1)
    /\ delete (PointerEvent.pointerId event)
         (pointerPositions (after (onPointerDown event c)))
       = delete (PointerEvent.pointerId event) (pointerPositions c)).
  { unfold onPointerDown. rewrite He, Hp. cbn [negb length Nat.eqb].
    cbv zeta.
    match goal with |- context [addPointer event ?x] =>
      assert (Hx : registry (addPointer event x) = ([event], e1)
                   /\ pointerPositions (addPointer event x)
                      = pointerPositions c)
        by (unfold registry, addPointer;
            cbn [pointers set_pointers set_domElement domElement
                 pointerPositions]; rewrite Hp; split; reflexivity);
      revert Hx; generalize (addPointer event x) end.
    intros c1 [Hr Hpp].
    destruct (isTouch event).
    - destruct (onTouchStart_registry event c1) as [R1 R2].
      rewrite R1, R2, Hr, Hpp. split; [reflexivity|].
      apply delete_insert_eq.
    - cbn [after]. destruct (onMouseDown_registry event c1) as [R1 R2].
      rewrite R1, R2, Hr, Hpp. split; reflexivity. }
  destruct Hpressed as [Hreg Hpos].
  revert Hreg Hpos. generalize (after (onPointerDown event c)).
  intros c1 Hreg Hpos.
  assert (Hp1 : pointers c1 = [event])
    by (apply (f_equal fst) in Hreg; exact Hreg).
  assert (He1 : domElement c1 = e1)
    by (apply (f_equal snd) in Hreg; exact Hreg).
  destruct (onPointerUp_fields event c1) as (U1 & U2 & _ & U4 & U5).
  cbv zeta in U1, U2, U4, U5.
  rewrite Hp1 in U1, U5. cbn [removeFirst] in U1, U5.
  rewrite Z.eqb_refl in U1, U5. cbn [length Nat.eqb] in U5.
  rewrite He1 in U5.
  split; [|split; [exact U1|split; [|split; [congruence | exact U4]]]].
  - rewrite He1. unfold e1. cbn [Element.addEventListener
      Element.setPointerCapture Element.listeners Element.captured].
    split; [exact Hp1|]. repeat split; set_solver.
  - rewrite U5. unfold e1. apply element_round_trip; assumption.
Qed.

(** ** A camera that is where it should be *)

(** The horizontal part of a vector, recovered from its azimuth. *)
Lemma azimuth_round_trip x z :
  let rho := sqrt (x * x + z * z) in
  rho * sin (Math_atan2 x z) = x /\ rho * cos (Math_atan2 x z) = z.
Proof.
  intros rho. unfold Math_atan2.
  assert (Hrho : 0 <= rho) by apply sqrt_pos.
  assert (Hsq : rho * rho = x * x + z * z).
  { unfold rho. apply sqrt_sqrt. nra. }
  destruct (Rlt_dec 0 z) as [Hz|Hz]; [|destruct (Rlt_dec z 0) as [Hz'|Hz']].
  - assert (Hr : 0 < rho) by nra.
    assert (E : sqrt (1 + (x / z)²) = rho / z).
    { apply sqrt_lem_1.
      - unfold Rsqr. nra.
      - apply Rmult_le_pos; [lra|]. left. apply Rinv_0_lt_compat, Hz.
      - unfold Rsqr, Rdiv. assert (Hi : z * / z = 1) by (field; lra).
        replace (rho * / z * (rho * / z)) with (rho * rho * (/ z * / z))
          by ring.
        rewrite Hsq. replace 1 with (z * / z * (z * / z)) at 1
          by (rewrite Hi; ring).
        ring. }
    rewrite sin_atan, cos_atan, E. split; field; lra.
  - assert (Hr : 0 < rho) by nra.
    assert (E : sqrt (1 + (x / z)²) = - rho / z).
    { apply sqrt_lem_1.
      - unfold Rsqr. nra.
      - replace (- rho / z) with (rho * / (- z)) by (field; lra).
        apply Rmult_le_pos; [lra|]. left. apply Rinv_0_lt_compat. lra.
      - unfold Rsqr, Rdiv. assert (Hi : z * / z = 1) by (field; lra).
        replace (- rho * / z * (- rho * / z)) with (rho * rho * (/ z * / z))
          by ring.
        rewrite Hsq. replace 1 with (z * / z * (z * / z)) at 1
          by (rewrite Hi; ring).
        ring. }
    destruct (Rle_dec 0 x) as [Hx|Hx].
    + rewrite neg_sin, neg_cos, sin_atan, cos_atan, E. split; field; lra.
    + replace (atan (x / z) - PI) with (- (- atan (x / z) + PI)) by ring.
      rewrite sin_neg, cos_neg, neg_sin, neg_cos, sin_neg, cos_neg,
        sin_atan, cos_atan, E.
      split; field; lra.
  - assert (z = 0) by lra. subst z.
    assert (Hx2 : rho * rho = x * x) by lra.
    destruct (Rlt_dec 0 x) as [Hx|Hx]; [|destruct (Rlt_dec x 0) as [Hx'|Hx']].
    + rewrite sin_PI2, cos_PI2. split; nra.
    + rewrite sin_neg, cos_neg, sin_PI2, cos_PI2. split; nra.
    + assert (x = 0) by lra. subst x. rewrite sin_0, cos_0. split; nra.
Qed.

(** A vector is recovered from its spherical coordinates. *)
Lemma setFromSpherical_setFromVector3 (v : Vector3.t) :
  Vector3.setFromSpherical (Spherical_setFromVector3 v) = v.
Proof.
  destruct v as [x y z].
  unfold Spherical_setFromVector3, Spherical.setFromCartesianCoords.
  cbn [Vector3.x Vector3.y Vector3.z].
  set (r := sqrt (x * x + y * y + z * z)).
  assert (Hr : 0 <= r) by apply sqrt_pos.
  assert (Hsq : r * r = x * x + y * y + z * z).
  { unfold r. apply sqrt_sqrt. nra. }
  destruct (Req_dec_T r 0) as [H0|H0].
  - unfold Vector3.setFromSpherical.
    cbn [Spherical.radius Spherical.phi Spherical.theta].
    rewrite H0 in *. assert (x = 0 /\ y = 0 /\ z = 0) as (-> & -> & ->) by nra.
    f_equal; ring.
  - assert (Hpos : 0 < r) by lra.
    assert (Hy : -1 <= y / r <= 1).
    { split.
      - apply Rmult_le_reg_r with r; [lra|]. unfold Rdiv.
        rewrite Rmult_assoc, Rinv_l by lra. nra.
      - apply Rmult_le_reg_r with r; [lra|]. unfold Rdiv.
        rewrite Rmult_assoc, Rinv_l by lra. nra. }
    assert (Hc : clamp (y / r) (-1) 1 = y / r).
    { unfold clamp. rewrite Rmin_right by lra. apply Rmax_right. lra. }
    unfold Vector3.setFromSpherical.
    cbn [Spherical.radius Spherical.phi Spherical.theta].
    rewrite Hc, cos_acos, sin_acos by exact Hy.
    assert (Hs : sqrt (1 - (y / r)²) * r = sqrt (x * x + z * z)).
    { symmetry. apply sqrt_lem_1.
      - nra.
      - apply Rmult_le_pos; [apply sqrt_pos|lra].
      - replace (sqrt (1 - (y / r)²) * r * (sqrt (1 - (y / r)²) * r))
          with (sqrt (1 - (y / r)²) * sqrt (1 - (y / r)²) * (r * r)) by ring.
        rewrite sqrt_sqrt.
        + unfold Rsqr, Rdiv. assert (Hi : r * / r = 1) by (field; lra).
          replace ((1 - y * / r * (y * / r)) * (r * r))
            with (r * r - y * y * (r * / r * (r * / r))) by ring.
          rewrite Hi, Hsq. ring.
        + unfold Rsqr. assert (-1 <= y / r <= 1) by exact Hy. nra. }
    rewrite Hs.
    destruct (azimuth_round_trip x z) as [Ex Ez].
    apply Vector3_ext; cbn [Vector3.x Vector3.y Vector3.z].
    + exact Ex.
    + field. lra.
    + exact Ez.
Qed.

(** [update] is a fixed point on a settled controller.  With an upright
    camera, no automatic rotation, no pending rotation, pan or dolly, and
    limits that admit the spherical coordinates of the camera about the
    target, [update] puts the camera back exactly where it is (over the
    reals) and leaves the target alone: calling it again and again does
    not make the camera drift. *)
Theorem update_leaves_camera_in_place (c : OrbitControls) :
  Camera.up (object c) = Vector3.mk 0 1 0 ->
  autoRotate c = false ->
  Spherical.theta (sphericalDelta c) = 0 ->
  Spherical.phi (sphericalDelta c) = 0 ->
  panOffset c = Vector3.mk 0 0 0 ->
  scale c = 1 ->
  let s :=
    Spherical_setFromVector3
      (Vector3.sub (Camera.position (object c)) (target c)) in
  EPS <= Spherical.phi s <= PI - EPS ->
  minPolarAngle c <= Spherical.phi s <= maxPolarAngle c ->
  minDistance c <= Spherical.radius s ->
  le_upper (Spherical.radius s) (maxDistance c) ->
  restrictTheta (minAzimuthAngle c) (maxAzimuthAngle c) (Spherical.theta s)
  = Spherical.theta s ->
  Camera.position (object (snd (update c))) = Camera.position (object c)
  /\ target (snd (update c)) = target c
  /\ spherical (snd (update c)) = s.
Proof.
  intros Hup Hauto Hdt Hdp Hpan Hscale s Hsafe Hpol Hmin Hmax Haz.
  assert (Hq : quatOf c = Quaternion.new).
  { unfold quatOf. rewrite Hup. apply quat_upright. }
  assert (Hs : spherical (placed c) = s).
  { rewrite placed_spherical. unfold restricted.
    rewrite restrictSpherical_spherical.
    destruct (kept_fields _ _ (integrateRotation_kept (quatOf c) c))
      as (Hset & _ & _ & _ & -> & -> & _).
    destruct (settings_limits _ _ Hset) as (-> & -> & -> & ->).
    destruct (carried_fields _ _ (integrateRotation_carried (quatOf c) c))
      as (_ & _ & _ & ->).
    rewrite (integrateRotation_spherical _ c Hauto). cbv zeta.
    rewrite Hq, applyQuaternion_identity, Hdt, Hdp, Hscale.
    fold s.
    cbn [Spherical.radius Spherical.phi Spherical.theta].
    replace (Spherical.phi s
             + 0 * (if enableDamping c then dampingFactor c else 1))
      with (Spherical.phi s) by ring.
    replace (Spherical.theta s
             + 0 * (if enableDamping c then dampingFactor c else 1))
      with (Spherical.theta s) by ring.
    rewrite Haz.
    rewrite (Rmin_right (maxPolarAngle c)) by lra.
    rewrite (Rmax_right (minPolarAngle c)) by lra.
    rewrite (Rmin_right (PI - EPS)) by lra.
    rewrite (Rmax_right EPS) by lra.
    replace (Spherical.radius s * 1) with (Spherical.radius s) by ring.
    assert (Hr : Rmax (minDistance c)
                   (min_upper (maxDistance c) (Spherical.radius s))
                 = Spherical.radius s).
    { destruct (maxDistance c) as [m|]; cbn [min_upper le_upper] in *.
      - rewrite Rmin_right by lra. apply Rmax_right. lra.
      - apply Rmax_right. lra. }
    rewrite Hr. destruct s; reflexivity. }
  assert (Ht : target (placed c) = target c).
  { rewrite placed_target, Hpan.
    destruct (enableDamping c); apply Vector3_ext; cbn; ring. }
  rewrite (update_placed (fun x => Camera.position (object x)))
    by reflexivity.
  rewrite (update_placed target) by reflexivity.
  rewrite (update_placed spherical) by reflexivity.
  split; [|split; [exact Ht|exact Hs]].
  rewrite placed_position, Hs, Ht, Hq, applyQuaternion_identity_inverse.
  unfold s. rewrite setFromSpherical_setFromVector3.
  apply Vector3_ext; cbn; ring.
Qed.

End Controller.

(** ** The theorems with a premise, at a concrete controller *)


(** C7 at the same controller, whose polar limits are [0] and [PI]. *)
Lemma polar_angle_off_the_poles_witness :
  let c' :=
    snd (update sampleLookAt sampleCompose
           (performAll sampleLookAt sampleCompose
              [callRotateUp 7] sampleLimited)) in
  getPolarAngle c' <> 0 /\ getPolarAngle c' <> PI.
Proof.
  destruct (polar_angle_off_the_poles sampleLookAt sampleCompose sampleLimited
              [callRotateUp 7] eq_refl eq_refl) as (H0 & HPI & _).
  split; assumption.
Defined.

(** C4 on the wrap-around range from 2.8 to -2.8 radians: an angle of 1
    goes to the upper side's limit 2.8, an angle of -1 to -2.8, and an
    angle of 3, already past 2.8, stays. *)
Lemma restrictTheta_rule_witness :
  restrictTheta (Lower 2.8) (Upper (-2.8)) 1 = 2.8
  /\ restrictTheta (Lower 2.8) (Upper (-2.8)) (-1) = -2.8
  /\ restrictTheta (Lower 2.8) (Upper (-2.8)) 3 = 3.
Proof.
  pose proof PI_gt_3 as HPI.
  assert (Hlo : shiftLimit 2.8 = 2.8) by (apply shiftLimit_inside; lra).
  assert (Hhi : shiftLimit (-2.8) = -2.8) by (apply shiftLimit_inside; lra).
  repeat split.
  - destruct (restrictTheta_rule 2.8 (-2.8) 1) as (_ & _ & _ & W).
    rewrite Hlo, Hhi in W. destruct W as (W & _); [lra|].
    rewrite W by lra. apply Rmax_left. lra.
  - destruct (restrictTheta_rule 2.8 (-2.8) (-1)) as (_ & _ & _ & W).
    rewrite Hlo, Hhi in W. destruct W as (_ & W & _); [lra|].
    rewrite W by lra. apply Rmin_left. lra.
  - destruct (restrictTheta_rule 2.8 (-2.8) 3) as (_ & _ & _ & W).
    rewrite Hlo, Hhi in W. destruct W as (_ & _ & W & _); [lra|].
    apply W. lra.
Defined.

(** ** The refutations that run [update], at a concrete library *)

(** C3, refuted as stated.  With azimuth limits of one radian either
    way and five radians of rotation pending, the angle that reaches the
    restriction is 5, outside [(-PI, PI]], and [update] leaves theta at
    the upper limit 1; the wrapped angle [5 - 2 PI] would have ended at
    the lower limit. *)
Lemma theta_not_wrapped_before_restriction :
  let c := sampleTurned in
  minAzimuthAngle c = Lower (-1) /\ maxAzimuthAngle c = Upper 1
  /\ Spherical.theta (spherical (integrateRotation (quatOf c) c)) = 5
  /\ ~ (- PI < Spherical.theta (spherical (integrateRotation (quatOf c) c))
        <= PI)
  /\ getAzimuthalAngle (snd (update sampleLookAt sampleCompose c)) = 1
  /\ restrictTheta (Lower (-1)) (Upper 1) (5 - 2 * PI) = -1.
Proof. exact (sampleTurned_restriction sampleLookAt sampleCompose). Qed.


(** ** The further properties with a premise, at concrete controllers *)




Lemma polar_angle_within_limits_witness :
  1 <= getPolarAngle (snd (update sampleLookAt sampleCompose samplePolar)) <= 2.
Proof.
  apply (polar_angle_within_limits sampleLookAt sampleCompose samplePolar).
  - unfold EPS. cbn. lra.
  - cbn. lra.
  - pose proof PI_gt_3. unfold EPS. cbn. lra.
Defined.

Lemma azimuth_angle_within_limits_witness :
  -1 <= getAzimuthalAngle (snd (update sampleLookAt sampleCompose sampleTurned))
  <= 1.
Proof.
  pose proof PI_gt_3.
  apply (azimuth_angle_within_limits sampleLookAt sampleCompose sampleTurned
           (-1) 1 eq_refl eq_refl); lra.
Defined.


Lemma perspective_dolly_round_trip_witness :
  scale (dollyOut 0.95 (dollyIn 0.95 sampleLimited)) = scale sampleLimited.
Proof.
  apply (perspective_dolly_round_trip sampleLimited 0.95 75 eq_refl). lra.
Defined.

Lemma wheel_scales_radius_witness :
  Spherical.radius
    (spherical (onMouseWheel sampleLookAt sampleCompose sampleWheel
                  sampleLimited))
  <= Rmax (minDistance sampleLimited)
       (Spherical.radius
          (Spherical_setFromVector3
             (Vector3.applyQuaternion
                (Vector3.sub (Camera.position (object sampleLimited))
                   (target sampleLimited)) (quatOf sampleLimited)))).
Proof.
  assert (Hspeed : 0 < zoomSpeed sampleLimited) by (cbn; lra).
  assert (Hdelta : deltaY sampleWheel < 0) by (cbn; lra).
  exact (proj2 (wheel_scales_radius sampleLookAt sampleCompose sampleLimited
                  sampleWheel 75 eq_refl eq_refl eq_refl eq_refl Hspeed)
           Hdelta).
Defined.

Lemma disabled_controller_events_witness :
  fire sampleLookAt sampleCompose (pointerdown (touchAt 1 10 20))
    sampleDisabled = sampleDisabled
  /\ fire sampleLookAt sampleCompose (wheel sampleWheel) sampleDisabled
     = sampleDisabled.
Proof.
  destruct (disabled_controller_events sampleLookAt sampleCompose
              sampleDisabled (touchAt 1 10 20) sampleWheel eq_refl)
    as (H1 & _ & H3 & _).
  split; assumption.
Defined.

Lemma touch_down_sends_nothing_witness :
  dispatched (after (onPointerDown (touchAt 1 10 20) sampleFields))
  = dispatched sampleFields.
Proof.
  exact (touch_down_sends_nothing sampleFields (touchAt 1 10 20) eq_refl).
Defined.

Lemma touch_move_after_cancel_throws_witness :
  onPointerMove sampleLookAt sampleCompose (touchAt 1 30 40) sampleOneFinger
  = Throws (trackPointer (touchAt 1 30 40) sampleOneFinger).
Proof.
  exact (touch_move_after_cancel_throws sampleLookAt sampleCompose
           sampleOneFinger (touchAt 1 30 40) (touchAt 1 10 20)
           eq_refl eq_refl eq_refl eq_refl eq_refl eq_refl).
Defined.

Lemma sampleFields_listeners (type : string) :
  type ∈ Element.listeners (domElement sampleFields) ->
  type = "wheel"%string \/ type = "pointercancel"%string
  \/ type = "pointerdown"%string \/ type = "contextmenu"%string.
Proof.
  unfold sampleFields, initialFields, sampleElement, Element.addEventListener.
  cbn [domElement Element.listeners].
  rewrite !elem_of_union, !elem_of_singleton, elem_of_empty. tauto.
Defined.

Lemma press_then_release_witness :
  let pressed := after (onPointerDown (touchAt 1 10 20) sampleFields) in
  let released := onPointerUp (touchAt 1 10 20) pressed in
  pointers pressed = [touchAt 1 10 20]
  /\ pointers released = []
  /\ domElement released = domElement sampleFields.
Proof.
  assert (Hm : "pointermove"%string
               ∉ Element.listeners (domElement sampleFields)).
  { intros H. apply sampleFields_listeners in H.
    destruct H as [H|[H|[H|H]]]; discriminate H. }
  assert (Hu : "pointerup"%string
               ∉ Element.listeners (domElement sampleFields)).
  { intros H. apply sampleFields_listeners in H.
    destruct H as [H|[H|[H|H]]]; discriminate H. }
  assert (Hc : PointerEvent.pointerId (touchAt 1 10 20)
               ∉ Element.captured (domElement sampleFields)).
  { unfold sampleFields, initialFields, sampleElement,
      Element.addEventListener.
    cbn [domElement Element.captured]. apply not_elem_of_empty. }
  destruct (press_then_release sampleFields (touchAt 1 10 20)
              eq_refl eq_refl Hm Hu Hc) as ((P1 & _) & (R1 & R2 & _)).
  cbv zeta. split; [exact P1|]. split; [exact R1 | exact R2].
Defined.

Lemma update_leaves_camera_in_place_witness :
  Camera.position
    (object (snd (update sampleLookAt sampleCompose sampleFields)))
  = Camera.position (object sampleFields)
  /\ target (snd (update sampleLookAt sampleCompose sampleFields))
     = target sampleFields.
Proof.
  assert (E : Spherical_setFromVector3
                (Vector3.sub (Camera.position (object sampleFields))
                   (target sampleFields))
              = Spherical.mk 5 (PI / 2) 0).
  { replace (Vector3.sub (Camera.position (object sampleFields))
               (target sampleFields))
      with (Vector3.mk 0 0 5) by (apply Vector3_ext; cbn; ring).
    apply spherical_on_axis. lra. }
  pose proof PI_gt_3 as HPI. pose proof EPS_pos as HE.
  assert (HE1 : EPS < 1) by (unfold EPS; lra).
  destruct (update_leaves_camera_in_place sampleLookAt sampleCompose
              sampleFields eq_refl eq_refl eq_refl eq_refl eq_refl eq_refl)
    as (H1 & H2 & _).
  - rewrite E. cbn [Spherical.phi]. lra.
  - rewrite E. cbn. lra.
  - rewrite E. cbn. lra.
  - exact I.
  - reflexivity.
  - split; assumption.
Defined.

End Controls.

(* ------------------------------------------------------------------ *)
(** * Part VI.  Properties of the mesh text parser                     *)
(* ------------------------------------------------------------------ *)

Module OBJLoaderProperties.

Import OBJLoader.
Local Open Scope string_scope.

Lemma addCorners_spec indices vertices normals uvs : forall object,
  addCorners object indices vertices normals uvs
  = ParsedObject.mk
      (ParsedObject.vertices object ++ cornerVertices indices vertices)
      (ParsedObject.normals object ++ cornerNormals indices normals)
      (ParsedObject.uvs object ++ cornerUvs indices uvs)
      (ParsedObject.name object) (ParsedObject.material object).
Proof.
  remember (length indices) as n eqn:Hn.
  assert (Hle : (length indices <= n)%nat) by lia. clear Hn.
  revert indices Hle.
  induction n as [|n IH]; intros indices Hle object.
  - destruct indices; [|cbn in Hle; lia].
    destruct object; cbn; rewrite !app_nil_r; reflexivity.
  - destruct indices as [|i0 [|i1 [|i2 rest]]];
      try (destruct object; cbn; rewrite !app_nil_r; reflexivity).
    cbn [addCorners cornerVertices cornerNormals cornerUvs].
    rewrite IH by (cbn in Hle; lia).
    cbn [ParsedObject.vertices ParsedObject.normals ParsedObject.uvs
         ParsedObject.name ParsedObject.material].
    destruct (0 <? length normals)%nat, (0 <? length uvs)%nat;
      rewrite <- ?app_assoc, ?app_nil_r; reflexivity.
Qed.

(** A run of a class is not empty, so no capture group of a face is. *)
Lemma plus_nonempty p s m r : plus p s = Some (m, r) -> m <> "".
Proof.
  unfold plus. destruct (span p s) as [[|c m'] r']; intros H; inversion H; subst.
  discriminate.
Qed.

Lemma faceIndex_nonempty s m r : faceIndex s = Some (m, r) -> m <> "".
Proof.
  unfold faceIndex. intros H.
  destruct s as [|c s'].
  - apply plus_nonempty in H. exact H.
  - destruct (Ascii.eqb_spec c "-") as [->|Hc].
    + destruct (plus isDigit s') as [[ds r']|]; cbn in H; inversion H; subst.
      discriminate.
    + assert (H' : plus isDigit (String c s') = Some (m, r)).
      { revert H. destruct c as [[] [] [] [] [] [] [] []]; try exact (fun H => H).
        congruence. }
      apply plus_nonempty in H'. exact H'.
Qed.



(** [parseLine] by the kind of the line. *)
Lemma parseLine_kind st line :
  parseLine st line =
  match lineKind line with
  | Skipped => st
  | PoolLine =>
      mkParseState (objects st) (currentObject st)
        (pool_vertices (parseLine st line)) (pool_normals (parseLine st line))
        (pool_uvs (parseLine st line))
  | FaceLine faceMatch =>
      mkParseState (objects st)
        (addFaceVertices (currentObject st) faceMatch
           (pool_vertices st) (pool_normals st) (pool_uvs st))
        (pool_vertices st) (pool_normals st) (pool_uvs st)
  | ObjectLine name =>
      mkParseState (flush st) (setName createNewObject name)
        (pool_vertices st) (pool_normals st) (pool_uvs st)
  | MaterialLine material =>
      mkParseState (objects st) (setMaterial (currentObject st) material)
        (pool_vertices st) (pool_normals st) (pool_uvs st)
  end.
Proof.
  unfold parseLine, lineKind.
  repeat match goal with
         | |- context [if ?b then _ else _] =>
             destruct b; try reflexivity
         | |- context [match ?x with Some _ => _ | None => _ end] =>
             destruct x; try reflexivity
         end.
Qed.




Lemma parseLines_app st a b :
  parseLines st (a ++ b)%list = parseLines (parseLines st a) b.
Proof. unfold parseLines. apply fold_left_app. Qed.

Lemma parseLines_cons st l ls :
  parseLines st (l :: ls) = parseLines (parseLine st l) ls.
Proof. reflexivity. Qed.

Lemma flush_populated st :
  allPopulated (objects st) -> allPopulated (flush st).
Proof.
  unfold flush, allPopulated. intros H.
  destruct (ParsedObject.vertices (currentObject st)) as [|v vs] eqn:Hv; cbn;
    [exact H|].
  apply Forall_app. split; [exact H|].
  constructor; [rewrite Hv; discriminate | constructor].
Qed.

Lemma parseLine_populated st line :
  allPopulated (objects st) -> allPopulated (objects (parseLine st line)).
Proof.
  intros H. rewrite parseLine_kind.
  destruct (lineKind line); cbn; auto using flush_populated.
Qed.

Lemma parseLines_populated lines : forall st,
  allPopulated (objects st) -> allPopulated (objects (parseLines st lines)).
Proof.
  induction lines as [|l lines IH]; intros st H; [exact H|].
  rewrite parseLines_cons. apply IH, parseLine_populated, H.
Qed.



(** Every object handed to the output has position entries. *)
Lemma parseObjects_populated text :
  Forall (fun o => ParsedObject.vertices o <> []) (parseObjects text).
Proof.
  unfold parseObjects.
  apply flush_populated, parseLines_populated. constructor.
Qed.

(** ** The claims on the parser *)

(** C8.  The text of one triangle with positions, texture coordinates and
    normals parses to exactly one mesh; its position attribute holds 9
    numbers, its uv attribute 6 and its normal attribute 9, and they are
    the input values in the order of the face corners. *)
Theorem parse_single_triangle :
  let text := "v 0 0 0
v 1 0 0
v 0 1 0
vt 0 0
vt 1 0
vt 0 1
vn 0 0 1
vn 0 0 1
vn 0 0 1
f 1/1/1 2/2/2 3/3/3" in
  let positions :=
    [Num 0; Num 0; Num 0; Num 1; Num 0; Num 0; Num 0; Num 1; Num 0] in
  let uvs := [Num 0; Num 0; Num 1; Num 0; Num 0; Num 1] in
  let normals :=
    [Num 0; Num 0; Num 1; Num 0; Num 0; Num 1; Num 0; Num 0; Num 1] in
  parse text
  = [mkMesh
       (mkBufferGeometry (Some (mkBufferAttribute positions 3))
          (Some (mkBufferAttribute normals 3))
          (Some (mkBufferAttribute uvs 2)))
       "" ""]
  /\ length positions = 9%nat /\ length uvs = 6%nat /\ length normals = 9%nat.
Proof. vm_compute. repeat split; reflexivity. Qed.



(** C10.  Nothing validates the indices of a face: the face pattern
    matches a line whose index components are zero, negative or beyond
    the pool, [addFaceVertices] looks them up as they are, and the entries
    it appends are [undefined], which the position attribute of the mesh
    carries as NaN; the line is neither rejected nor skipped. *)
Theorem face_indices_unchecked :
  let text := "v 0 0 0
f 5/5/5 0/0/0 -1/-1/-1" in
  facePattern "f 5/5/5 0/0/0 -1/-1/-1"
  = Some [Some "f 5/5/5 0/0/0 -1/-1/-1";
          Some "5"; Some "5"; Some "5"; Some "0"; Some "0"; Some "0";
          Some "-1"; Some "-1"; Some "-1"; None; None; None]
  /\ map ParsedObject.vertices (parseObjects text)
     = [[None; None; None; None; None; None; None; None; None]]
  /\ map (fun m => array <$> position (geometry m)) (parse text)
     = [Some [NaN; NaN; NaN; NaN; NaN; NaN; NaN; NaN; NaN]].
Proof. vm_compute. repeat split; reflexivity. Qed.

(* ------------------------------------------------------------------ *)
(** * Further properties of the parser                                 *)
(* ------------------------------------------------------------------ *)

(** ** Whole corners *)

Lemma corner_lengths indices vertices normals uvs :
  length (cornerVertices indices vertices) = (3 * cornerCount indices)%nat
  /\ length (cornerNormals indices normals)
     = (if (0 <? length normals)%nat then 3 * cornerCount indices else 0)%nat
  /\ length (cornerUvs indices uvs)
     = (if (0 <? length uvs)%nat then 2 * cornerCount indices else 0)%nat.
Proof.
  remember (length indices) as n eqn:Hn.
  assert (Hle : (length indices <= n)%nat) by lia. clear Hn.
  revert indices Hle.
  induction n as [|n IH]; intros indices Hle.
  - destruct indices; [|cbn in Hle; lia].
    destruct (0 <? length normals)%nat, (0 <? length uvs)%nat;
      repeat split; reflexivity.
  - destruct indices as [|i0 [|i1 [|i2 rest]]];
      try (destruct (0 <? length normals)%nat, (0 <? length uvs)%nat;
           repeat split; reflexivity).
    destruct (IH rest) as (H1 & H2 & H3); [cbn in Hle; lia|].
    cbn [cornerVertices cornerNormals cornerUvs cornerCount].
    destruct (0 <? length normals)%nat, (0 <? length uvs)%nat;
      cbn [app length]; rewrite ?H1, ?H2, ?H3; repeat split; lia.
Qed.

Lemma addFaceVertices_wholeCorners o m vertices normals uvs :
  wholeCorners o -> wholeCorners (addFaceVertices o m vertices normals uvs).
Proof.
  intros (k & kn & ku & Hv & Hn & Hu & Hkn & Hku).
  unfold addFaceVertices. rewrite addCorners_spec.
  destruct (corner_lengths (faceIndices (tl m)) vertices normals uvs)
    as (L1 & L2 & L3).
  set (j := cornerCount (faceIndices (tl m))) in *.
  exists (k + j)%nat,
         (kn + if (0 <? length normals)%nat then j else 0)%nat,
         (ku + if (0 <? length uvs)%nat then j else 0)%nat.
  cbn [ParsedObject.vertices ParsedObject.normals ParsedObject.uvs].
  rewrite !length_app, L1, L2, L3, Hv, Hn, Hu.
  destruct (0 <? length normals)%nat, (0 <? length uvs)%nat;
    repeat split; lia.
Qed.

Lemma createNewObject_wholeCorners n : wholeCorners (setName createNewObject n).
Proof. exists 0%nat, 0%nat, 0%nat. cbn. repeat split; lia. Qed.

Lemma setMaterial_wholeCorners o m :
  wholeCorners o -> wholeCorners (setMaterial o m).
Proof. intros H. exact H. Qed.

Lemma flush_wholeCorners st :
  wholeCorners (currentObject st) -> Forall wholeCorners (objects st) ->
  Forall wholeCorners (flush st).
Proof.
  intros Hc Ho. unfold flush.
  destruct (0 <? length (ParsedObject.vertices (currentObject st)))%nat;
    [|exact Ho].
  apply Forall_app. split; [exact Ho|]. constructor; [exact Hc|constructor].
Qed.

Lemma parseLine_wellFormed st line :
  wellFormed st -> wellFormed (parseLine st line).
Proof.
  intros (Hc & Ho & (nv & Hv) & (nn & Hn) & (nu & Hu)).
  unfold parseLine.
  repeat match goal with
         | |- context [if ?b then _ else _] => destruct b
         | |- context [match ?x with Some _ => _ | None => _ end] =>
             destruct x
         end;
    unfold wellFormed;
    cbn [currentObject objects pool_vertices pool_normals pool_uvs];
    rewrite ?length_app; cbn [length];
    repeat split;
    eauto using addFaceVertices_wholeCorners, flush_wholeCorners,
      createNewObject_wholeCorners, setMaterial_wholeCorners;
    try (exists (S nv); lia); try (exists (S nn); lia);
    try (exists (S nu); lia).
Qed.

Lemma parseLines_wellFormed lines : forall st,
  wellFormed st -> wellFormed (parseLines st lines).
Proof.
  induction lines as [|l lines IH]; intros st H; [exact H|].
  rewrite parseLines_cons. apply IH, parseLine_wellFormed, H.
Qed.

Lemma initialState_wellFormed : wellFormed initialState.
Proof.
  unfold wellFormed, initialState. cbn.
  repeat split; try (exists 0%nat; reflexivity); [|constructor].
  exists 0%nat, 0%nat, 0%nat. cbn. repeat split; lia.
Qed.

Lemma attributeLength_attributeOf a size :
  attributeLength (attributeOf a size) = length a.
Proof.
  unfold attributeOf. destruct a as [|x a]; [reflexivity|].
  cbn. unfold Float32Array. rewrite length_map. reflexivity.
Qed.

(** For every text, every mesh of the result holds whole corners: the
    position and normal arrays have a multiple of three entries, the uv
    array a multiple of two, positions are present, and there are never
    more normal or texture corners than position corners (there are fewer
    when a pool was still empty at an earlier face of the object). *)
Theorem meshes_hold_whole_corners (text : string) :
  Forall
    (fun mesh =>
       exists k kn ku : nat,
         attributeLength (position (geometry mesh)) = (3 * k)%nat
         /\ attributeLength (normal (geometry mesh)) = (3 * kn)%nat
         /\ attributeLength (uv (geometry mesh)) = (2 * ku)%nat
         /\ (0 < k)%nat /\ (kn <= k)%nat /\ (ku <= k)%nat)
    (parse text).
Proof.
  unfold parse, createGroupFromObjects. apply Forall_map.
  pose proof (parseObjects_populated text) as Hpop.
  assert (Hwf : Forall wholeCorners (parseObjects text)).
  { unfold parseObjects.
    destruct (parseLines_wellFormed (split_lines text) initialState
                initialState_wellFormed) as (Hc & Ho & _).
    apply flush_wholeCorners; assumption. }
  rewrite Forall_forall in *. intros o Hin.
  destruct (Hwf o Hin) as (k & kn & ku & Hv & Hn & Hu & Hkn & Hku).
  pose proof (Hpop o Hin) as Hne.
  exists k, kn, ku. cbn [meshOfObject geometry position normal uv].
  rewrite !attributeLength_attributeOf.
  repeat split; try assumption.
  destruct k; [|lia].
  destruct (ParsedObject.vertices o); [congruence | cbn in Hv; lia].
Qed.

(** ** Faces *)

Lemma faceTriplet_nonempty_all s a b c r :
  faceTriplet s = Some (a, b, c, r) -> a <> "" /\ b <> "" /\ c <> "".
Proof.
  unfold faceTriplet. intros H.
  destruct (faceIndex s) as [[a' r1]|] eqn:Ha; cbn in H; [|discriminate].
  destruct (lit "/" r1) as [r2|]; cbn in H; [|discriminate].
  destruct (faceIndex r2) as [[b' r3]|] eqn:Hb; cbn in H; [|discriminate].
  destruct (lit "/" r3) as [r4|]; cbn in H; [|discriminate].
  destruct (faceIndex r4) as [[c' r5]|] eqn:Hc; cbn in H; [|discriminate].
  inversion H; subst. repeat split; eapply faceIndex_nonempty; eassumption.
Qed.

(** The shape of a face match: nine groups that are not empty, and a
    fourth triplet that is there as a whole or not at all. *)
Lemma facePattern_shape line m :
  facePattern line = Some m ->
  exists whole a1 b1 c1 a2 b2 c2 a3 b3 c3,
    a1 <> "" /\ a2 <> "" /\ a3 <> ""
    /\ (m = [Some whole; Some a1; Some b1; Some c1; Some a2; Some b2; Some c2;
             Some a3; Some b3; Some c3; None; None; None]
        \/ exists a4 b4 c4,
             a4 <> ""
             /\ m = [Some whole; Some a1; Some b1; Some c1; Some a2; Some b2;
                     Some c2; Some a3; Some b3; Some c3;
                     Some a4; Some b4; Some c4]).
Proof.
  unfold facePattern. intros H.
  destruct (lit "f" line) as [r0|]; cbn in H; [|discriminate].
  destruct (plus isWhiteSpace r0) as [[w1 r1]|]; cbn in H; [|discriminate].
  destruct (faceTriplet r1) as [[[[a1 b1] c1] r2]|] eqn:T1; cbn in H;
    [|discriminate].
  destruct (plus isWhiteSpace r2) as [[w2 r3]|]; cbn in H; [|discriminate].
  destruct (faceTriplet r3) as [[[[a2 b2] c2] r4]|] eqn:T2; cbn in H;
    [|discriminate].
  destruct (plus isWhiteSpace r4) as [[w3 r5]|]; cbn in H; [|discriminate].
  destruct (faceTriplet r5) as [[[[a3 b3] c3] r6]|] eqn:T3; cbn in H;
    [|discriminate].
  apply faceTriplet_nonempty_all in T1 as (N1 & _).
  apply faceTriplet_nonempty_all in T2 as (N2 & _).
  apply faceTriplet_nonempty_all in T3 as (N3 & _).
  assert (Three : forall whole,
    exists whole' a1' b1' c1' a2' b2' c2' a3' b3' c3',
      a1' <> "" /\ a2' <> "" /\ a3' <> ""
      /\ ([Some whole; Some a1; Some b1; Some c1; Some a2; Some b2; Some c2;
           Some a3; Some b3; Some c3; None; None; None]
          = [Some whole'; Some a1'; Some b1'; Some c1'; Some a2'; Some b2';
             Some c2'; Some a3'; Some b3'; Some c3'; None; None; None]
          \/ exists a4 b4 c4,
               a4 <> ""
               /\ [Some whole; Some a1; Some b1; Some c1; Some a2; Some b2;
                   Some c2; Some a3; Some b3; Some c3; None; None; None]
                  = [Some whole'; Some a1'; Some b1'; Some c1'; Some a2';
                     Some b2'; Some c2'; Some a3'; Some b3'; Some c3';
                     Some a4; Some b4; Some c4])).
  { intros whole. exists whole, a1, b1, c1, a2, b2, c2, a3, b3, c3.
    repeat split; try assumption. left. reflexivity. }
  destruct (plus isWhiteSpace r6) as [[w4 r7]|]; cbn in H.
  - destruct (faceTriplet r7) as [[[[a4 b4] c4] r8]|] eqn:T4;
      inversion H; subst.
    + apply faceTriplet_nonempty_all in T4 as (N4 & _).
      eexists _, a1, b1, c1, a2, b2, c2, a3, b3, c3.
      repeat split; try assumption. right.
      exists a4, b4, c4. split; [assumption|reflexivity].
    + apply Three.
  - inversion H; subst. apply Three.
Qed.

(** A face line adds three corners, or four when its fourth triplet is
    there: the fourth corner of a quad goes into the same stream as a
    fourth vertex (twelve position entries in all); it is neither dropped
    nor turned into a second triangle. *)
Theorem face_adds_three_or_four_corners line faceMatch object
    vertices normals uvs :
  facePattern line = Some faceMatch ->
  let quad :=
    match nth 10 faceMatch None with Some _ => true | None => false end in
  length (ParsedObject.vertices
            (addFaceVertices object faceMatch vertices normals uvs))
  = (length (ParsedObject.vertices object) + (if quad then 12 else 9))%nat.
Proof.
  intros H. cbv zeta. unfold addFaceVertices. rewrite addCorners_spec.
  cbn [ParsedObject.vertices]. rewrite length_app.
  destruct (corner_lengths (faceIndices (tl faceMatch)) vertices normals uvs)
    as (-> & _).
  destruct (facePattern_shape line faceMatch H)
    as (whole & a1 & b1 & c1 & a2 & b2 & c2 & a3 & b3 & c3
        & N1 & N2 & N3 & [->|(a4 & b4 & c4 & N4 & ->)]).
  - destruct a1, a2, a3; try congruence. reflexivity.
  - destruct a1, a2, a3, a4; try congruence. reflexivity.
Qed.

Lemma face_index_lookup (vertices : list number) (n : nat) (z k : Z) :
  length vertices = (3 * n)%nat ->
  (0 <= k < 3)%Z ->
  let entry :=
    array_get vertices (plus_const k (times 3 (minus_one (Some z)))) in
  ((1 <= z <= Z.of_nat n)%Z ->
   entry = nth_error vertices (Z.to_nat ((z - 1) * 3) + Z.to_nat k)
   /\ entry <> None)
  /\ ((z < 1 \/ Z.of_nat n < z)%Z -> entry = None).
Proof.
  intros Hlen Hk. cbv zeta.
  cbn [minus_one times plus_const fmap option_fmap option_map array_get].
  split.
  - intros Hz. destruct (Z.leb_spec 0 ((z - 1) * 3 + k)) as [_|]; [|lia].
    replace (Z.to_nat ((z - 1) * 3 + k))
      with (Z.to_nat ((z - 1) * 3) + Z.to_nat k)%nat by lia.
    split; [reflexivity|].
    apply nth_error_Some. lia.
  - intros Hz. destruct (Z.leb_spec 0 ((z - 1) * 3 + k)) as [H0|];
      [|reflexivity].
    apply nth_error_None. lia.
Qed.

Lemma three_entries {A} (l : list A) (i : nat) (x y z : A) :
  nth_error l i = Some x ->
  nth_error l (i + 1) = Some y ->
  nth_error l (i + 2) = Some z ->
  firstn 3 (skipn i l) = [x; y; z].
Proof.
  revert l. induction i as [|i IH]; intros l Hx Hy Hz.
  - destruct l as [|a [|b [|c l]]]; cbn in *; try congruence.
    destruct l; cbn; congruence.
  - destruct l as [|a l]; [discriminate|]. cbn in *. apply IH; assumption.
Qed.

(** The three position entries a corner with face index [z] gets from a
    pool of [n] vertices: the coordinates of vertex number [z], counted
    from one, when [1 <= z <= n]; three times [undefined] for every other
    index: zero, the negative indices that count from the end in the file
    format, and vertices that have not been read yet. *)
Theorem corner_position_lookup (vertices : list number) (n : nat) (z : Z)
    (uvIndex normalIndex : option Z) :
  length vertices = (3 * n)%nat ->
  let corner :=
    cornerVertices [minus_one (Some z); uvIndex; normalIndex] vertices in
  ((1 <= z <= Z.of_nat n)%Z ->
   exists x y w,
     corner = [Some x; Some y; Some w]
     /\ firstn 3 (skipn (3 * (Z.to_nat z - 1)) vertices) = [x; y; w])
  /\ ((z < 1 \/ Z.of_nat n < z)%Z -> corner = [None; None; None]).
Proof.
  intros Hlen. cbv zeta. cbn [cornerVertices app].
  pose proof (face_index_lookup vertices n z 0 Hlen ltac:(lia)) as [A0 B0].
  pose proof (face_index_lookup vertices n z 1 Hlen ltac:(lia)) as [A1 B1].
  pose proof (face_index_lookup vertices n z 2 Hlen ltac:(lia)) as [A2 B2].
  assert (E0 : plus_const 0 (times 3 (minus_one (Some z)))
               = times 3 (minus_one (Some z))).
  { cbn. f_equal. lia. }
  rewrite E0 in A0, B0.
  split.
  - intros Hz.
    destruct (A0 Hz) as [e0 d0], (A1 Hz) as [e1 d1], (A2 Hz) as [e2 d2].
    replace (Z.to_nat ((z - 1) * 3)) with (3 * (Z.to_nat z - 1))%nat
      in e0, e1, e2 by lia.
    change (Z.to_nat 0) with 0%nat in e0. rewrite Nat.add_0_r in e0.
    change (Z.to_nat 1) with 1%nat in e1.
    change (Z.to_nat 2) with 2%nat in e2.
    rewrite e0, e1, e2 in *.
    destruct (nth_error vertices (3 * (Z.to_nat z - 1))) as [x|] eqn:Nx;
      [|congruence].
    destruct (nth_error vertices (3 * (Z.to_nat z - 1) + 1)) as [y|] eqn:Ny;
      [|congruence].
    destruct (nth_error vertices (3 * (Z.to_nat z - 1) + 2)) as [w|] eqn:Nw;
      [|congruence].
    exists x, y, w. split; [reflexivity|].
    apply three_entries; assumption.
  - intros Hz. rewrite (B0 Hz), (B1 Hz), (B2 Hz). reflexivity.
Qed.

Lemma corner_position_lookup_witness :
  cornerVertices [minus_one (Some 2%Z); None; None]
    [Num 0; Num 0; Num 0; Num 1; Num 2; Num 3]
  = [Some (Num 1); Some (Num 2); Some (Num 3)]
  /\ cornerVertices [minus_one (Some 3%Z); None; None]
       [Num 0; Num 0; Num 0; Num 1; Num 2; Num 3]
     = [None; None; None].
Proof.
  pose proof (corner_position_lookup
                [Num 0; Num 0; Num 0; Num 1; Num 2; Num 3] 2 2 None None
                eq_refl) as [A _].
  pose proof (corner_position_lookup
                [Num 0; Num 0; Num 0; Num 1; Num 2; Num 3] 2 3 None None
                eq_refl) as [_ B].
  split.
  - destruct (A ltac:(lia)) as (x & y & w & E & F).
    rewrite E. vm_compute in F. congruence.
  - apply B. lia.
Defined.

Lemma face_adds_three_or_four_corners_witness :
  length (ParsedObject.vertices
            (addFaceVertices createNewObject
               [Some "f 1/1/1 2/2/2 3/3/3 4/4/4"; Some "1"; Some "1";
                Some "1"; Some "2"; Some "2"; Some "2"; Some "3"; Some "3";
                Some "3"; Some "4"; Some "4"; Some "4"] [] [] []))
  = 12%nat.
Proof.
  exact (face_adds_three_or_four_corners "f 1/1/1 2/2/2 3/3/3 4/4/4"
           _ createNewObject [] [] [] eq_refl).
Defined.

(** ** Lines *)

Lemma split_lines_nonempty text : split_lines text <> [].
Proof.
  induction text as [|c r IH]; cbn; [discriminate|].
  destruct (c =? "010")%char; [discriminate|].
  destruct (split_lines r); discriminate.
Qed.

Lemma split_lines_app a b :
  split_lines (a ++ LF ++ b) = (split_lines a ++ split_lines b)%list.
Proof.
  induction a as [|c a IH].
  - reflexivity.
  - change (String c a ++ LF ++ b) with (String c (a ++ LF ++ b)).
    cbn [split_lines]. rewrite IH.
    destruct (c =? "010")%char; [reflexivity|].
    destruct (split_lines a) eqn:E; [destruct (split_lines_nonempty a E)|].
    reflexivity.
Qed.

Lemma split_lines_single line :
  singleLine line = true -> split_lines line = [line].
Proof.
  induction line as [|c r IH]; cbn; [reflexivity|].
  destruct (c =? "010")%char; cbn; [discriminate|].
  intros H. rewrite (IH H). reflexivity.
Qed.

Lemma parseLines_skip st a line b :
  (forall st', parseLine st' line = st') ->
  parseLines st (a ++ line :: b)%list = parseLines st (a ++ b)%list.
Proof.
  intros H. rewrite !parseLines_app, parseLines_cons, H. reflexivity.
Qed.

(** A line the loop leaves the state at can be taken out of the text. *)
Lemma invisible_line before line after :
  singleLine line = true ->
  (forall st, parseLine st line = st) ->
  parse (before ++ LF ++ line ++ LF ++ after) = parse (before ++ LF ++ after)
  /\ parse (line ++ LF ++ after) = parse after.
Proof.
  intros Hs Hl. unfold parse, parseObjects.
  rewrite !split_lines_app, (split_lines_single line Hs).
  split.
  - cbn [app]. rewrite parseLines_skip by exact Hl. reflexivity.
  - cbn [app]. rewrite parseLines_cons, Hl. reflexivity.
Qed.

Lemma skipped_line st line :
  trim line = "" \/ (exists r, trim line = String "#" r) ->
  parseLine st line = st.
Proof.
  unfold parseLine. intros [->|[r ->]]; reflexivity.
Qed.

(** Blank lines and comment lines (a [#] after the leading white space) do
    not show in the result: the text parses as it does without the line,
    wherever the line stands. *)
Theorem blank_and_comment_lines_are_invisible (before line after : string) :
  singleLine line = true ->
  trim line = "" \/ (exists r, trim line = String "#" r) ->
  parse (before ++ LF ++ line ++ LF ++ after) = parse (before ++ LF ++ after)
  /\ parse (line ++ LF ++ after) = parse after.
Proof.
  intros Hs Hl. apply invisible_line; [exact Hs|].
  intros st. apply skipped_line, Hl.
Qed.

Lemma blank_and_comment_lines_are_invisible_witness :
  parse ("o a" ++ LF ++ "  # corner" ++ LF ++ "v 0 0 0")
  = parse ("o a" ++ LF ++ "v 0 0 0")
  /\ parse ("  # corner" ++ LF ++ "v 0 0 0") = parse "v 0 0 0".
Proof.
  apply (blank_and_comment_lines_are_invisible "o a" "  # corner" "v 0 0 0").
  - reflexivity.
  - right. exists " corner". reflexivity.
Defined.

(** ** Faces the pattern does not take *)

Lemma isDigit_not_space c : isDigit c = true -> isWhiteSpace c = false.
Proof.
  destruct c as [[] [] [] [] [] [] [] []]; vm_compute; congruence.
Qed.

Lemma faceIndex_digit d s :
  isDigit d = true -> faceIndex (String d s) = plus isDigit (String d s).
Proof.
  destruct d as [[] [] [] [] [] [] [] []]; intros H;
    try reflexivity; vm_compute in H; discriminate.
Qed.

Lemma span_digits a c r :
  allDigits a = true -> isDigit c = false ->
  span isDigit (a ++ String c r) = (a, String c r).
Proof.
  intros Ha Hc. induction a as [|d a IH].
  - change ("" ++ String c r) with (String c r).
    change (span isDigit (String c r))
      with (if isDigit c
            then let (a, b) := span isDigit r in (String c a, b)
            else ("", String c r)).
    rewrite Hc. reflexivity.
  - change (allDigits (String d a)) with (isDigit d && allDigits a) in Ha.
    apply andb_true_iff in Ha as [Hd Ha].
    change (String d a ++ String c r) with (String d (a ++ String c r)).
    change (span isDigit (String d (a ++ String c r)))
      with (if isDigit d
            then let (a', b) := span isDigit (a ++ String c r)
                 in (String d a', b)
            else ("", String d (a ++ String c r))).
    rewrite Hd, (IH Ha). reflexivity.
Qed.

Lemma faceIndex_digits a c r :
  digits a = true -> isDigit c = false ->
  faceIndex (a ++ String c r) = Some (a, String c r).
Proof.
  intros Ha Hc. destruct a as [|d a]; [discriminate|].
  cbn [digits] in Ha.
  assert (Hd : isDigit d = true).
  { cbn in Ha. apply andb_true_iff in Ha as [Hd _]. exact Hd. }
  change (String d a ++ String c r) with (String d (a ++ String c r)).
  rewrite faceIndex_digit by exact Hd.
  change (String d (a ++ String c r)) with (String d a ++ String c r).
  unfold plus. rewrite span_digits by assumption. reflexivity.
Qed.

Lemma bind_some {A B} (x : A) (k : A -> option B) : Some x ≫= k = k x.
Proof. reflexivity. Qed.

Lemma bind_none {A B} (k : A -> option B) : None ≫= k = None.
Proof. reflexivity. Qed.

Lemma span_space_then_digit d r :
  isDigit d = true ->
  plus isWhiteSpace (String " " (String d r)) = Some (" ", String d r).
Proof.
  intros Hd. unfold plus.
  change (span isWhiteSpace (String " " (String d r)))
    with (let (a, b) :=
            if isWhiteSpace d
            then let (a', b') := span isWhiteSpace r in (String d a', b')
            else ("", String d r)
          in (String " " a, b)).
  rewrite (isDigit_not_space d Hd). reflexivity.
Qed.

Lemma facePattern_no_triplet x :
  (exists d r, x = String d r /\ isDigit d = true) ->
  faceTriplet x = None ->
  facePattern ("f " ++ x) = None.
Proof.
  intros (d & r & -> & Hd) Ht. unfold facePattern.
  change (lit "f" ("f " ++ String d r)) with (Some (String " " (String d r))).
  rewrite bind_some, (span_space_then_digit d r Hd), bind_some, Ht.
  reflexivity.
Qed.

Lemma digits_head a s :
  digits a = true -> exists d r, a ++ s = String d r /\ isDigit d = true.
Proof.
  destruct a as [|d a]; [discriminate|]. cbn. intros H.
  apply andb_true_iff in H as [Hd _]. eauto.
Qed.

Lemma no_match_line st t :
  (exists r, t = String "f" r) ->
  facePattern t = None ->
  forall line, trim line = t -> parseLine st line = st.
Proof.
  intros [r ->] Hf line Ht. unfold parseLine. rewrite Ht, Hf. reflexivity.
Qed.

(** Face lines in the shorter notations of the file format are dropped
    without a trace: a face of bare vertex indices ([f 1 2 3]), of
    vertex/texture pairs ([f 1/1 2/2 3/3]) and of vertex//normal pairs
    ([f 1//1 2//2 3//3]) leaves the state of the loop as it was, because
    the face pattern asks for all three indices of a corner. *)
Theorem partial_face_lines_are_dropped st line a b rest :
  digits a = true ->
  digits b = true ->
  trim line = "f " ++ a ++ " " ++ rest
  \/ trim line = "f " ++ a ++ "/" ++ b ++ " " ++ rest
  \/ trim line = "f " ++ a ++ "//" ++ rest ->
  parseLine st line = st.
Proof.
  intros Ha Hb H.
  assert (Hs : isDigit " " = false) by reflexivity.
  assert (Hl : isDigit "/" = false) by reflexivity.
  destruct H as [H|[H|H]];
    (eapply no_match_line; [eexists; reflexivity| |exact H]);
    (apply facePattern_no_triplet; [apply digits_head, Ha|]);
    unfold faceTriplet.
  - change (a ++ " " ++ rest) with (a ++ String " " rest).
    rewrite faceIndex_digits by assumption. reflexivity.
  - change (a ++ "/" ++ b ++ " " ++ rest)
      with (a ++ String "/" (b ++ String " " rest)).
    rewrite faceIndex_digits by assumption.
    cbn [mbind option_bind lit Ascii.eqb Bool.eqb].
    rewrite faceIndex_digits by assumption. reflexivity.
  - change (a ++ "//" ++ rest) with (a ++ String "/" (String "/" rest)).
    rewrite faceIndex_digits by assumption. reflexivity.
Qed.

Lemma partial_face_lines_are_dropped_witness :
  parseLine initialState "f 1 2 3" = initialState
  /\ parseLine initialState "f 1/1 2/2 3/3" = initialState
  /\ parseLine initialState "f 1//1 2//2 3//3" = initialState.
Proof.
  split; [|split].
  - apply (partial_face_lines_are_dropped initialState "f 1 2 3"
             "1" "1" "2 3"); [reflexivity|reflexivity|].
    left. reflexivity.
  - apply (partial_face_lines_are_dropped initialState "f 1/1 2/2 3/3"
             "1" "1" "2/2 3/3"); [reflexivity|reflexivity|].
    right. left. reflexivity.
  - apply (partial_face_lines_are_dropped initialState "f 1//1 2//2 3//3"
             "1" "1" "1 2//2 3//3"); [reflexivity|reflexivity|].
    right. right. reflexivity.
Defined.

(** ** Texts without faces *)

Lemma faceless_line st line :
  facePattern (trim line) = None ->
  objects st = [] -> ParsedObject.vertices (currentObject st) = [] ->
  objects (parseLine st line) = []
  /\ ParsedObject.vertices (currentObject (parseLine st line)) = [].
Proof.
  intros Hf Ho Hv. unfold parseLine. rewrite Hf.
  destruct (String.length (trim line) =? 0)%nat; [auto|].
  destruct (match trim line with String "#" _ => true | _ => false end);
    [auto|].
  destruct (vertexPattern (trim line)); [auto|].
  destruct (normalPattern (trim line)); [auto|].
  destruct (uvPattern (trim line)); [auto|].
  destruct (startsWith "o " (trim line)).
  - cbn. unfold flush. rewrite Hv, Ho. auto.
  - destruct (startsWith "usemtl " (trim line)); auto.
Qed.

Lemma faceless_lines lines : forall st,
  Forall (fun line => facePattern (trim line) = None) lines ->
  objects st = [] -> ParsedObject.vertices (currentObject st) = [] ->
  objects (parseLines st lines) = []
  /\ ParsedObject.vertices (currentObject (parseLines st lines)) = [].
Proof.
  induction lines as [|l ls IH]; intros st Hf Ho Hv; [auto|].
  inversion Hf; subst. rewrite parseLines_cons.
  destruct (faceless_line st l) as [Ho' Hv']; auto.
Qed.

(** A text none of whose lines is taken by the face pattern gives an empty
    group, whatever vertices, objects and materials it declares: an object
    is kept only once a face has given it vertices. *)
Theorem text_without_faces_gives_no_mesh (text : string) :
  Forall (fun line => facePattern (trim line) = None) (split_lines text) ->
  parse text = [].
Proof.
  intros Hf. unfold parse, parseObjects.
  destruct (faceless_lines (split_lines text) initialState Hf eq_refl eq_refl)
    as [Ho Hv].
  unfold flush. rewrite Hv, Ho. reflexivity.
Qed.

Lemma text_without_faces_gives_no_mesh_witness :
  parse ("o first" ++ LF ++ "v 0 0 0" ++ LF ++ "usemtl skin" ++ LF
         ++ "f 1 1 1") = [].
Proof.
  apply text_without_faces_gives_no_mesh.
  repeat constructor.
Defined.

(** ** Line ends *)

Lemma string_rev_onto_app x y acc :
  string_rev_onto (x ++ y) acc = string_rev_onto y (string_rev_onto x acc).
Proof.
  revert acc. induction x as [|c x IH]; intros acc; cbn; [reflexivity|].
  apply IH.
Qed.

Lemma trimStart_space c s :
  isWhiteSpace c = true -> trimStart (String c s) = trimStart s.
Proof.
  unfold trimStart. cbn [span]. intros ->.
  destruct (span isWhiteSpace s). reflexivity.
Qed.

Lemma trimStart_other c s :
  isWhiteSpace c = false -> trimStart (String c s) = String c s.
Proof. unfold trimStart. cbn [span]. intros ->. reflexivity. Qed.

Lemma trimEnd_CR s : trimEnd (s ++ CR) = trimEnd s.
Proof.
  unfold trimEnd, string_rev. rewrite string_rev_onto_app.
  cbn [CR string_rev_onto]. rewrite trimStart_space by reflexivity.
  reflexivity.
Qed.

Lemma trim_CR line : trim (line ++ CR) = trim line.
Proof.
  unfold trim. induction line as [|c r IH].
  - reflexivity.
  - change (String c r ++ CR) with (String c (r ++ CR)).
    destruct (isWhiteSpace c) eqn:Hc.
    + rewrite !trimStart_space by exact Hc. exact IH.
    + rewrite !trimStart_other by exact Hc.
      change (String c (r ++ CR)) with (String c r ++ CR).
      apply trimEnd_CR.
Qed.

Lemma parseLine_trim st l l' : trim l = trim l' -> parseLine st l = parseLine st l'.
Proof. unfold parseLine. intros ->. reflexivity. Qed.

Lemma split_lines_CR text :
  Forall2 (fun l l' => l = l' \/ l = l' ++ CR)
    (split_lines (withCarriageReturns text)) (split_lines text).
Proof.
  induction text as [|c r IH].
  - repeat constructor.
  - cbn [withCarriageReturns]. destruct (c =? "010")%char eqn:Hc.
    + cbn [split_lines]. rewrite Hc. cbn [Ascii.eqb Bool.eqb].
      cbv iota. constructor; [right; reflexivity|exact IH].
    + cbn [split_lines]. rewrite Hc.
      destruct IH as [|l l' ls ls' Hl IH]; [repeat constructor|].
      constructor; [|exact IH].
      destruct Hl as [->| ->]; [left|right]; reflexivity.
Qed.

Lemma parseLines_CR ls ls' :
  Forall2 (fun l l' => l = l' \/ l = l' ++ CR) ls ls' ->
  forall st, parseLines st ls = parseLines st ls'.
Proof.
  induction 1 as [|l l' ls ls' Hl _ IH]; intros st; [reflexivity|].
  rewrite !parseLines_cons, <- IH. f_equal.
  apply parseLine_trim. destruct Hl as [->| ->]; [reflexivity|].
  apply trim_CR.
Qed.

(** A file with the line ends of Windows parses as the same file with
    plain line feeds: the carriage return left at the end of every piece
    by [split('\n')] is taken off by [trim] before the line is read. *)
Theorem carriage_returns_are_ignored (text : string) :
  parse (withCarriageReturns text) = parse text.
Proof.
  unfold parse, parseObjects.
  rewrite (parseLines_CR _ _ (split_lines_CR text)). reflexivity.
Qed.

(** ** Materials *)








End OBJLoaderProperties.

(* ------------------------------------------------------------------ *)
(** * Part VII.  Properties of the viewer applications                 *)
(* ------------------------------------------------------------------ *)

Module AppProperties.

Import Three App.
Local Open Scope R_scope.

(** ** The marker of a highlighted point *)

Lemma coordinate_range (c : ascii) :
  -1 <= IZR (Z.rem (Z.of_nat (nat_of_ascii c)) 10) * 0.2 - 1 <= 0.8.
Proof.
  assert (H : (0 <= Z.rem (Z.of_nat (nat_of_ascii c)) 10 < 10)%Z)
    by (apply Z.rem_bound_pos; lia).
  destruct H as [H0 H1].
  assert (H9 : (Z.rem (Z.of_nat (nat_of_ascii c)) 10 <= 9)%Z) by lia.
  apply IZR_le in H0, H9. lra.
Qed.

(** The marker of a point whose id has three characters or more lies in
    the cube from -1 to 0.8 on every axis; an id with fewer characters
    gives a position that is not a number. *)
Theorem highlight_position_in_cube (pointId : string) :
  match highlightPosition pointId with
  | Some p =>
      (3 <= String.length pointId)%nat
      /\ forall axis, In axis axes -> -1 <= axis p <= 0.8
  | None => (String.length pointId < 3)%nat
  end.
Proof.
  destruct pointId as [|a [|b [|c r]]]; cbn; try lia.
  split; [lia|].
  intros axis [<-|[<-|[<-|[]]]]; cbn; apply coordinate_range.
Qed.

(** ** The animation of the target *)

Lemma Math_pow_cube x : 0 <= x -> Math_pow x 3 = x * x * x.
Proof.
  intros Hx. unfold Math_pow.
  destruct (Rlt_dec 0 x) as [H|H].
  - replace 3 with (INR 3) by (simpl; lra).
    rewrite Rpower_pow by exact H. simpl. ring.
  - destruct (Req_dec_T 3 0); [lra|].
    assert (x = 0) by lra. subst. ring.
Qed.

Lemma animate_again s e elapsed :
  snd (animate s e elapsed) = true <-> elapsed < duration.
Proof.
  unfold animate, duration, Rltb. cbn [snd].
  destruct (Rlt_dec (Rmin (elapsed / 1000) 1) 1) as [H|H].
  - split; [intros _|reflexivity].
    destruct (Rle_dec (elapsed / 1000) 1) as [L|L].
    + rewrite Rmin_left in H by exact L. lra.
    + rewrite Rmin_right in H by lra. lra.
  - split; [discriminate|]. intros L. exfalso. apply H.
    rewrite Rmin_left by lra. lra.
Qed.

Lemma animate_late s e elapsed :
  duration <= elapsed -> animate s e elapsed = (e, false).
Proof.
  intros H.
  assert (Hs : snd (animate s e elapsed) = false).
  { destruct (snd (animate s e elapsed)) eqn:E; [|reflexivity].
    apply animate_again in E. lra. }
  rewrite (surjective_pairing (animate s e elapsed)), Hs. f_equal.
  unfold animate, duration in *. cbn [fst].
  rewrite (Rmin_right (elapsed / 1000) 1) by lra.
  replace (1 - 1) with 0 by ring. rewrite Math_pow_cube by lra.
  unfold Vector3_lerpVectors. destruct e. cbn. f_equal; ring.
Qed.

Lemma lerp_between a b t :
  0 <= t <= 1 -> between a b (a + (b - a) * t).
Proof.
  intros Ht. unfold between, Rmin, Rmax.
  destruct (Rle_dec a b); split; nra.
Qed.

Lemma animate_early s e elapsed :
  0 <= elapsed < duration ->
  forall axis, In axis axes ->
    between (axis s) (axis e) (axis (fst (animate s e elapsed))).
Proof.
  intros H axis Hax. unfold animate, duration in *. cbn [fst].
  rewrite (Rmin_left (elapsed / 1000) 1) by lra.
  set (q := 1 - elapsed / 1000).
  assert (Hq : 0 < q <= 1) by (unfold q; lra).
  rewrite Math_pow_cube by lra.
  assert (Hc : 0 <= 1 - q * q * q <= 1) by nra.
  destruct Hax as [<-|[<-|[<-|[]]]]; cbn; apply lerp_between, Hc.
Qed.

Lemma runFrames_ends s e before after elapsed :
  Forall (fun t => t < duration) before ->
  duration <= elapsed ->
  forall current,
    runFrames s e (before ++ elapsed :: after) current = (e, false).
Proof.
  intros Hb He.
  induction before as [|t ts IH]; intros current.
  - cbn [app runFrames]. rewrite (animate_late _ _ _ He). reflexivity.
  - inversion Hb; subst. cbn [app runFrames].
    destruct (animate s e t) as [p again] eqn:E.
    assert (Ha : again = true).
    { replace again with (snd (animate s e t)) by (rewrite E; reflexivity).
      apply animate_again. assumption. }
    rewrite Ha. apply IH. assumption.
Qed.

Lemma runFrames_between s e frames :
  Forall (fun t => 0 <= t < duration) frames ->
  forall current,
    (forall axis, In axis axes -> between (axis s) (axis e) (axis current)) ->
    snd (runFrames s e frames current) = true
    /\ forall axis, In axis axes ->
         between (axis s) (axis e) (axis (fst (runFrames s e frames current))).
Proof.
  induction frames as [|t ts IH]; intros Hf current Hc.
  - cbn [runFrames fst snd]. split; [reflexivity|exact Hc].
  - inversion Hf; subst. cbn [runFrames].
    destruct (animate s e t) as [p again] eqn:E.
    assert (Ha : again = true).
    { replace again with (snd (animate s e t)) by (rewrite E; reflexivity).
      apply animate_again. lra. }
    rewrite Ha. apply IH; [assumption|].
    intros axis Hax.
    replace p with (fst (animate s e t)) by (rewrite E; reflexivity).
    apply animate_early; assumption.
Qed.

(** The animation ends exactly at the point asked for: the first frame
    that runs [duration] milliseconds or more after the start puts the
    target there and requests no further frame, whatever the frames before
    it were and whatever frames might have come after it. *)
Theorem animation_ends_at_the_point (target position : Vector3.t)
    (before after : list R) (elapsed : R) :
  Forall (fun t => t < duration) before ->
  duration <= elapsed ->
  animateCameraToPosition target position (before ++ elapsed :: after)
  = (position, false).
Proof.
  intros Hb He. unfold animateCameraToPosition. cbv zeta.
  apply runFrames_ends; assumption.
Qed.

(** While every frame runs at a time from 0 up to but not including
    [duration], the animation goes on requesting frames and the target
    stays, on every axis, between where it started and the point asked
    for. *)
Theorem animation_stays_between (target position : Vector3.t)
    (frames : list R) :
  Forall (fun t => 0 <= t < duration) frames ->
  snd (animateCameraToPosition target position frames) = true
  /\ forall axis, In axis axes ->
       between (axis target) (axis position)
         (axis (fst (animateCameraToPosition target position frames))).
Proof.
  intros Hf. unfold animateCameraToPosition. cbv zeta.
  apply runFrames_between; [exact Hf|].
  intros axis _. unfold between, Rmin, Rmax.
  destruct (Rle_dec (axis target) (axis position)); lra.
Qed.

Lemma animation_ends_at_the_point_witness :
  animateCameraToPosition (Vector3.mk 0 0 0) (Vector3.mk 1 (-1) 0.8)
    [0; 16; 500; 1003; 1020]
  = (Vector3.mk 1 (-1) 0.8, false).
Proof.
  apply (animation_ends_at_the_point (Vector3.mk 0 0 0)
           (Vector3.mk 1 (-1) 0.8) [0; 16; 500] [1020] 1003).
  - unfold duration. repeat constructor; lra.
  - unfold duration. lra.
Defined.

Lemma animation_stays_between_witness :
  snd (animateCameraToPosition (Vector3.mk 0 0 0) (Vector3.mk 1 (-1) 0.8)
         [0; 16; 500]) = true.
Proof.
  apply (animation_stays_between (Vector3.mk 0 0 0) (Vector3.mk 1 (-1) 0.8)
           [0; 16; 500]).
  unfold duration. repeat constructor; lra.
Defined.

(** ** Centring a loaded model *)

Lemma fold_Rmin_spec (l : list R) : forall a,
  let m := fold_left Rmin l a in
  (m <= a /\ forall x, In x l -> m <= x) /\ (m = a \/ In m l).
Proof.
  induction l as [|y l IH]; intros a; cbn.
  - split; [split; [lra|intros x []]|left; reflexivity].
  - destruct (IH (Rmin a y)) as [[H1 H2] H3]. cbv zeta in *.
    pose proof (Rmin_l a y). pose proof (Rmin_r a y).
    split; [split|].
    + lra.
    + intros x [<-|Hx]; [lra|apply H2, Hx].
    + destruct H3 as [H3|H3]; [|right; right; exact H3].
      rewrite H3. unfold Rmin. destruct (Rle_dec a y); [left|right; left];
        reflexivity.
Qed.

Lemma fold_Rmax_spec (l : list R) : forall a,
  let m := fold_left Rmax l a in
  (a <= m /\ forall x, In x l -> x <= m) /\ (m = a \/ In m l).
Proof.
  induction l as [|y l IH]; intros a; cbn.
  - split; [split; [lra|intros x []]|left; reflexivity].
  - destruct (IH (Rmax a y)) as [[H1 H2] H3]. cbv zeta in *.
    pose proof (Rmax_l a y). pose proof (Rmax_r a y).
    split; [split|].
    + lra.
    + intros x [<-|Hx]; [lra|apply H2, Hx].
    + destruct H3 as [H3|H3]; [|right; right; exact H3].
      rewrite H3. unfold Rmax. destruct (Rle_dec a y); [right; left|left];
        reflexivity.
Qed.

Lemma hull_axis (axis : Vector3.t -> R) bs :
  In axis axes -> forall b,
  axis (fst (hull b bs))
  = fold_left Rmin (map (fun b => axis (fst b)) bs) (axis (fst b))
  /\ axis (snd (hull b bs))
     = fold_left Rmax (map (fun b => axis (snd b)) bs) (axis (snd b)).
Proof.
  intros Hax. unfold hull.
  induction bs as [|b' bs IH]; intros b; [split; reflexivity|].
  cbn [fold_left map]. destruct (IH
    (Vector3.mk (Rmin (Vector3.x (fst b)) (Vector3.x (fst b')))
                (Rmin (Vector3.y (fst b)) (Vector3.y (fst b')))
                (Rmin (Vector3.z (fst b)) (Vector3.z (fst b'))),
     Vector3.mk (Rmax (Vector3.x (snd b)) (Vector3.x (snd b')))
                (Rmax (Vector3.y (snd b)) (Vector3.y (snd b')))
                (Rmax (Vector3.z (snd b)) (Vector3.z (snd b')))))
    as [-> ->].
  destruct Hax as [<-|[<-|[<-|[]]]]; split; reflexivity.
Qed.

Lemma fold_expand_real bs : forall b,
  fold_left expand (map realBox bs) (realBox b) = realBox (hull b bs).
Proof.
  unfold hull. induction bs as [|b' bs IH]; intros b; [reflexivity|].
  cbn [map fold_left]. rewrite <- IH. reflexivity.
Qed.

Lemma expand_first b :
  expand (mkBox (mkPoint PosInfinity PosInfinity PosInfinity)
                (mkPoint NegInfinity NegInfinity NegInfinity)) (realBox b)
  = realBox b.
Proof. reflexivity. Qed.

(** [centerModel] centres the model: when the model has a mesh and the
    bounding boxes of its meshes have real coordinates, the position
    [centerModel] gives the model is real, and on every axis the boxes
    moved by it fit between [-h] and [h], one of them reaching [-h] and
    one reaching [h], for a half extent [h].  Children that are not meshes
    play no part, and the former position of the model does not either. *)
Theorem centerModel_centres (model : Group)
    (boxes : list (Vector3.t * Vector3.t)) :
  meshes (children model) = map realBox boxes ->
  boxes <> [] ->
  exists p h : Vector3.t,
    centerModel (Some model) = Some (mkGroup (realPoint p) (children model))
    /\ forall axis, In axis axes ->
         (forall b, In b boxes ->
            - axis h <= axis (fst b) + axis p
            /\ axis (snd b) + axis p <= axis h)
         /\ (exists b, In b boxes /\ axis (fst b) + axis p = - axis h)
         /\ (exists b, In b boxes /\ axis (snd b) + axis p = axis h).
Proof.
  intros Hm Hne. destruct boxes as [|b0 bs]; [congruence|].
  set (H := hull b0 bs).
  exists (Vector3.mk (- ((Vector3.x (fst H) + Vector3.x (snd H)) / 2))
                     (- ((Vector3.y (fst H) + Vector3.y (snd H)) / 2))
                     (- ((Vector3.z (fst H) + Vector3.z (snd H)) / 2))),
         (Vector3.mk ((Vector3.x (snd H) - Vector3.x (fst H)) / 2)
                     ((Vector3.y (snd H) - Vector3.y (fst H)) / 2)
                     ((Vector3.z (snd H) - Vector3.z (fst H)) / 2)).
  split.
  - unfold centerModel. cbv zeta. cbn [children]. rewrite Hm.
    cbn [map length Nat.eqb fold_left].
    rewrite expand_first, fold_expand_real. fold H. reflexivity.
  - intros axis Hax.
    destruct (hull_axis axis bs Hax b0) as [Elo Ehi]. fold H in Elo, Ehi.
    destruct (fold_Rmin_spec (map (fun b => axis (fst b)) bs) (axis (fst b0)))
      as [[L1 L2] L3].
    destruct (fold_Rmax_spec (map (fun b => axis (snd b)) bs) (axis (snd b0)))
      as [[U1 U2] U3].
    cbv zeta in L1, L2, L3, U1, U2, U3.
    rewrite <- Elo in L1, L2, L3. rewrite <- Ehi in U1, U2, U3.
    assert (Ep : axis (Vector3.mk
                   (- ((Vector3.x (fst H) + Vector3.x (snd H)) / 2))
                   (- ((Vector3.y (fst H) + Vector3.y (snd H)) / 2))
                   (- ((Vector3.z (fst H) + Vector3.z (snd H)) / 2)))
                 = - ((axis (fst H) + axis (snd H)) / 2))
      by (destruct Hax as [<-|[<-|[<-|[]]]]; reflexivity).
    assert (Eh : axis (Vector3.mk
                   ((Vector3.x (snd H) - Vector3.x (fst H)) / 2)
                   ((Vector3.y (snd H) - Vector3.y (fst H)) / 2)
                   ((Vector3.z (snd H) - Vector3.z (fst H)) / 2))
                 = (axis (snd H) - axis (fst H)) / 2)
      by (destruct Hax as [<-|[<-|[<-|[]]]]; reflexivity).
    rewrite Ep, Eh. clear Ep Eh.
    split; [|split].
    + intros b [<-|Hb].
      * lra.
      * assert (axis (fst H) <= axis (fst b))
          by (apply L2, (in_map (fun b => axis (fst b))), Hb).
        assert (axis (snd b) <= axis (snd H))
          by (apply U2, (in_map (fun b => axis (snd b))), Hb).
        lra.
    + destruct L3 as [L3|L3].
      * exists b0. split; [left; reflexivity|]. lra.
      * apply in_map_iff in L3 as (b & Eb & Hb).
        exists b. split; [right; exact Hb|]. lra.
    + destruct U3 as [U3|U3].
      * exists b0. split; [left; reflexivity|]. lra.
      * apply in_map_iff in U3 as (b & Eb & Hb).
        exists b. split; [right; exact Hb|]. lra.
Qed.

Lemma centerModel_centres_witness :
  exists p h : Vector3.t,
    centerModel (Some sampleModel)
    = Some (mkGroup (realPoint p) (children sampleModel))
    /\ forall axis, In axis axes ->
         (forall b, In b sampleBoxes ->
            - axis h <= axis (fst b) + axis p
            /\ axis (snd b) + axis p <= axis h)
         /\ (exists b, In b sampleBoxes /\ axis (fst b) + axis p = - axis h)
         /\ (exists b, In b sampleBoxes /\ axis (snd b) + axis p = axis h).
Proof.
  apply (centerModel_centres sampleModel sampleBoxes).
  - reflexivity.
  - discriminate.
Defined.

(** A model without meshes is put at the origin, and no model stays no
    model. *)
Lemma centerModel_without_meshes (model : Group) :
  meshes (children model) = [] ->
  centerModel (Some model)
  = Some (mkGroup (mkPoint (Num 0) (Num 0) (Num 0)) (children model)).
Proof. intros H. unfold centerModel. cbv zeta. cbn [children]. rewrite H. reflexivity. Qed.

End AppProperties.
